(** * SQLite -> PostgreSQL migration script ([src/index.js]): a shallow embedding

    The development follows the script top-down: the JavaScript values and
    built-ins the script relies on, the type mapper, the per-class
    sanitizers, the classifier of destination types, the batch copier, the
    constraint linker and the main control flow.  Definitions come first,
    the theorems about them afterwards.

    Modelling conventions.
    - JavaScript strings are [string]; only the ASCII range is interpreted
      (white space, digits, letters and case mapping); characters above 127
      are opaque: never white space, never digits, unchanged by case mapping.
      The model is exact on strings of ASCII characters.  JavaScript itself
      knows white space above 127 and maps some characters above 127 to
      ASCII letters, so what is stated about the letter case or the
      white space of an arbitrary input is stated for ASCII strings.
    - JavaScript numbers are IEEE 754 binary64 values, taken from the
      Standard Library's [SpecFloat] with precision 53 and [emax] 1024.
    - JavaScript objects used as dictionaries (rows, [typesByCol], the
      [tableMeta] map) are [gmap]s with string keys.
    - The two databases are external collaborators: the source is a
      read-only record of query answers, the destination a deterministic
      state machine whose operations either succeed or throw. *)

From Stdlib Require Import ZArith String Ascii Lia DecimalString.
From Stdlib Require Import Floats.SpecFloat.
From stdpp Require Import base option strings gmap list.

Open Scope string_scope.
Open Scope Z_scope.

(* ================================================================== *)
(** * Part I: definitions *)
(* ================================================================== *)

(** ** JavaScript strings *)

Module JsStr.

Definition code (c : ascii) : N := N_of_ascii c.

(** White space and line terminators of the ASCII range: TAB, LF, VT, FF,
    CR and SPACE.  Both [String.prototype.trim] and the regular
    expression class [\s] use this set. *)
Definition isWhiteSpace (c : ascii) : bool :=
  ((9 <=? code c)%N && (code c <=? 13)%N) || (code c =? 32)%N.

(** [\d], and the test [code >= 48 && code <= 57] of [isAllDigitsStr]. *)
Definition isDigit (c : ascii) : bool :=
  (48 <=? code c)%N && (code c <=? 57)%N.

Definition isEmpty (s : string) : bool :=
  match s with EmptyString => true | String _ _ => false end.

Fixpoint trimStart (s : string) : string :=
  match s with
  | EmptyString => EmptyString
  | String c r => if isWhiteSpace c then trimStart r else s
  end.

Fixpoint trimEnd (s : string) : string :=
  match s with
  | EmptyString => EmptyString
  | String c r =>
      match trimEnd r with
      | EmptyString => if isWhiteSpace c then EmptyString else String c EmptyString
      | r' => String c r'
      end
  end.

Definition trim (s : string) : string := trimEnd (trimStart s).

Definition upperChar (c : ascii) : ascii :=
  if (97 <=? code c)%N && (code c <=? 122)%N
  then ascii_of_N (code c - 32) else c.

Definition lowerChar (c : ascii) : ascii :=
  if (65 <=? code c)%N && (code c <=? 90)%N
  then ascii_of_N (code c + 32) else c.

Fixpoint mapChars (f : ascii -> ascii) (s : string) : string :=
  match s with
  | EmptyString => EmptyString
  | String c r => String (f c) (mapChars f r)
  end.

Definition toUpperCase : string -> string := mapChars upperChar.
Definition toLowerCase : string -> string := mapChars lowerChar.

(** [s.startsWith(p)] *)
Fixpoint startsWith (s p : string) : bool :=
  match p, s with
  | EmptyString, _ => true
  | String _ _, EmptyString => false
  | String a p', String b s' => Ascii.eqb a b && startsWith s' p'
  end.

(** [s.includes(p)], which is also what an unanchored regular expression
    made of literal characters tests. *)
Fixpoint includes (s p : string) : bool :=
  startsWith s p ||
  match s with
  | EmptyString => false
  | String _ r => includes r p
  end.

(** The longest prefix of digits and what follows it (a greedy [\d*]). *)
Fixpoint spanDigits (s : string) : string * string :=
  match s with
  | EmptyString => (EmptyString, EmptyString)
  | String c r =>
      if isDigit c
      then let '(d, rest) := spanDigits r in (String c d, rest)
      else (EmptyString, s)
  end.

(** A greedy [\s*]: what is left after the leading white space, which is
    what [trimStart] computes. *)
Definition skipSpaces : string -> string := trimStart.

Definition digitVal (c : ascii) : Z := Z.of_N (code c) - 48.

(** The value of a string of decimal digits, most significant first. *)
Fixpoint digitsValueFrom (acc : Z) (s : string) : Z :=
  match s with
  | EmptyString => acc
  | String c r => digitsValueFrom (10 * acc + digitVal c) r
  end.

Definition digitsValue : string -> Z := digitsValueFrom 0.

(** [s.replace(pat, by)] with a string pattern: only the first occurrence
    is replaced ([by] contains no [$], so it is inserted as it is). *)
Fixpoint dropChars (n : nat) (s : string) : string :=
  match n, s with
  | O, _ => s
  | S _, EmptyString => EmptyString
  | S n', String _ r => dropChars n' r
  end.

Fixpoint replaceFirst (pat by_ s : string) : string :=
  if startsWith s pat then by_ ++ dropChars (String.length pat) s
  else match s with
       | EmptyString => EmptyString
       | String c r => String c (replaceFirst pat by_ r)
       end.

End JsStr.

(** ** JavaScript numbers: IEEE 754 binary64 *)

Module JsNum.

Abbreviation float := spec_float.

Definition prec : Z := 53.
Definition emax : Z := 1024.

(** A JavaScript number is a value of [float] that [valid_binary prec emax]
    accepts.  The operations below are meant for such values; the theorems
    hold for every value of the type. *)

(** The number nearest to an integer (ties to even): integer literals of
    the script, [parseInt] of a digit string. *)
Definition ofZ (z : Z) : float := binary_normalize prec emax z 0 false.

Definition NaN : float := S754_nan.
Definition zero : float := S754_zero false.

Definition isNaN (x : float) : bool :=
  match x with S754_nan => true | _ => false end.

(** [Number.isFinite] on a number. *)
Definition isFinite (x : float) : bool :=
  match x with
  | S754_zero _ | S754_finite _ _ _ => true
  | S754_infinity _ | S754_nan => false
  end.

(** [a === b] on numbers: [NaN] differs from everything, [+0 === -0]. *)
Definition strictEq (a b : float) : bool := SFeqb a b.

(** [a < b] and [a >= b]; both are false when an operand is [NaN]. *)
Definition lt (a b : float) : bool := SFltb a b.

Definition ge (a b : float) : bool :=
  match SFcompare a b with
  | Some (Eq | Gt) => true
  | _ => false
  end.

Definition gt (a b : float) : bool :=
  match SFcompare a b with
  | Some Gt => true
  | _ => false
  end.

Definition mul (a b : float) : float := SFmul prec emax a b.

(** [Math.trunc]: the fractional bits of the significand are cleared;
    a magnitude below one gives a zero of the same sign. *)
Definition trunc (x : float) : float :=
  match x with
  | S754_finite s m e =>
      if 0 <=? e then x
      else
        let q := Z.shiftr (Zpos m) (- e) in
        match Z.shiftl q (- e) with
        | Zpos m' => S754_finite s m' e
        | _ => S754_zero s
        end
  | _ => x
  end.

(** [Number.isInteger] on a number: finite, and its value [m * 2^e] has no
    fractional part. *)
Definition isInteger (x : float) : bool :=
  match x with
  | S754_zero _ => true
  | S754_finite _ m e => (0 <=? e) || (Zpos m mod 2 ^ (- e) =? 0)
  | _ => false
  end.

(** [TimeClip]: a time value is an integral number of milliseconds of
    magnitude at most 8.64e15, or [NaN]; [-0] becomes [+0]. *)
Definition timeClip (t : float) : float :=
  if negb (isFinite t) then NaN
  else if gt (SFabs t) (ofZ 8640000000000000) then NaN
  else match trunc t with
       | S754_zero _ => zero
       | r => r
       end.

(** The number nearest to [m * 10^e] for [m > 0], with the sign [s]. *)
Definition ofDecimal (s : bool) (m : positive) (e : Z) : float :=
  match e with
  | Zneg k =>
      let '(q, e', l) :=
        SFdiv_core_binary prec emax (Zpos m) 0 (10 ^ Zpos k) 0 in
      binary_round_aux prec emax s q e' l
  | _ => binary_normalize prec emax (if s then - (Zpos m * 10 ^ e) else Zpos m * 10 ^ e) 0 s
  end.

End JsNum.

Import JsStr JsNum.

(** ** JavaScript values

    The values a cell can hold: what the SQLite driver returns ([null],
    numbers, strings, [Buffer]s for BLOBs), what the sanitizers produce
    (booleans, [Date] objects) and [undefined], the value of a property
    that an object does not have. *)

Inductive JsValue :=
| VUndefined
| VNull
| VBool (b : bool)
| VNum (n : float)
| VStr (s : string)
| VDate (t : float)        (* a [Date] object and its time value *)
| VBuffer (content : string).

(** The parts of the JavaScript engine that are implementation-defined or
    not needed in closed form: [Date.parse], [Number::toString] and
    [Date.prototype.toString]. *)
Class JsEngine := {
  dateParse : string -> float;
  numberToString : float -> string;
  dateToString : float -> string
}.

Module Js.

(** [v == null] *)
Definition isNullish (v : JsValue) : bool :=
  match v with VUndefined | VNull => true | _ => false end.

Definition stripSign (s : string) : bool * string :=
  match s with
  | String c r =>
      if Ascii.eqb c "-"%char then (true, r)
      else if Ascii.eqb c "+"%char then (false, r)
      else (false, s)
  | EmptyString => (false, s)
  end.

(** An optional leading minus sign: what follows it. *)
Definition dropMinus (s : string) : string :=
  match s with
  | String c r => if Ascii.eqb c "-"%char then r else s
  | EmptyString => s
  end.

Definition isExpMark (c : ascii) : bool :=
  Ascii.eqb c "e"%char || Ascii.eqb c "E"%char.

(** What follows the digits of a decimal literal: nothing, or an
    [ExponentPart] reaching the end of the string. *)
Definition exponentPart (s : string) : option Z :=
  match s with
  | EmptyString => Some 0
  | String c r =>
      if isExpMark c then
        let '(neg, r1) := stripSign r in
        let '(d, r2) := spanDigits r1 in
        if isEmpty d || negb (isEmpty r2) then None
        else Some (if neg then - digitsValue d else digitsValue d)
      else None
  end.

(** [StrDecimalLiteral] *)
Definition strDecimalLiteral (s : string) : option float :=
  let '(neg, u) := stripSign s in
  if String.eqb u "Infinity" then Some (S754_infinity neg)
  else
    let '(ip, r1) := spanDigits u in
    let '(fp, r2) :=
      match r1 with
      | String c r => if Ascii.eqb c "."%char then spanDigits r else (EmptyString, r1)
      | EmptyString => (EmptyString, r1)
      end in
    if isEmpty ip && isEmpty fp then None
    else
      match exponentPart r2 with
      | None => None
      | Some ex =>
          Some match digitsValue (ip ++ fp) with
               | Zpos m => ofDecimal neg m (ex - Z.of_nat (String.length fp))
               | _ => S754_zero neg
               end
      end.

Definition radixDigit (c : ascii) : Z :=
  let n := Z.of_N (code c) in
  if (48 <=? n) && (n <=? 57) then n - 48
  else if (97 <=? n) && (n <=? 102) then n - 87
  else if (65 <=? n) && (n <=? 70) then n - 55
  else 16.

Fixpoint radixValue (radix acc : Z) (s : string) : option Z :=
  match s with
  | EmptyString => Some acc
  | String c r =>
      if radixDigit c <? radix
      then radixValue radix (radix * acc + radixDigit c) r
      else None
  end.

(** [NonDecimalIntegerLiteral]: [0x], [0o] and [0b] literals. *)
Definition nonDecimalLiteral (s : string) : option float :=
  match s with
  | String z (String p ds) =>
      let radix :=
        if Ascii.eqb (lowerChar p) "x"%char then 16
        else if Ascii.eqb (lowerChar p) "o"%char then 8
        else if Ascii.eqb (lowerChar p) "b"%char then 2
        else 0 in
      if negb (Ascii.eqb z "0"%char) || isEmpty ds then None
      else option_map ofZ (radixValue radix 0 ds)
  | _ => None
  end.

(** [Number(s)] on a string. *)
Definition stringToNumber (s : string) : float :=
  let t := trim s in
  if isEmpty t then zero
  else match nonDecimalLiteral t with
       | Some x => x
       | None =>
           match strDecimalLiteral t with
           | Some x => x
           | None => NaN
           end
       end.

(** [parseInt(s, 10)] on a non-empty string of digits. *)
Definition parseIntDigits (s : string) : float := ofZ (digitsValue s).

(** A number used as a condition: [0], [-0] and [NaN] are falsy. *)
Definition truthyNum (x : float) : bool :=
  match x with
  | S754_zero _ | S754_nan => false
  | _ => true
  end.

(** [new Date(v)] with one argument, as the time value of the new
    object: a [Date] argument gives its time value, a string is parsed,
    anything else is converted to a number; a [Buffer] converts to a
    string first. *)
Definition newDate `{JsEngine} (v : JsValue) : float :=
  timeClip
    match v with
    | VDate t => t
    | VStr s => dateParse s
    | VBuffer s => dateParse s
    | VNum n => n
    | VBool b => if b then ofZ 1 else zero
    | VNull => zero
    | VUndefined => NaN
    end.

(** [String(v)] *)
Definition toStr `{JsEngine} (v : JsValue) : string :=
  match v with
  | VUndefined => "undefined"
  | VNull => "null"
  | VBool b => if b then "true" else "false"
  | VNum n => numberToString n
  | VStr s => s
  | VDate t => dateToString t
  | VBuffer s => s
  end.

End Js.

Import Js.

(** ** Type Mapper *)

(** The [DataTypes] of Sequelize that the script uses. *)
Inductive DataType :=
| INTEGER
| STRING (len : float)
| TEXT
| BLOB
| DOUBLE
| DECIMAL
| DECIMAL_PS (precision scale : float)
| DATE
| BOOLEAN
| UUID.

(** The first match of [/\((\d+)\)/]: its group. *)
Fixpoint matchParenDigits (s : string) : option string :=
  match s with
  | EmptyString => None
  | String c r =>
      if Ascii.eqb c "("%char then
        match spanDigits r with
        | (String d ds, String k _) =>
            if Ascii.eqb k ")"%char then Some (String d ds)
            else matchParenDigits r
        | _ => matchParenDigits r
        end
      else matchParenDigits r
  end.

Definition parseLength (typeStr : string) : option float :=
  option_map parseIntDigits (matchParenDigits typeStr).

(** One attempt of [/\((\d+)\s*,\s*(\d+)\)/] right after an opening
    parenthesis: both groups. *)
Definition precisionScaleAt (r : string) : option (string * string) :=
  let '(p, r1) := spanDigits r in
  if isEmpty p then None
  else
    match skipSpaces r1 with
    | String c r2 =>
        if Ascii.eqb c ","%char then
          let '(sc, r3) := spanDigits (skipSpaces r2) in
          match r3 with
          | String k _ =>
              if negb (isEmpty sc) && Ascii.eqb k ")"%char
              then Some (p, sc) else None
          | EmptyString => None
          end
        else None
    | EmptyString => None
    end.

Fixpoint matchPrecisionScale (s : string) : option (string * string) :=
  match s with
  | EmptyString => None
  | String c r =>
      if Ascii.eqb c "("%char then
        match precisionScaleAt r with
        | Some m => Some m
        | None => matchPrecisionScale r
        end
      else matchPrecisionScale r
  end.

(** The string the mapper tests: [String(typeStrRaw || '').trim().toUpperCase()]. *)
Definition normalizedType (typeStrRaw : string) : string :=
  toUpperCase (trim typeStrRaw).

Definition mapSqliteTypeToSequelize (typeStrRaw : string) : DataType :=
  let typeStr := normalizedType typeStrRaw in
  let len := parseLength typeStr in
  if includes typeStr "INT" then INTEGER
  else if includes typeStr "CHAR" || includes typeStr "CLOB" || includes typeStr "TEXT" then
    match len with
    | Some n => if truthyNum n then STRING n else TEXT
    | None => TEXT
    end
  else if includes typeStr "BLOB" then BLOB
  else if includes typeStr "REAL" || includes typeStr "FLOA" || includes typeStr "DOUB" then DOUBLE
  else if includes typeStr "DEC" || includes typeStr "NUM" then
    match matchPrecisionScale typeStr with
    | Some (p, s) => DECIMAL_PS (parseIntDigits p) (parseIntDigits s)
    | None => DECIMAL
    end
  else if includes typeStr "DATE" || includes typeStr "TIME" then DATE
  else if String.eqb typeStr "BOOLEAN" then BOOLEAN
  else if String.eqb typeStr "UUID" then UUID
  else TEXT.

(** ** Row Sanitizer *)

Fixpoint allDigits (s : string) : bool :=
  match s with
  | EmptyString => true
  | String c r => isDigit c && allDigits r
  end.

(** [isAllDigitsStr] on a string (the sanitizers call it on strings only). *)
Definition isAllDigitsStr (str : string) : bool :=
  negb (isEmpty str) && allDigits str.

(** The epoch rules that [toJsDate] applies to a number; [None] when the
    number falls through to the generic [new Date(val)]. *)
Definition epochRule `{JsEngine} (val : float) : option JsValue :=
  if strictEq val zero then Some VNull
  else if ge val (ofZ 1000000000000) then Some (VDate (newDate (VNum val)))
  else if ge val (ofZ 1000000000) && lt val (ofZ 5000000000000)
       then Some (VDate (newDate (VNum (mul val (ofZ 1000)))))
  else None.

(** [const d = new Date(val); return isNaN(d.getTime()) ? null : d] *)
Definition genericDate `{JsEngine} (val : JsValue) : JsValue :=
  let d := newDate val in
  if isNaN d then VNull else VDate d.

Definition toJsDate `{JsEngine} (val : JsValue) : JsValue :=
  match val with
  | VUndefined | VNull => VNull
  | VStr EmptyString => VNull
  | VDate _ => val
  | _ =>
      let val :=
        match val with
        | VStr s => if isAllDigitsStr s then VNum (stringToNumber s) else val
        | _ => val
        end in
      match (match val with VNum n => epochRule n | _ => None end) with
      | Some r => r
      | None => genericDate val
      end
  end.

(** The flag is the configuration constant [TREAT_EMPTY_STRING_AS_NULL]. *)
Definition emptyStringToNull (flag : bool) (v : JsValue) : JsValue :=
  if negb flag then v
  else if isNullish v then v
  else match v with
       | VStr s => if isEmpty (trim s) then VNull else v
       | _ => v
       end.

Definition toBoolean `{JsEngine} (flag : bool) (val : JsValue) : JsValue :=
  let val := emptyStringToNull flag val in
  if isNullish val then VNull
  else match val with
       | VBool _ => val
       | VNum n => VBool (negb (strictEq n zero))
       | _ =>
           let s := toLowerCase (trim (toStr val)) in
           if String.eqb s "true" || String.eqb s "t" || String.eqb s "yes"
              || String.eqb s "y" || String.eqb s "1" then VBool true
           else if String.eqb s "false" || String.eqb s "f" || String.eqb s "no"
                   || String.eqb s "n" || String.eqb s "0" then VBool false
           else VNull
       end.

Definition toIntOrNull (flag : bool) (val : JsValue) : JsValue :=
  let val := emptyStringToNull flag val in
  if isNullish val then VNull
  else match val with
       | VStr s =>
           let n := stringToNumber s in
           if isFinite n then VNum (trunc n) else VNull
       | VNum n => if isFinite n then VNum (trunc n) else VNull
       | _ => VNull
       end.

Definition toFloatOrNull (flag : bool) (val : JsValue) : JsValue :=
  let val := emptyStringToNull flag val in
  if isNullish val then VNull
  else match val with
       | VStr s =>
           let n := stringToNumber s in
           if isFinite n then VNum n else VNull
       | VNum n => if isFinite n then VNum n else VNull
       | _ => VNull
       end.

(** What may follow the integer digits in [/^-?\d+(\.\d+)?([eE][+-]?\d+)?$/]:
    an optional fraction, returning what is left after it. *)
Definition afterFraction (r : string) : string :=
  match r with
  | String c r' =>
      if Ascii.eqb c "."%char then
        let '(f, r'') := spanDigits r' in
        if isEmpty f then r else r''
      else r
  | EmptyString => r
  end.

(** An optional exponent, returning what is left after it. *)
Definition afterExponent (r : string) : string :=
  match r with
  | String c r' =>
      if isExpMark c then
        let '(_, r1) := stripSign r' in
        let '(d, r2) := spanDigits r1 in
        if isEmpty d then r else r2
      else r
  | EmptyString => r
  end.

(** [/^-?\d+(\.\d+)?([eE][+-]?\d+)?$/.test(s)] *)
Definition isDecimalText (s : string) : bool :=
  let '(d, r1) := spanDigits (dropMinus s) in
  negb (isEmpty d) && isEmpty (afterExponent (afterFraction r1)).

Definition toDecimalStringOrNull `{JsEngine} (flag : bool) (val : JsValue) : JsValue :=
  let val := emptyStringToNull flag val in
  if isNullish val then VNull
  else match val with
       | VStr s => if isDecimalText (trim s) then VStr (trim s) else VNull
       | VNum n => if negb (isFinite n) then VNull else VStr (numberToString n)
       | _ => VNull
       end.

(** ** Destination Type Classifier *)

Inductive Kind := KDate | KBoolean | KFloat | KDecimal | KInt | KOther.

#[global] Instance Kind_eq_dec : EqDecision Kind.
Proof. solve_decision. Defined.

Definition classifyPgType (typeStr : string) : Kind :=
  let t := toLowerCase typeStr in
  if includes t "timestamp" || String.eqb t "date" || startsWith t "time" then KDate
  else if includes t "boolean" then KBoolean
  else if includes t "double" || includes t "real" || includes t "float" then KFloat
  else if includes t "numeric" || includes t "decimal" then KDecimal
  else if includes t "int" then KInt
  else KOther.

(** ** Configuration constants *)

Record Config := {
  PG_SCHEMA : string;
  INCLUDE_TABLES : list string;
  EXCLUDE_TABLES : list string;
  BATCH_SIZE : nat;
  ADD_FOREIGN_KEYS : bool;
  TREAT_EMPTY_STRING_AS_NULL : bool;
  DEBUG_ON_ERROR : bool
}.

(** ** Sanitizing a row *)

Abbreviation Row := (gmap string JsValue).
Abbreviation TypesByCol := (gmap string Kind).

(** [out[col]]: a missing property reads as [undefined]. *)
Definition getProp (out : Row) (col : string) : JsValue :=
  default VUndefined (out !! col).

(** The dispatch on [kind] of lines 302-306, for the classes that rewrite
    the cell; [None] for ['other']. *)
Definition sanitize `{JsEngine} (flag : bool) (kind : Kind) (v : JsValue) : option JsValue :=
  match kind with
  | KDate => Some (toJsDate v)
  | KBoolean => Some (toBoolean flag v)
  | KInt => Some (toIntOrNull flag v)
  | KFloat => Some (toFloatOrNull flag v)
  | KDecimal => Some (toDecimalStringOrNull flag v)
  | KOther => None
  end.

(** One iteration of the loop over [Object.entries(meta.typesByCol)]. *)
Definition coerceCol `{JsEngine} (flag : bool) (col : string) (kind : Kind) (out : Row) : Row :=
  match sanitize flag kind (getProp out col) with
  | Some v => <[col := v]> out
  | None => out
  end.

(** The callback of [rows.map]: [out] starts as a copy of [row]; every
    entry of [typesByCol] is visited once (the entries have distinct keys,
    and an iteration reads and writes its own key only). *)
Definition coerceRow `{JsEngine} (flag : bool) (typesByCol : TypesByCol) (row : Row) : Row :=
  map_fold (coerceCol flag) row typesByCol.

Definition coercePage `{JsEngine} (flag : bool) (typesByCol : TypesByCol) (rows : list Row) : list Row :=
  map (coerceRow flag typesByCol) rows.

(** ** The source database (read-only) *)

(** A row of [PRAGMA table_info]. *)
Record ColumnInfo := {
  c_name : string;
  c_type : string;
  c_notnull : Z;
  c_dflt_value : option string;
  c_pk : Z
}.

(** A row of [PRAGMA foreign_key_list]. *)
Record FkRow := {
  fk_id : Z;
  fk_table : string;
  fk_from : string;
  fk_to : option string;
  fk_on_update : option string;
  fk_on_delete : option string
}.

(** An entry of [getSqliteIndexes]. *)
Record IndexInfo := {
  idx_name : string;
  idx_unique : bool;
  idx_columns : list string
}.

(** The answers of the source: the table names of [sqlite_master], the
    three pragmas, and the rows of every table in the order in which
    [SELECT *] returns them. *)
Record Source := {
  src_tables : list string;
  src_columns : string -> list ColumnInfo;
  src_foreign_keys : string -> list FkRow;
  src_indexes : string -> list IndexInfo;
  src_rows : string -> list Row
}.

(** ** DDL values *)

Inductive DefaultValue :=
| DvLiteral (sql : string)
| DvNumber (n : float)
| DvString (s : string).

Record ColDef := {
  cd_type : DataType;
  cd_allowNull : bool;
  cd_primaryKey : bool;
  cd_autoIncrement : bool;
  cd_defaultValue : option DefaultValue
}.

Inductive Deferrable := INITIALLY_DEFERRED | INITIALLY_IMMEDIATE | NOT_DEFERRABLE.

(** The options object passed to [addConstraint]. *)
Record ConstraintSpec := {
  cs_fields : list string;
  cs_name : string;
  cs_ref_table : string;
  cs_ref_fields : list (option string);
  cs_onUpdate : string;
  cs_onDelete : string;
  cs_deferrable : Deferrable
}.

(** [/^-?\d+(\.\d+)?$/.test(s)] *)
Definition isPlainNumberText (s : string) : bool :=
  let '(d, r1) := spanDigits (dropMinus s) in
  negb (isEmpty d) && isEmpty (afterFraction r1).

Definition isLineTerminator (c : ascii) : bool :=
  (code c =? 10)%N || (code c =? 13)%N.

(** [inner] when the string is [inner] followed by the quote [q] and
    [inner] has no line terminator: the greedy group and the closing quote
    at the end of the string, in the two quoting patterns. *)
Fixpoint beforeClosingQuote (q : ascii) (s : string) : option string :=
  match s with
  | EmptyString => None
  | String c EmptyString => if Ascii.eqb c q then Some EmptyString else None
  | String c r =>
      if isLineTerminator c then None
      else option_map (String c) (beforeClosingQuote q r)
  end.

(** The group of the pattern that matches a whole string written between
    two quotes [q]. *)
Definition unquote (q : ascii) (s : string) : option string :=
  match s with
  | String c r => if Ascii.eqb c q then beforeClosingQuote q r else None
  | EmptyString => None
  end.

Definition doubleQuote : ascii := ascii_of_N 34.

(** [None] is [undefined]: the column gets no default. *)
Definition normalizeDefaultValue (dflt : option string) : option DefaultValue :=
  match dflt with
  | None => None
  | Some d =>
      let s := trim d in
      if String.eqb (toUpperCase s) "CURRENT_TIMESTAMP" then Some (DvLiteral "CURRENT_TIMESTAMP")
      else if String.eqb (toUpperCase s) "CURRENT_DATE" then Some (DvLiteral "CURRENT_DATE")
      else if String.eqb (toUpperCase s) "CURRENT_TIME" then Some (DvLiteral "CURRENT_TIME")
      else if isPlainNumberText s then Some (DvNumber (stringToNumber s))
      else match unquote "'"%char s with
           | Some m => Some (DvString m)
           | None =>
               match unquote doubleQuote s with
               | Some m => Some (DvString m)
               | None => Some (DvLiteral s)
               end
           end
  end.

(** The column definition built by the loop of [createPgTableFromSqlite]. *)
Definition colDefOf (c : ColumnInfo) : ColDef :=
  {| cd_type := mapSqliteTypeToSequelize (c_type c);
     cd_allowNull := c_notnull c =? 0;
     cd_primaryKey := negb (c_pk c =? 0);
     cd_autoIncrement := negb (c_pk c =? 0) && includes (toUpperCase (c_type c)) "INT";
     cd_defaultValue := normalizeDefaultValue (c_dflt_value c) |}.

(** [attrs], in column order. *)
Definition attrsOf (columns : list ColumnInfo) : list (string * ColDef) :=
  map (fun c => (c_name c, colDefOf c)) columns.

(** ** The destination database and the effects of the script *)

(** What a [throw] carries: an error of the destination, or a [TypeError]
    of the JavaScript run time. *)
Inductive JsError (E : Type) :=
| DbError (e : E)
| TypeError.
Arguments DbError {E} e.
Arguments TypeError {E}.

(** The destination: every operation either throws and leaves the
    database as it was, or succeeds with a new database state.  The first
    argument is the schema, the second one the table. *)
Class Destination (Pg E : Type) := {
  pg_createSchema : string -> Pg -> E + Pg;
  pg_sync : string -> string -> list (string * ColDef) -> Pg -> E + Pg;
  pg_describeTable : string -> string -> Pg -> E + gmap string string;
  pg_addIndex : string -> string -> list string -> string -> Pg -> E + Pg;
  pg_bulkInsert : string -> string -> list Row -> Pg -> E + Pg;
  pg_addConstraint : string -> string -> ConstraintSpec -> Pg -> E + Pg
}.

(** The calls the script makes, in the order in which it makes them,
    together with its two accesses to [tableMeta]. *)
Inductive Event :=
| ECreateSchema (schema : string)
| ESync (table : string)
| EDescribe (table : string)
| EMetaSet (table : string) (typesByCol : TypesByCol)
| EAddIndex (table index : string)
| ECount (table : string)
| EMetaGet (table : string) (found : bool)
| EFetch (table : string) (offset : nat)
| EBulkInsert (table : string) (rows : list Row) (ok : bool)
| EAddConstraint (table : string) (spec : ConstraintSpec).

(** The state the script threads: the destination and [tableMeta]. *)
Record St (Pg : Type) := {
  pg : Pg;
  tableMeta : gmap string TypesByCol
}.
Arguments pg {Pg} _.
Arguments tableMeta {Pg} _.

(** How a computation ends.  [OutOfFuel] stands for a [while] loop that
    was cut off by the bound on its iterations. *)
Inductive Outcome (E A : Type) :=
| Returned (a : A)
| Threw (e : JsError E)
| OutOfFuel.
Arguments Returned {E A} a.
Arguments Threw {E A} e.
Arguments OutOfFuel {E A}.

Record Result (Pg E A : Type) := {
  events : list Event;
  final : St Pg;
  outcome : Outcome E A
}.
Arguments events {Pg E A} _.
Arguments final {Pg E A} _.
Arguments outcome {Pg E A} _.

Definition Exec (Pg E A : Type) : Type := St Pg -> Result Pg E A.

Section Effects.
Context {Pg E : Type}.

Definition ret {A} (a : A) : Exec Pg E A :=
  fun s => {| events := []; final := s; outcome := Returned a |}.

Definition throw {A} (e : JsError E) : Exec Pg E A :=
  fun s => {| events := []; final := s; outcome := Threw e |}.

Definition outOfFuel {A} : Exec Pg E A :=
  fun s => {| events := []; final := s; outcome := OutOfFuel |}.

Definition emit (ev : Event) : Exec Pg E unit :=
  fun s => {| events := [ev]; final := s; outcome := Returned tt |}.

Definition bind {A B} (m : Exec Pg E A) (k : A -> Exec Pg E B) : Exec Pg E B :=
  fun s =>
    let r := m s in
    match outcome r with
    | Returned a =>
        let r' := k a (final r) in
        {| events := events r ++ events r'; final := final r'; outcome := outcome r' |}
    | Threw e => {| events := events r; final := final r; outcome := Threw e |}
    | OutOfFuel => {| events := events r; final := final r; outcome := OutOfFuel |}
    end.

(** [try { m } catch (e) { handler(e) }] *)
Definition tryCatch {A} (m : Exec Pg E A) (handler : JsError E -> Exec Pg E A) : Exec Pg E A :=
  fun s =>
    let r := m s in
    match outcome r with
    | Threw e =>
        let r' := handler e (final r) in
        {| events := events r ++ events r'; final := final r'; outcome := outcome r' |}
    | _ => r
    end.

Definition getMeta (name : string) : Exec Pg E (option TypesByCol) :=
  fun s => {| events := []; final := s; outcome := Returned (tableMeta s !! name) |}.

(** [tableMeta.set(name, { typesByCol })] *)
Definition setMeta (name : string) (typesByCol : TypesByCol) : Exec Pg E unit :=
  fun s => {| events := [EMetaSet name typesByCol];
              final := {| pg := pg s; tableMeta := <[name := typesByCol]> (tableMeta s) |};
              outcome := Returned tt |}.

(** An awaited call that changes the destination. *)
Definition dbCall (op : Pg -> E + Pg) : Exec Pg E unit :=
  fun s =>
    match op (pg s) with
    | inr pg' => {| events := [];
                    final := {| pg := pg'; tableMeta := tableMeta s |};
                    outcome := Returned tt |}
    | inl e => {| events := []; final := s; outcome := Threw (DbError e) |}
    end.

(** An awaited call that reads from the destination. *)
Definition dbQuery {A} (op : Pg -> E + A) : Exec Pg E A :=
  fun s =>
    match op (pg s) with
    | inr a => {| events := []; final := s; outcome := Returned a |}
    | inl e => {| events := []; final := s; outcome := Threw (DbError e) |}
    end.

(** [for (const x of l) { await body(x) }] *)
Fixpoint forEach {A} (body : A -> Exec Pg E unit) (l : list A) : Exec Pg E unit :=
  match l with
  | [] => ret tt
  | x :: rest => bind (body x) (fun _ => forEach body rest)
  end.

End Effects.

Notation "x <- m ;; k" := (bind m (fun x => k))
  (at level 100, m at next level, right associativity).
Notation "m ;; k" := (bind m (fun _ => k))
  (at level 100, right associativity).

(** ** Foreign keys: grouping and the constraint that is requested *)

(** [byId.get(id).push(fk)], creating the entry at the end of the map the
    first time [id] is seen. *)
Fixpoint groupPush (fk : FkRow) (byId : list (Z * list FkRow)) : list (Z * list FkRow) :=
  match byId with
  | [] => [(fk_id fk, [fk])]
  | (id, parts) :: rest =>
      if id =? fk_id fk then (id, (parts ++ [fk])%list) :: rest
      else (id, parts) :: groupPush fk rest
  end.

Definition groupById (fks : list FkRow) : list (Z * list FkRow) :=
  foldl (fun byId fk => groupPush fk byId) [] fks.

(** [(action || 'NO ACTION').replace('RESTRICT', 'NO ACTION')] *)
Definition fkAction (action : option string) : string :=
  replaceFirst "RESTRICT" "NO ACTION"
    match action with
    | Some a => if isEmpty a then "NO ACTION" else a
    | None => "NO ACTION"
    end.

(** The decimal form of an integer, as a template literal prints it. *)
Definition intToString (z : Z) : string :=
  DecimalString.NilZero.string_of_int (Z.to_int z).

Definition fkConstraint (table : string) (id : Z) (p0 : FkRow) (parts : list FkRow) : ConstraintSpec :=
  {| cs_fields := map fk_from parts;
     cs_name := table ++ "_fk_" ++ intToString id;
     cs_ref_table := fk_table p0;
     cs_ref_fields := map fk_to parts;
     cs_onUpdate := fkAction (fk_on_update p0);
     cs_onDelete := fkAction (fk_on_delete p0);
     cs_deferrable := INITIALLY_DEFERRED |}.

(** ** The three phases and the main control flow *)

Definition isInternalSqliteTable (name : string) : bool :=
  startsWith name "sqlite_".

Definition inList (name : string) (l : list string) : bool :=
  existsb (String.eqb name) l.

Definition wantsTable (cfg : Config) (name : string) : bool :=
  if negb (Nat.eqb (length (INCLUDE_TABLES cfg)) 0) && negb (inList name (INCLUDE_TABLES cfg))
  then false
  else if inList name (EXCLUDE_TABLES cfg) then false
  else true.

Section Pipeline.
Context {Pg E : Type} `{!Destination Pg E} `{!JsEngine}.
Variable cfg : Config.
Variable src : Source.

Definition ensurePgSchema (schema : string) : Exec Pg E unit :=
  emit (ECreateSchema schema) ;; dbCall (pg_createSchema schema).

Definition createPgTableFromSqlite (table : string) : Exec Pg E unit :=
  let columns := src_columns src table in
  let attrs := attrsOf columns in
  emit (ESync table) ;;
  dbCall (pg_sync (PG_SCHEMA cfg) table attrs) ;;
  emit (EDescribe table) ;;
  desc <- dbQuery (pg_describeTable (PG_SCHEMA cfg) table) ;;
  setMeta table (classifyPgType <$> desc) ;;
  forEach
    (fun idx =>
       if idx_unique idx then
         emit (EAddIndex table (idx_name idx)) ;;
         dbCall (pg_addIndex (PG_SCHEMA cfg) table (idx_columns idx) (idx_name idx))
       else ret tt)
    (src_indexes src table).

(** [await qPg.bulkInsert({ tableName, schema }, rows, {})] *)
Definition bulkInsert (table : string) (rows : list Row) : Exec Pg E unit :=
  fun s =>
    match pg_bulkInsert (PG_SCHEMA cfg) table rows (pg s) with
    | inr pg' => {| events := [EBulkInsert table rows true];
                    final := {| pg := pg'; tableMeta := tableMeta s |};
                    outcome := Returned tt |}
    | inl e => {| events := [EBulkInsert table rows false];
                  final := s;
                  outcome := Threw (DbError e) |}
    end.

(** The row-by-row loop of the fallback (lines 316-330). *)
Definition insertRowByRow (table : string) (coerced : list Row) : Exec Pg E unit :=
  forEach
    (fun row => tryCatch (bulkInsert table [row]) (fun rowErr => throw rowErr))
    coerced.

(** The [try]/[catch] around the bulk insert of a page (lines 311-333). *)
Definition insertPage (table : string) (coerced : list Row) : Exec Pg E unit :=
  tryCatch (bulkInsert table coerced)
    (fun e =>
       (if DEBUG_ON_ERROR cfg then insertRowByRow table coerced else ret tt) ;;
       throw e).

(** [SELECT * FROM table LIMIT BATCH_SIZE OFFSET offset] *)
Definition fetchPage (table : string) (offset : nat) : list Row :=
  take (BATCH_SIZE cfg) (drop offset (src_rows src table)).

(** The [while (offset < total)] loop, cut off after [fuel] iterations. *)
Fixpoint copyLoop (table : string) (total : nat) (typesByCol : TypesByCol)
    (fuel offset : nat) : Exec Pg E unit :=
  if (total <=? offset)%nat then ret tt
  else
    match fuel with
    | O => outOfFuel
    | S fuel' =>
        emit (EFetch table offset) ;;
        let rows := fetchPage table offset in
        let coerced := coercePage (TREAT_EMPTY_STRING_AS_NULL cfg) typesByCol rows in
        insertPage table coerced ;;
        copyLoop table total typesByCol fuel' (offset + length rows)%nat
    end.

Definition copyTableData (fuel : nat) (table : string) : Exec Pg E unit :=
  emit (ECount table) ;;
  let total := length (src_rows src table) in
  if (total =? 0)%nat then ret tt
  else
    found <- getMeta table ;;
    emit (EMetaGet table (bool_decide (is_Some found))) ;;
    let typesByCol := default ∅ found in
    copyLoop table total typesByCol fuel 0.

Definition addForeignKeysForTable (table : string) : Exec Pg E unit :=
  let fks := src_foreign_keys src table in
  if (length fks =? 0)%nat then ret tt
  else
    forEach
      (fun '(id, parts) =>
         match parts with
         | p0 :: _ =>
             let spec := fkConstraint table id p0 parts in
             emit (EAddConstraint table spec) ;;
             dbCall (pg_addConstraint (PG_SCHEMA cfg) table spec)
         | [] => throw TypeError
         end)
      (groupById fks).

Definition selectedTables : list string :=
  List.filter (fun t => negb (isInternalSqliteTable t) && wantsTable cfg t) (src_tables src).

Definition main (fuel : nat) : Exec Pg E unit :=
  ensurePgSchema (PG_SCHEMA cfg) ;;
  let tables := selectedTables in
  if (length tables =? 0)%nat then ret tt
  else
    forEach createPgTableFromSqlite tables ;;
    forEach (copyTableData fuel) tables ;;
    if ADD_FOREIGN_KEYS cfg then forEach addForeignKeysForTable tables
    else ret tt.

End Pipeline.

(** ** A small engine and a small destination, to run the script

    The theorems below hold for every engine and every destination.  The
    instances of this module make the definitions executable on examples. *)

Module Demo.

(** *** Engine *)

Definition isLeap (y : Z) : bool :=
  (y mod 4 =? 0) && (negb (y mod 100 =? 0) || (y mod 400 =? 0)).

Definition daysInMonth (y m : Z) : Z :=
  if (m =? 4) || (m =? 6) || (m =? 9) || (m =? 11) then 30
  else if m =? 2 then (if isLeap y then 29 else 28)
  else if (1 <=? m) && (m <=? 12) then 31
  else 0.

(** Days from 1970-01-01 to a date of the proleptic Gregorian calendar. *)
Definition daysFromCivil (y m d : Z) : Z :=
  let y' := if m <=? 2 then y - 1 else y in
  let era := y' / 400 in
  let yoe := y' - era * 400 in
  let doy := (153 * (if 2 <? m then m - 3 else m + 9) + 2) / 5 + d - 1 in
  let doe := yoe * 365 + yoe / 4 - yoe / 100 + doy in
  era * 146097 + doe - 719468.

(** This engine parses the date-only form [YYYY-MM-DD] (midnight UTC)
    and rejects every other string. *)
Definition parseIsoDate (s : string) : float :=
  match s with
  | String y1 (String y2 (String y3 (String y4 (String h1
      (String m1 (String m2 (String h2 (String d1 (String d2 EmptyString))))))))) =>
      let ys := String y1 (String y2 (String y3 (String y4 EmptyString))) in
      let ms := String m1 (String m2 EmptyString) in
      let ds := String d1 (String d2 EmptyString) in
      if allDigits ys && allDigits ms && allDigits ds
         && Ascii.eqb h1 "-"%char && Ascii.eqb h2 "-"%char then
        let y := digitsValue ys in
        let m := digitsValue ms in
        let d := digitsValue ds in
        if (1 <=? d) && (d <=? daysInMonth y m)
        then ofZ (daysFromCivil y m d * 86400000)
        else NaN
      else NaN
  | _ => NaN
  end.

Fixpoint zeros (n : nat) : string :=
  match n with O => EmptyString | S n' => String "0"%char (zeros n') end.

(** Removes the zeros at the end of a fraction. *)
Fixpoint stripZeros (s : string) : string :=
  match s with
  | EmptyString => EmptyString
  | String c r =>
      match stripZeros r with
      | EmptyString => if Ascii.eqb c "0"%char then EmptyString else String c EmptyString
      | r' => String c r'
      end
  end.

(** The exact decimal expansion of [m * 2^e].  It is the form JavaScript
    prints for the integers below 1e21 and for the fractions whose
    shortest decimal form is exact, such as 0.5 or 42.75. *)
Definition printMagnitude (m : positive) (e : Z) : string :=
  if 0 <=? e then intToString (Zpos m * 2 ^ e)
  else
    let k := - e in
    let n := Zpos m * 5 ^ k in
    let fp := n mod 10 ^ k in
    if fp =? 0 then intToString (n / 10 ^ k)
    else
      let f := intToString fp in
      (intToString (n / 10 ^ k) ++ "." ++
         stripZeros (zeros (Z.to_nat k - String.length f) ++ f))%string.

Definition printNumber (x : float) : string :=
  match x with
  | S754_nan => "NaN"
  | S754_infinity s => if s then "-Infinity" else "Infinity"
  | S754_zero _ => "0"
  | S754_finite s m e => ((if s then "-" else "") ++ printMagnitude m e)%string
  end.

(** The time value in brackets stands for the calendar form that a real
    engine prints. *)
Definition printDate (t : float) : string :=
  if isNaN t then "Invalid Date" else ("[Date " ++ printNumber t ++ "]")%string.

#[export] Instance engine : JsEngine :=
  {| dateParse := parseIsoDate;
     numberToString := printNumber;
     dateToString := printDate |}.

(** *** Destination *)

(** An error carries the table and the rows of the statement that failed,
    as the errors of the driver carry the statement and its parameters. *)
Inductive PgError :=
| UndefinedTable (table : string)
| NotNullViolation (table column : string) (statement : list Row).

(** A table of the destination: its columns and its rows. *)
Record PgTable := {
  t_columns : list (string * ColDef);
  t_rows : list Row
}.

Abbreviation PgDb := (gmap string PgTable).

(** The type name that [describeTable] reports for a column. *)
Definition pgTypeName (t : DataType) : string :=
  match t with
  | INTEGER => "INTEGER"
  | STRING _ => "CHARACTER VARYING"
  | TEXT => "TEXT"
  | BLOB => "BYTEA"
  | DOUBLE => "DOUBLE PRECISION"
  | DECIMAL | DECIMAL_PS _ _ => "NUMERIC"
  | DATE => "TIMESTAMP WITH TIME ZONE"
  | BOOLEAN => "BOOLEAN"
  | UUID => "UUID"
  end.

(** The first column that is declared [NOT NULL] and for which the row
    has no value. *)
Definition missingColumn (columns : list (string * ColDef)) (row : Row) : option string :=
  option_map fst
    (List.find (fun '(col, def) => negb (cd_allowNull def) && Js.isNullish (getProp row col))
               columns).

Fixpoint firstViolation (columns : list (string * ColDef)) (rows : list Row) : option string :=
  match rows with
  | [] => None
  | row :: rest =>
      match missingColumn columns row with
      | Some col => Some col
      | None => firstViolation columns rest
      end
  end.

Definition insertRows (table : string) (rows : list Row) (db : PgDb) : PgError + PgDb :=
  match db !! table with
  | None => inl (UndefinedTable table)
  | Some t =>
      match firstViolation (t_columns t) rows with
      | Some col => inl (NotNullViolation table col rows)
      | None => inr (<[table := {| t_columns := t_columns t; t_rows := (t_rows t ++ rows)%list |}]> db)
      end
  end.

Definition describe (table : string) (db : PgDb) : PgError + gmap string string :=
  match db !! table with
  | None => inl (UndefinedTable table)
  | Some t => inr (list_to_map (map (fun '(col, def) => (col, pgTypeName (cd_type def))) (t_columns t)))
  end.

(** Sequelize gives a model that declares no primary key an [id] column:
    an auto-incremented integer primary key. *)
Definition withDefaultId (attrs : list (string * ColDef)) : list (string * ColDef) :=
  if existsb (fun '(_, def) => cd_primaryKey def) attrs then attrs
  else ("id", {| cd_type := INTEGER; cd_allowNull := false; cd_primaryKey := true;
                 cd_autoIncrement := true; cd_defaultValue := None |}) :: attrs.

(** A destination that enforces [NOT NULL] and nothing else. *)
#[export] Instance destination : Destination PgDb PgError :=
  {| pg_createSchema := fun _ db => inr db;
     pg_sync := fun _ table attrs db =>
       inr (<[table := {| t_columns := withDefaultId attrs; t_rows := [] |}]> db);
     pg_describeTable := fun _ table db => describe table db;
     pg_addIndex := fun _ table _ _ db =>
       match db !! table with None => inl (UndefinedTable table) | Some _ => inr db end;
     pg_bulkInsert := fun _ table rows db => insertRows table rows db;
     pg_addConstraint := fun _ table _ db =>
       match db !! table with None => inl (UndefinedTable table) | Some _ => inr db end |}.

(** *** A source: the table of the end-to-end scenario *)

Definition config : Config :=
  {| PG_SCHEMA := "public";
     INCLUDE_TABLES := [];
     EXCLUDE_TABLES := [];
     BATCH_SIZE := 5000;
     ADD_FOREIGN_KEYS := false;
     TREAT_EMPTY_STRING_AS_NULL := true;
     DEBUG_ON_ERROR := false |}.

Definition debugConfig : Config :=
  {| PG_SCHEMA := "public";
     INCLUDE_TABLES := [];
     EXCLUDE_TABLES := [];
     BATCH_SIZE := 5000;
     ADD_FOREIGN_KEYS := false;
     TREAT_EMPTY_STRING_AS_NULL := true;
     DEBUG_ON_ERROR := true |}.

Definition column (name type : string) (notnull pk : Z) : ColumnInfo :=
  {| c_name := name; c_type := type; c_notnull := notnull;
     c_dflt_value := None; c_pk := pk |}.

Definition usersColumns : list ColumnInfo :=
  [ column "id" "INTEGER" 1 1; column "name" "TEXT" 0 0;
    column "active" "BOOLEAN" 0 0; column "created" "DATETIME" 0 0 ].

Definition alice : Row :=
  {[ "id" := VNum (ofZ 1); "name" := VStr "Alice";
     "active" := VNum (ofZ 1); "created" := VNum (ofZ 1700000000) ]}.

Definition blank : Row :=
  {[ "id" := VNum (ofZ 2); "name" := VStr "";
     "active" := VNum (ofZ 0); "created" := VStr "" ]}.

(** A row whose primary key is [NULL]. *)
Definition orphan : Row :=
  {[ "id" := VNull; "name" := VStr "Bob";
     "active" := VNum (ofZ 1); "created" := VNull ]}.

Definition sourceWith (rows : list Row) : Source :=
  {| src_tables := ["users"];
     src_columns := fun t => if String.eqb t "users" then usersColumns else [];
     src_foreign_keys := fun _ => [];
     src_indexes := fun _ => [];
     src_rows := fun t => if String.eqb t "users" then rows else [] |}.

(** Two foreign keys of [users]: a composite one with [ON DELETE RESTRICT]
    and a simple one with [ON DELETE CASCADE]. *)
Definition usersForeignKeys : list FkRow :=
  [ {| fk_id := 0; fk_table := "teams"; fk_from := "team_id"; fk_to := Some "id";
       fk_on_update := Some "NO ACTION"; fk_on_delete := Some "RESTRICT" |};
    {| fk_id := 0; fk_table := "teams"; fk_from := "team_region"; fk_to := Some "region";
       fk_on_update := Some "NO ACTION"; fk_on_delete := Some "RESTRICT" |};
    {| fk_id := 1; fk_table := "users"; fk_from := "manager"; fk_to := Some "id";
       fk_on_update := Some "RESTRICT"; fk_on_delete := Some "CASCADE" |} ].

Definition linkedSource : Source :=
  {| src_tables := ["users"];
     src_columns := fun t => if String.eqb t "users" then usersColumns else [];
     src_foreign_keys := fun t => if String.eqb t "users" then usersForeignKeys else [];
     src_indexes := fun _ => [];
     src_rows := fun _ => [] |}.

(** A table without a primary key, and its only row. *)
Definition note : Row := {[ "title" := VStr "todo"; "body" := VStr "  42.50 " ]}.

Definition notesSource : Source :=
  {| src_tables := ["notes"];
     src_columns := fun t =>
       if String.eqb t "notes" then [column "title" "TEXT" 0 0; column "body" "NUMERIC" 0 0]
       else [];
     src_foreign_keys := fun _ => [];
     src_indexes := fun _ => [];
     src_rows := fun t => if String.eqb t "notes" then [note] else [] |}.

Definition emptyState : St PgDb := {| pg := ∅; tableMeta := ∅ |}.

(** The state after the table [users] was created and classified. *)
Definition createdState : St PgDb :=
  final (createPgTableFromSqlite config (sourceWith []) "users" emptyState).

(** The classification of [users] in that state, and the page made of the
    sanitized rows [alice] and [orphan]. *)
Definition usersTypes : TypesByCol :=
  default ∅ (tableMeta createdState !! "users").

Definition mixedPage : list Row :=
  coercePage true usersTypes [alice; orphan].

(** The same destination, with nothing recorded in [tableMeta]. *)
Definition unclassifiedState : St PgDb :=
  {| pg := pg createdState; tableMeta := ∅ |}.

End Demo.

(** ** Predicates used in the statements *)

Fixpoint allChars (p : ascii -> bool) (s : string) : bool :=
  match s with
  | EmptyString => true
  | String c r => p c && allChars p r
  end.

(** The characters that the decimal pattern can match. *)
Definition isDecimalChar (c : ascii) : bool :=
  isDigit c || Ascii.eqb c "."%char || isExpMark c
  || Ascii.eqb c "+"%char || Ascii.eqb c "-"%char.

(** A string that is empty after trimming. *)
Definition isBlank (s : string) : bool := isEmpty (trim s).

(** A string of ASCII characters: every character code is below 128.  On
    these strings the case mapping and the white space of the model are
    those of JavaScript; outside them JavaScript knows more white space
    (U+00A0, U+FEFF and others) and more case pairs (U+0131 and U+017F
    have ASCII upper-case forms, U+212A has an ASCII lower-case form). *)
Definition isAsciiChar (c : ascii) : bool := (code c <? 128)%N.

Definition isAsciiStr (s : string) : bool := allChars isAsciiChar s.

(** *** The empty-string policy and the per-class logic, side by side

    [emptyStringPolicy] follows the words of the specification: a flag
    controls whether a string that is empty after trimming is converted to
    null before the per-class logic runs; with the flag off nothing is
    converted.  The per-class logic of a class is the body of its
    sanitizer after the call of [emptyStringToNull] (lines 146-152,
    157-163, 168-174 and 179-187 of the script).  The date sanitizer has no
    such call: its per-class logic is all of [toJsDate]. *)
Definition emptyStringPolicy (flag : bool) (v : JsValue) : JsValue :=
  match v with
  | VStr s => if flag && isBlank s then VNull else v
  | _ => v
  end.

Definition booleanLogic `{JsEngine} (val : JsValue) : JsValue :=
  if isNullish val then VNull
  else match val with
       | VBool _ => val
       | VNum n => VBool (negb (strictEq n zero))
       | _ =>
           let s := toLowerCase (trim (toStr val)) in
           if String.eqb s "true" || String.eqb s "t" || String.eqb s "yes"
              || String.eqb s "y" || String.eqb s "1" then VBool true
           else if String.eqb s "false" || String.eqb s "f" || String.eqb s "no"
                   || String.eqb s "n" || String.eqb s "0" then VBool false
           else VNull
       end.

Definition intLogic (val : JsValue) : JsValue :=
  if isNullish val then VNull
  else match val with
       | VStr s =>
           let n := stringToNumber s in
           if isFinite n then VNum (trunc n) else VNull
       | VNum n => if isFinite n then VNum (trunc n) else VNull
       | _ => VNull
       end.

Definition floatLogic (val : JsValue) : JsValue :=
  if isNullish val then VNull
  else match val with
       | VStr s =>
           let n := stringToNumber s in
           if isFinite n then VNum n else VNull
       | VNum n => if isFinite n then VNum n else VNull
       | _ => VNull
       end.

Definition decimalLogic `{JsEngine} (val : JsValue) : JsValue :=
  if isNullish val then VNull
  else match val with
       | VStr s => if isDecimalText (trim s) then VStr (trim s) else VNull
       | VNum n => if negb (isFinite n) then VNull else VStr (numberToString n)
       | _ => VNull
       end.

Definition perClassLogic `{JsEngine} (kind : Kind) (val : JsValue) : option JsValue :=
  match kind with
  | KDate => Some (toJsDate val)
  | KBoolean => Some (booleanLogic val)
  | KInt => Some (intLogic val)
  | KFloat => Some (floatLogic val)
  | KDecimal => Some (decimalLogic val)
  | KOther => None
  end.

(** The patterns that the type mapper lists, tested on the normalized type
    string: INT, CHAR/CLOB/TEXT, BLOB, REAL/FLOA/DOUB, DEC/NUM, DATE/TIME,
    and the exact names BOOLEAN and UUID. *)
Definition matchesListedPattern (typeStr : string) : bool :=
  includes typeStr "INT"
  || (includes typeStr "CHAR" || includes typeStr "CLOB" || includes typeStr "TEXT")
  || includes typeStr "BLOB"
  || (includes typeStr "REAL" || includes typeStr "FLOA" || includes typeStr "DOUB")
  || (includes typeStr "DEC" || includes typeStr "NUM")
  || (includes typeStr "DATE" || includes typeStr "TIME")
  || String.eqb typeStr "BOOLEAN"
  || String.eqb typeStr "UUID".

(** The canonical outputs of a class: [null] for every class; a [Date] for
    date; a boolean for boolean; an integral number for int; a finite
    number for float; for decimal a string that matches the decimal
    pattern and has no white space around it. *)
Definition canonical (kind : Kind) (v : JsValue) : bool :=
  match kind, v with
  | KOther, _ => false
  | _, VNull => true
  | KDate, VDate _ => true
  | KBoolean, VBool _ => true
  | KInt, VNum n => isInteger n
  | KFloat, VNum n => isFinite n
  | KDecimal, VStr s => isDecimalText s && String.eqb (trim s) s
  | _, _ => false
  end.

(** The inputs that the guards of [toJsDate] take: [null], [undefined],
    the empty string and a [Date]. *)
Definition takenByGuard (v : JsValue) : bool :=
  match v with
  | VUndefined | VNull | VDate _ => true
  | VStr s => isEmpty s
  | _ => false
  end.

(** The inputs that the epoch rules name: the number 0, a number from 1e9
    upwards, and a string of digits. *)
Definition takenByEpochRule (v : JsValue) : bool :=
  match v with
  | VNum n => strictEq n zero || ge n (ofZ 1000000000)
  | VStr s => isAllDigitsStr s
  | _ => false
  end.

(** The event of a single-row insert of the fallback. *)
Definition rowInsert (table : string) (ok : bool) (row : Row) : Event :=
  EBulkInsert table [row] ok.

(** The events of the three phases of [main]. *)
Definition isDdlEvent (ev : Event) : bool :=
  match ev with
  | ESync _ | EDescribe _ | EMetaSet _ _ | EAddIndex _ _ => true
  | _ => false
  end.

Definition isCopyEvent (ev : Event) : bool :=
  match ev with
  | ECount _ | EMetaGet _ _ | EFetch _ _ | EBulkInsert _ _ _ => true
  | _ => false
  end.

Definition isFkEvent (ev : Event) : bool :=
  match ev with
  | EAddConstraint _ _ => true
  | _ => false
  end.

(** An event that is not a rejected insert. *)
Definition insertOk (ev : Event) : bool :=
  match ev with
  | EBulkInsert _ _ ok => ok
  | _ => true
  end.

(** The rows that the destination accepted, in the order of the inserts. *)
Definition insertedRows (evs : list Event) : list Row :=
  flat_map (fun ev => match ev with
                      | EBulkInsert _ rows true => rows
                      | _ => []
                      end) evs.

(** An event of the copy loop of a table: a page fetch, or an insert into
    the table of rows that are sanitized copies of rows of the source. *)
Definition loopEvent `{JsEngine} (cfg : Config) (src : Source) (table : string)
    (typesByCol : TypesByCol) (ev : Event) : Prop :=
  (exists offset, ev = EFetch table offset)
  \/ exists rows ok,
       ev = EBulkInsert table rows ok
       /\ Forall (fun row => row ∈ coercePage (TREAT_EMPTY_STRING_AS_NULL cfg) typesByCol
                                              (src_rows src table))
                 rows.

(** [byId] groups the rows [seen]: every group is non-empty and made of
    seen rows with the id of the group, and every seen row is in the group
    of its id. *)
Definition groupedFrom (byId : list (Z * list FkRow)) (seen : list FkRow) : Prop :=
  (forall id parts, (id, parts) ∈ byId ->
     parts <> [] /\ forall p, p ∈ parts -> p ∈ seen /\ fk_id p = id)
  /\ (forall fk, fk ∈ seen -> exists parts, (fk_id fk, parts) ∈ byId /\ fk ∈ parts).

(** ** Identifiers in the queries of the source *)

(** The global replacement of [quoteIdent]: every double quote of the name
    is doubled. *)
Fixpoint doubleQuotes (name : string) : string :=
  match name with
  | EmptyString => EmptyString
  | String c r =>
      if Ascii.eqb c doubleQuote
      then String doubleQuote (String doubleQuote (doubleQuotes r))
      else String c (doubleQuotes r)
  end.

(** [quoteIdent]: the name between double quotes, its own quotes doubled. *)
Definition quoteIdent (name : string) : string :=
  String doubleQuote (doubleQuotes name ++ String doubleQuote EmptyString).

(** How SQL reads the inside of a quoted identifier: a pair of double
    quotes stands for one, and a single double quote ends the identifier,
    which must then be the end of the text. *)
Fixpoint readQuoted (s : string) : option string :=
  match s with
  | EmptyString => None
  | String c r =>
      if Ascii.eqb c doubleQuote then
        match r with
        | EmptyString => Some EmptyString
        | String c2 r2 =>
            if Ascii.eqb c2 doubleQuote
            then option_map (String doubleQuote) (readQuoted r2)
            else None
        end
      else option_map (String c) (readQuoted r)
  end.

(** The name that a quoted identifier denotes. *)
Definition readIdent (s : string) : option string :=
  match s with
  | String c r => if Ascii.eqb c doubleQuote then readQuoted r else None
  | EmptyString => None
  end.

(** ** The groups of foreign-key rows, described *)

(** The ids of the rows, each once, in the order of their first row. *)
Definition firstIds (fks : list FkRow) : list Z :=
  foldl (fun ids fk => if existsb (Z.eqb (fk_id fk)) ids then ids
                       else (ids ++ [fk_id fk])%list)
        [] fks.

(** The rows of an id, in the order of the source. *)
Definition rowsOfId (fks : list FkRow) (id : Z) : list FkRow :=
  List.filter (fun fk => fk_id fk =? id) fks.

(** The rows of a table of the source as the copier sends them: sanitized
    by the classification that a state holds for the table, or as they are
    when the state holds none. *)
Definition sanitizedRows `{JsEngine} {Pg : Type} (cfg : Config) (src : Source)
    (s : St Pg) (table : string) : list Row :=
  coercePage (TREAT_EMPTY_STRING_AS_NULL cfg) (default ∅ (tableMeta s !! table))
             (src_rows src table).

(** The constraints of a table: one for every id, built from the rows of
    the id, the first of which gives the referenced table and the actions. *)
Definition constraintsOf (table : string) (fks : list FkRow) : list ConstraintSpec :=
  flat_map (fun id => match rowsOfId fks id with
                      | p0 :: _ => [fkConstraint table id p0 (rowsOfId fks id)]
                      | [] => []
                      end)
           (firstIds fks).

(** An insert of at most [n] rows, or of the single row of the fallback
    when [debug] is on; any other event passes. *)
Definition batchWithin (n : nat) (debug : bool) (ev : Event) : bool :=
  match ev with
  | EBulkInsert _ rows _ => (length rows <=? n)%nat || (debug && (length rows =? 1)%nat)
  | _ => true
  end.

(** An [EAddIndex] event. *)
Definition isIndexEvent (ev : Event) : bool :=
  match ev with
  | EAddIndex _ _ => true
  | _ => false
  end.

(* ================================================================== *)
(** * Part II: theorems *)
(* ================================================================== *)

(** ** Strings *)

Lemma allChars_app p s t :
  allChars p (s ++ t)%string = allChars p s && allChars p t.
Proof.
  induction s as [|c s IH]; simpl; [reflexivity|].
  rewrite IH. apply andb_assoc.
Qed.

Lemma allChars_weaken (p q : ascii -> bool) s :
  (forall c, p c = true -> q c = true) ->
  allChars p s = true -> allChars q s = true.
Proof.
  intros Hpq. induction s as [|c s IH]; simpl; [reflexivity|].
  intros [Hc Hs]%andb_prop. rewrite (Hpq _ Hc), (IH Hs). reflexivity.
Qed.

Lemma allDigits_allChars s : allDigits s = allChars isDigit s.
Proof. induction s as [|c s IH]; simpl; congruence. Qed.

Lemma spanDigits_spec s d r :
  spanDigits s = (d, r) -> s = (d ++ r)%string /\ allChars isDigit d = true.
Proof.
  revert d r. induction s as [|c s IH]; simpl; intros d r H.
  - inversion H; subst. split; reflexivity.
  - destruct (isDigit c) eqn:Hc.
    + destruct (spanDigits s) as [d' r'] eqn:Hs. inversion H; subst.
      destruct (IH _ _ eq_refl) as [-> Hd]. simpl. rewrite Hc, Hd. split; reflexivity.
    + inversion H; subst. split; reflexivity.
Qed.

Lemma trimStart_head c r :
  isWhiteSpace c = false -> trimStart (String c r) = String c r.
Proof. intros H. simpl. rewrite H. reflexivity. Qed.

Lemma trimEnd_noSpace s :
  allChars (fun c => negb (isWhiteSpace c)) s = true -> trimEnd s = s.
Proof.
  induction s as [|c s IH]; simpl; [reflexivity|].
  intros [Hc Hs]%andb_prop. rewrite (IH Hs).
  apply negb_true_iff in Hc. rewrite Hc. destruct s; reflexivity.
Qed.

Lemma trim_noSpace s :
  allChars (fun c => negb (isWhiteSpace c)) s = true -> trim s = s.
Proof.
  intros H. unfold trim.
  destruct s as [|c r]; [reflexivity|].
  pose proof H as H'. simpl in H'. apply andb_prop in H' as [Hc _].
  apply negb_true_iff in Hc. rewrite (trimStart_head _ _ Hc).
  apply trimEnd_noSpace, H.
Qed.

Lemma trimEnd_head_nonempty c r :
  isWhiteSpace c = false -> isEmpty (trimEnd (String c r)) = false.
Proof. intros H. simpl. rewrite H. destruct (trimEnd r); reflexivity. Qed.

(** A blank string is empty or starts with a white space. *)
Lemma isBlank_head c r : isBlank (String c r) = true -> isWhiteSpace c = true.
Proof.
  unfold isBlank, trim. intros H.
  destruct (isWhiteSpace c) eqn:Hc; [reflexivity|].
  rewrite (trimStart_head _ _ Hc), (trimEnd_head_nonempty _ _ Hc) in H. discriminate.
Qed.

Lemma isWhiteSpace_not_digit c : isWhiteSpace c = true -> isDigit c = false.
Proof.
  unfold isWhiteSpace, isDigit. intros H.
  destruct (48 <=? code c)%N eqn:H1; [|reflexivity].
  destruct (code c <=? 57)%N eqn:H2; [|reflexivity].
  apply N.leb_le in H1.
  apply orb_prop in H as [H|H].
  - apply andb_prop in H as [_ H]. apply N.leb_le in H. lia.
  - apply N.eqb_eq in H. lia.
Qed.

Lemma isBlank_not_digits s : isBlank s = true -> isAllDigitsStr s = false.
Proof.
  destruct s as [|c r]; [reflexivity|].
  intros H%isBlank_head%isWhiteSpace_not_digit.
  unfold isAllDigitsStr. simpl. rewrite H. reflexivity.
Qed.

Lemma isDecimalChar_not_space c : isDecimalChar c = true -> negb (isWhiteSpace c) = true.
Proof.
  intros H. destruct (isWhiteSpace c) eqn:Hw; [|reflexivity].
  exfalso. unfold isDecimalChar in H.
  rewrite (isWhiteSpace_not_digit _ Hw) in H. simpl in H.
  unfold isWhiteSpace in Hw. unfold isExpMark in H.
  assert (Hcode : (code c <= 32)%N).
  { apply orb_prop in Hw as [Hw|Hw].
    - apply andb_prop in Hw as [_ Hw]. apply N.leb_le in Hw. lia.
    - apply N.eqb_eq in Hw. lia. }
  repeat (apply orb_prop in H as [H|H]);
    apply Ascii.eqb_eq in H; subst c; vm_compute in Hcode; congruence.
Qed.

Lemma digit_decimalChar c : isDigit c = true -> isDecimalChar c = true.
Proof. intros H. unfold isDecimalChar. rewrite H. reflexivity. Qed.

Lemma stripSign_chars s b r :
  stripSign s = (b, r) -> allChars isDecimalChar r = true ->
  allChars isDecimalChar s = true.
Proof.
  unfold stripSign. destruct s as [|c s']; [intros [= <- <-]; auto|].
  destruct (Ascii.eqb_spec c "-"%char) as [->|_].
  { intros [= <- <-] H. simpl. exact H. }
  destruct (Ascii.eqb_spec c "+"%char) as [->|_].
  { intros [= <- <-] H. simpl. exact H. }
  intros [= <- <-]; auto.
Qed.

Lemma afterExponent_chars r :
  isEmpty (afterExponent r) = true -> allChars isDecimalChar r = true.
Proof.
  destruct r as [|c r']; [reflexivity|]. unfold afterExponent.
  destruct (isExpMark c) eqn:Hc; [|discriminate].
  destruct (stripSign r') as [b r1] eqn:Hs.
  destruct (spanDigits r1) as [d r2] eqn:Hd.
  destruct (isEmpty d); [discriminate|].
  intros Hr2. destruct r2; [|discriminate].
  apply spanDigits_spec in Hd as [-> Hd].
  simpl. unfold isDecimalChar at 1. rewrite Hc, !orb_true_r. simpl.
  apply (stripSign_chars _ _ _ Hs).
  rewrite allChars_app. simpl. rewrite andb_true_r.
  apply (allChars_weaken isDigit); [apply digit_decimalChar | exact Hd].
Qed.

Lemma afterFraction_chars r :
  allChars isDecimalChar (afterFraction r) = true -> allChars isDecimalChar r = true.
Proof.
  destruct r as [|c r']; [reflexivity|]. unfold afterFraction.
  destruct (Ascii.eqb_spec c "."%char) as [->|_]; [|auto].
  destruct (spanDigits r') as [f r''] eqn:Hf.
  destruct (isEmpty f); [auto|].
  apply spanDigits_spec in Hf as [-> Hf]. intros H.
  simpl. rewrite allChars_app, H, andb_true_r.
  apply (allChars_weaken isDigit); [apply digit_decimalChar | exact Hf].
Qed.

Lemma dropMinus_chars s :
  allChars isDecimalChar (dropMinus s) = true -> allChars isDecimalChar s = true.
Proof.
  destruct s as [|c s']; [reflexivity|]. unfold dropMinus.
  destruct (Ascii.eqb_spec c "-"%char) as [->|_]; [|auto].
  intros H. simpl. exact H.
Qed.

(** A string that matches the decimal pattern is made of digits, a dot,
    an exponent mark and signs only. *)
Lemma isDecimalText_chars s :
  isDecimalText s = true -> allChars isDecimalChar s = true.
Proof.
  unfold isDecimalText.
  destruct (spanDigits (dropMinus s)) as [d r1] eqn:Hd.
  intros [_ Hrest]%andb_prop.
  apply dropMinus_chars.
  apply spanDigits_spec in Hd as [-> Hd].
  rewrite allChars_app. apply andb_true_intro. split.
  - apply (allChars_weaken isDigit); [apply digit_decimalChar | exact Hd].
  - apply afterFraction_chars, afterExponent_chars, Hrest.
Qed.

(** Hence it has no white space around it: trimming leaves it as it is. *)
Lemma isDecimalText_trim s : isDecimalText s = true -> trim s = s.
Proof.
  intros H%isDecimalText_chars. apply trim_noSpace.
  apply (allChars_weaken isDecimalChar); [apply isDecimalChar_not_space | exact H].
Qed.

Lemma isDecimalText_nonempty s : isDecimalText s = true -> isEmpty s = false.
Proof. destruct s; [discriminate | reflexivity]. Qed.

(** ** Numbers *)

Lemma isInteger_isFinite x : isInteger x = true -> isFinite x = true.
Proof. destruct x; simpl; congruence. Qed.

(** [Math.trunc] leaves an integral number as it is. *)
Lemma trunc_integer x : isInteger x = true -> trunc x = x.
Proof.
  destruct x as [s|s| |s m e]; try reflexivity.
  unfold isInteger, trunc.
  destruct (0 <=? e) eqn:He; [reflexivity|]. simpl.
  intros Hm%Z.eqb_eq. apply Z.leb_gt in He.
  assert (Hk : 0 <= - e) by lia.
  assert (Hpos : 0 < 2 ^ (- e)) by (apply Z.pow_pos_nonneg; lia).
  rewrite (Z.shiftr_div_pow2 _ _ Hk), (Z.shiftl_mul_pow2 _ _ Hk).
  assert (Hm' : Z.pos m / 2 ^ (- e) * 2 ^ (- e) = Z.pos m).
  { pose proof (Z.div_mod (Z.pos m) (2 ^ (- e))) as Hdm. lia. }
  rewrite Hm'. reflexivity.
Qed.

Lemma ofZ_1e9 : ofZ 1000000000 = S754_finite false 8388608000000000 (-23).
Proof. vm_compute. reflexivity. Qed.

Lemma ofZ_1e12 : ofZ 1000000000000 = S754_finite false 8192000000000000 (-13).
Proof. vm_compute. reflexivity. Qed.

Lemma ofZ_5e12 : ofZ 5000000000000 = S754_finite false 5120000000000000 (-10).
Proof. vm_compute. reflexivity. Qed.

(** A number from 1e12 upwards is also from 1e9 upwards. *)
Lemma ge_1e12_ge_1e9 n :
  ge n (ofZ 1000000000000) = true -> ge n (ofZ 1000000000) = true.
Proof.
  rewrite ofZ_1e12, ofZ_1e9. unfold ge.
  destruct n as [s|[|]| |[|] m e]; cbn [SFcompare]; try congruence.
  destruct (Z.compare_spec e (-13)) as [->| |]; try congruence.
  - intros _. reflexivity.
  - intros _. destruct (Z.compare_spec e (-23)); try reflexivity; lia.
Qed.

(** A number below 1e12 is also below 5e12. *)
Lemma lt_1e12_lt_5e12 n :
  lt n (ofZ 1000000000000) = true -> lt n (ofZ 5000000000000) = true.
Proof.
  rewrite ofZ_1e12, ofZ_5e12. unfold lt, SFltb.
  destruct n as [s|[|]| |[|] m e]; cbn [SFcompare]; try congruence.
  destruct (Z.compare_spec e (-13)) as [->| |]; try congruence.
  - intros _. reflexivity.
  - intros _. destruct (Z.compare_spec e (-10)); try reflexivity; lia.
Qed.

Lemma lt_not_ge a b : lt a b = true -> ge a b = false.
Proof.
  unfold lt, SFltb, ge. destruct (SFcompare a b) as [[| |]|]; congruence.
Qed.

(** A number from 1e9 upwards is not zero. *)
Lemma ge_1e9_nonzero n :
  ge n (ofZ 1000000000) = true -> strictEq n zero = false.
Proof.
  rewrite ofZ_1e9. unfold ge, strictEq, SFeqb, zero.
  destruct n as [s|[|]| |[|] m e]; cbn [SFcompare]; congruence.
Qed.

(** ** Type Mapper *)

(** C3.  The type mapper is a function of the raw type string alone: it
    gives a result for every string (the empty string and malformed
    strings included), the same result whenever it is applied to the same
    string, and the result is TEXT for every string that, once trimmed and
    upper-cased as the mapper does, matches none of the listed patterns. *)
Theorem mapSqliteTypeToSequelize_total_fallback (typeStrRaw : string) :
  (exists t, mapSqliteTypeToSequelize typeStrRaw = t)
  /\ (forall s', s' = typeStrRaw ->
        mapSqliteTypeToSequelize s' = mapSqliteTypeToSequelize typeStrRaw)
  /\ (matchesListedPattern (normalizedType typeStrRaw) = false ->
        mapSqliteTypeToSequelize typeStrRaw = TEXT).
Proof.
  split; [eexists; reflexivity|]. split; [intros s' ->; reflexivity|].
  unfold matchesListedPattern, mapSqliteTypeToSequelize.
  intros H.
  repeat (apply orb_false_elim in H as [H ?]).
  repeat match goal with Hx : _ = false |- _ => rewrite Hx; clear Hx end.
  reflexivity.
Qed.

(** ** Row Sanitizer *)

Lemma emptyStringToNull_off v : emptyStringToNull false v = v.
Proof. reflexivity. Qed.

Lemma emptyStringToNull_not_string flag v :
  (forall s, v <> VStr s) -> emptyStringToNull flag v = v.
Proof.
  intros H. unfold emptyStringToNull. destruct flag; simpl; [|reflexivity].
  destruct v; try reflexivity. destruct (H s eq_refl).
Qed.

Lemma emptyStringToNull_string flag s :
  emptyStringToNull flag (VStr s) = if flag && isBlank s then VNull else VStr s.
Proof. destruct flag; reflexivity. Qed.

Lemma toDecimalStringOrNull_string `{JsEngine} flag s :
  toDecimalStringOrNull flag (VStr s)
  = if isDecimalText (trim s) then VStr (trim s) else VNull.
Proof.
  unfold toDecimalStringOrNull. rewrite emptyStringToNull_string.
  destruct (flag && isBlank s) eqn:Hb; [|reflexivity].
  apply andb_prop in Hb as [_ Hb]. unfold isBlank in Hb.
  destruct (trim s); [reflexivity | discriminate].
Qed.

(** C7, as amended.  The decimal sanitizer tests the pattern on the
    trimmed string and returns the trimmed string: a string whose trimmed
    form matches yields that trimmed form with its digits unchanged, any
    other string yields null; in particular a string that matches the
    pattern as it stands is returned as it is (so "19.990" keeps its
    trailing zero).  A finite number yields its string form, a number that
    is not finite yields null. *)
Theorem toDecimalStringOrNull_spec `{JsEngine} (flag : bool) :
  (forall s, toDecimalStringOrNull flag (VStr s)
             = if isDecimalText (trim s) then VStr (trim s) else VNull)
  /\ (forall s, isDecimalText s = true -> toDecimalStringOrNull flag (VStr s) = VStr s)
  /\ (forall n, toDecimalStringOrNull flag (VNum n)
                = if isFinite n then VStr (numberToString n) else VNull)
  /\ toDecimalStringOrNull flag (VStr "19.990") = VStr "19.990".
Proof.
  split_and!.
  - apply toDecimalStringOrNull_string.
  - intros s Hs.
    rewrite toDecimalStringOrNull_string, (isDecimalText_trim _ Hs), Hs. reflexivity.
  - intros n. unfold toDecimalStringOrNull.
    rewrite emptyStringToNull_not_string by congruence. simpl.
    destruct (isFinite n); reflexivity.
  - rewrite toDecimalStringOrNull_string. reflexivity.
Qed.

(** C7, as stated, fails: a string with white space around a decimal does
    not match the pattern, and yet it is not mapped to null. *)
Lemma toDecimalStringOrNull_padded_counterexample :
  ~ (forall s, isDecimalText s = false ->
               @toDecimalStringOrNull Demo.engine true (VStr s) = VNull).
Proof.
  intros Hclaim. specialize (Hclaim " 19.990" eq_refl).
  vm_compute in Hclaim. discriminate.
Qed.

(** C8.  Every per-class sanitizer returns a canonical output of its class
    unchanged: null for every class, a Date for date, a boolean for
    boolean, an integral number for int, a finite number for float, and
    for decimal a string that matches the pattern without surrounding
    white space. *)
Theorem sanitize_canonical `{JsEngine} (flag : bool) (kind : Kind) (v : JsValue) :
  canonical kind v = true -> sanitize flag kind v = Some v.
Proof.
  destruct kind, v; simpl; try discriminate; intros Hc;
    try (destruct flag; reflexivity).
  - (* float *)
    unfold toFloatOrNull. rewrite emptyStringToNull_not_string by congruence.
    simpl. rewrite Hc. reflexivity.
  - (* decimal *)
    apply andb_prop in Hc as [Hd _].
    rewrite toDecimalStringOrNull_string, (isDecimalText_trim _ Hd), Hd. reflexivity.
  - (* int *)
    unfold toIntOrNull. rewrite emptyStringToNull_not_string by congruence.
    simpl. rewrite (isInteger_isFinite _ Hc), (trunc_integer _ Hc). reflexivity.
Qed.

Lemma timeClip_NaN : timeClip NaN = NaN.
Proof. reflexivity. Qed.

(** The date sanitizer on a number: the epoch rules, then [new Date]. *)
Lemma toJsDate_number `{JsEngine} n :
  toJsDate (VNum n)
  = match epochRule n with Some r => r | None => genericDate (VNum n) end.
Proof. reflexivity. Qed.

(** The date sanitizer maps a blank string to null when the engine's date
    parser rejects blank strings. *)
Lemma toJsDate_blank `{JsEngine} s :
  (forall b, isBlank b = true -> dateParse b = NaN) ->
  isBlank s = true -> toJsDate (VStr s) = VNull.
Proof.
  intros Hparse Hb. destruct s as [|c r]; [reflexivity|].
  unfold toJsDate. rewrite (isBlank_not_digits _ Hb).
  unfold genericDate, newDate. rewrite (Hparse _ Hb). reflexivity.
Qed.

(** The step of the source is the policy of the specification. *)
Lemma emptyStringToNull_policy flag v :
  emptyStringToNull flag v = emptyStringPolicy flag v.
Proof.
  destruct v as [| |b|n|s|t|c]; cbn [emptyStringPolicy];
    try (rewrite emptyStringToNull_not_string by congruence; reflexivity).
  apply emptyStringToNull_string.
Qed.


(** The date parser of the small engine rejects blank strings. *)
Lemma parseIsoDate_blank b : isBlank b = true -> Demo.parseIsoDate b = NaN.
Proof.
  destruct b as [|c r]; [reflexivity|].
  intros Hd%isBlank_head%isWhiteSpace_not_digit.
  unfold Demo.parseIsoDate.
  do 9 (destruct r as [|? r]; [reflexivity|]).
  destruct r; [|reflexivity].
  cbn [allDigits]. rewrite Hd. reflexivity.
Qed.


(** C4, as amended.  The date sanitizer maps the number 0 to null; a
    number n with 1e9 <= n < 1e12 to the Date of n * 1000 milliseconds
    (1700000000 is such a number); a number n >= 1e12 to the Date of n
    milliseconds (1700000000000 is such a number); a string of digits is
    converted to a number and handled as that number; null, undefined and
    the empty string are mapped to null and a Date is returned as it is;
    every other input goes to [new Date(val)], with null when the
    resulting Date is invalid. *)
Theorem toJsDate_rules `{JsEngine} :
  (forall n, strictEq n zero = true -> toJsDate (VNum n) = VNull)
  /\ toJsDate (VNum (ofZ 0)) = VNull
  /\ (forall n, ge n (ofZ 1000000000) = true -> lt n (ofZ 1000000000000) = true ->
        toJsDate (VNum n) = VDate (timeClip (mul n (ofZ 1000))))
  /\ toJsDate (VNum (ofZ 1700000000)) = VDate (ofZ 1700000000000)
  /\ (forall n, ge n (ofZ 1000000000000) = true ->
        toJsDate (VNum n) = VDate (timeClip n))
  /\ toJsDate (VNum (ofZ 1700000000000)) = VDate (ofZ 1700000000000)
  /\ (forall s, isAllDigitsStr s = true ->
        toJsDate (VStr s) = toJsDate (VNum (stringToNumber s)))
  /\ (forall v, takenByGuard v = true ->
        toJsDate v = match v with VDate _ => v | _ => VNull end)
  /\ (forall v, takenByGuard v = false -> takenByEpochRule v = false ->
        toJsDate v = genericDate v
        /\ genericDate v = if isNaN (newDate v) then VNull else VDate (newDate v)).
Proof.
  assert (Hsec : forall n, ge n (ofZ 1000000000) = true ->
                           lt n (ofZ 1000000000000) = true ->
                           toJsDate (VNum n) = VDate (timeClip (mul n (ofZ 1000)))).
  { intros n Hge Hlt. rewrite toJsDate_number. unfold epochRule.
    rewrite (ge_1e9_nonzero _ Hge), (lt_not_ge _ _ Hlt), Hge, (lt_1e12_lt_5e12 _ Hlt).
    reflexivity. }
  assert (Hms : forall n, ge n (ofZ 1000000000000) = true ->
                          toJsDate (VNum n) = VDate (timeClip n)).
  { intros n Hge. rewrite toJsDate_number. unfold epochRule.
    rewrite (ge_1e9_nonzero _ (ge_1e12_ge_1e9 _ Hge)), Hge. reflexivity. }
  split_and!.
  - intros n Hz. rewrite toJsDate_number.
    unfold epochRule. rewrite Hz. reflexivity.
  - reflexivity.
  - exact Hsec.
  - rewrite Hsec by (vm_compute; reflexivity). vm_compute. reflexivity.
  - exact Hms.
  - rewrite Hms by (vm_compute; reflexivity). vm_compute. reflexivity.
  - intros s Hs. rewrite toJsDate_number.
    destruct s as [|c r]; [discriminate|].
    unfold toJsDate. rewrite Hs. reflexivity.
  - intros v Hv. destruct v as [| |b|n|s|t|c]; try discriminate; try reflexivity.
    destruct s; [reflexivity | discriminate].
  - intros v Hguard Hrule. split; [|reflexivity].
    destruct v as [| |b|n|s|t|c]; try discriminate; try reflexivity.
    + rewrite toJsDate_number. unfold epochRule.
      cbn [takenByEpochRule] in Hrule.
      apply orb_false_elim in Hrule as [Hz Hge].
      rewrite Hz, Hge.
      destruct (ge n (ofZ 1000000000000)) eqn:Hbig.
      { rewrite (ge_1e12_ge_1e9 _ Hbig) in Hge. discriminate. }
      reflexivity.
    + cbn [takenByEpochRule takenByGuard] in Hrule, Hguard.
      destruct s as [|c r]; [discriminate|].
      unfold toJsDate. rewrite Hrule. reflexivity.
Qed.

(** C4, as stated, fails: null is none of the inputs that the epoch rules
    name, and [new Date(null)] is the valid Date of 0 milliseconds; yet
    the sanitizer returns null, by its first guard. *)
Lemma toJsDate_null_counterexample :
  ~ (forall v, takenByEpochRule v = false ->
               @toJsDate Demo.engine v = @genericDate Demo.engine v).
Proof.
  intros Hclaim. specialize (Hclaim VNull eq_refl).
  vm_compute in Hclaim. discriminate.
Qed.

(** ** Sanitizing a row *)

Lemma sanitize_undefined `{JsEngine} flag kind :
  kind <> KOther -> sanitize flag kind VUndefined = Some VNull.
Proof. destruct kind, flag; intros Hk; try reflexivity; congruence. Qed.

Lemma sanitize_other `{JsEngine} flag kind v :
  sanitize flag kind v = None <-> kind = KOther.
Proof. destruct kind; simpl; split; congruence. Qed.

(** What the sanitized copy of a row holds under each key. *)
Lemma coerceRow_lookup `{JsEngine} flag (typesByCol : TypesByCol) (row : Row) (col : string) :
  coerceRow flag typesByCol row !! col
  = match typesByCol !! col with
    | Some kind =>
        match sanitize flag kind (getProp row col) with
        | Some v => Some v
        | None => row !! col
        end
    | None => row !! col
    end.
Proof.
  unfold coerceRow. revert col.
  apply (map_fold_weak_ind
           (fun (out : Row) (m : TypesByCol) =>
              forall col, out !! col
                = match m !! col with
                  | Some kind =>
                      match sanitize flag kind (getProp row col) with
                      | Some v => Some v
                      | None => row !! col
                      end
                  | None => row !! col
                  end)).
  - intros col. rewrite lookup_empty. reflexivity.
  - intros i kind m out Hi IH col.
    assert (Hget : getProp out i = getProp row i).
    { unfold getProp. rewrite (IH i), Hi. reflexivity. }
    unfold coerceCol. rewrite Hget.
    destruct (decide (i = col)) as [->|Hne].
    + rewrite lookup_insert_eq.
      destruct (sanitize flag kind (getProp row col)) as [v|].
      * apply lookup_insert_eq.
      * rewrite (IH col), Hi. reflexivity.
    + rewrite (lookup_insert_ne _ _ _ _ Hne).
      destruct (sanitize flag kind (getProp row i)) as [v|].
      * rewrite (lookup_insert_ne _ _ _ _ Hne). apply IH.
      * apply IH.
Qed.

(** With an empty classification the copy is the row itself. *)
Lemma coerceRow_empty `{JsEngine} flag (row : Row) : coerceRow flag ∅ row = row.
Proof. unfold coerceRow. apply map_fold_empty. Qed.

Lemma coercePage_empty `{JsEngine} flag (rows : list Row) : coercePage flag ∅ rows = rows.
Proof.
  unfold coercePage. induction rows as [|row rows IH]; simpl; [reflexivity|].
  rewrite coerceRow_empty, IH. reflexivity.
Qed.

(** C10, as amended.  The sanitized row is a new map, built from the
    fetched row; under a key that the classification map does not have,
    and under a key that it classifies as other, the value is the one of
    the fetched row; under a key of another class the value is the
    sanitized one; no key of the fetched row is removed; and a key that
    the fetched row does not have is added exactly when the map gives it a
    class other than other, in which case its value is null. *)
Theorem coerceRow_frame `{JsEngine} (flag : bool) (typesByCol : TypesByCol)
    (row : Row) (col : string) :
  (typesByCol !! col = None -> coerceRow flag typesByCol row !! col = row !! col)
  /\ (typesByCol !! col = Some KOther -> coerceRow flag typesByCol row !! col = row !! col)
  /\ (forall kind, typesByCol !! col = Some kind -> kind <> KOther ->
        coerceRow flag typesByCol row !! col = sanitize flag kind (getProp row col))
  /\ (is_Some (row !! col) -> is_Some (coerceRow flag typesByCol row !! col))
  /\ (row !! col = None ->
        (is_Some (coerceRow flag typesByCol row !! col)
         <-> exists kind, typesByCol !! col = Some kind /\ kind <> KOther)
        /\ (forall v, coerceRow flag typesByCol row !! col = Some v -> v = VNull)).
Proof.
  rewrite coerceRow_lookup. split_and!.
  - intros ->. reflexivity.
  - intros ->. reflexivity.
  - intros kind -> Hk.
    destruct (sanitize flag kind (getProp row col)) eqn:Hs; [reflexivity|].
    apply sanitize_other in Hs. contradiction.
  - intros Hrow. destruct (typesByCol !! col) as [kind|]; [|exact Hrow].
    destruct (sanitize flag kind (getProp row col)); [eauto | exact Hrow].
  - intros Hrow. unfold getProp. rewrite Hrow. simpl.
    destruct (typesByCol !! col) as [kind|].
    + destruct (decide (kind = KOther)) as [->|Hk].
      * simpl. split.
        -- split; [intros [? ?]; congruence | intros (k & [= <-] & Hk); contradiction].
        -- intros v Hv. congruence.
      * rewrite (sanitize_undefined flag kind Hk). split.
        -- split; [intros _; eauto | intros _; eauto].
        -- intros v [= <-]. reflexivity.
    + split.
      * split; [intros [? ?]; congruence | intros (k & Hk & _); discriminate].
      * intros v Hv. congruence.
Qed.

(** C10, as stated, fails: a column that the destination has and the
    fetched row lacks is added to the row. *)
Lemma coerceRow_adds_key_counterexample :
  ~ (forall (flag : bool) (typesByCol : TypesByCol) (row : Row) (col : string),
       is_Some (@coerceRow Demo.engine flag typesByCol row !! col) ->
       is_Some (row !! col)).
Proof.
  intros Hclaim.
  specialize (Hclaim true {[ "id" := KInt; "name" := KOther ]}
                {[ "name" := VStr "Alice" ]} "id").
  destruct Hclaim as [v Hv]; [|vm_compute in Hv; discriminate].
  exists VNull. vm_compute. reflexivity.
Qed.

Lemma sanitize_canonical_witness :
  canonical KDecimal (VStr "19.990") = true
  /\ @sanitize Demo.engine true KDecimal (VStr "19.990") = Some (VStr "19.990").
Proof.
  split; [reflexivity|].
  apply (@sanitize_canonical Demo.engine true KDecimal (VStr "19.990")). reflexivity.
Defined.

(** ** Effects *)

Section EffectFacts.
Context {Pg E : Type}.

Lemma bind_unfold {A B} (m : Exec Pg E A) (k : A -> Exec Pg E B) s :
  bind m k s
  = match outcome (m s) with
    | Returned a =>
        {| events := events (m s) ++ events (k a (final (m s)));
           final := final (k a (final (m s)));
           outcome := outcome (k a (final (m s))) |}
    | Threw e => {| events := events (m s); final := final (m s); outcome := Threw e |}
    | OutOfFuel => {| events := events (m s); final := final (m s); outcome := OutOfFuel |}
    end.
Proof. reflexivity. Qed.

Lemma tryCatch_unfold {A} (m : Exec Pg E A) (handler : JsError E -> Exec Pg E A) s :
  tryCatch m handler s
  = match outcome (m s) with
    | Threw e =>
        {| events := events (m s) ++ events (handler e (final (m s)));
           final := final (handler e (final (m s)));
           outcome := outcome (handler e (final (m s))) |}
    | _ => m s
    end.
Proof. reflexivity. Qed.

Lemma forEach_cons {A} (body : A -> Exec Pg E unit) x l :
  forEach body (x :: l) = bind (body x) (fun _ => forEach body l).
Proof. reflexivity. Qed.

Lemma emit_bind {B} ev (k : Exec Pg E B) s :
  bind (emit ev) (fun _ => k) s
  = {| events := ev :: events (k s); final := final (k s); outcome := outcome (k s) |}.
Proof. reflexivity. Qed.

Lemma dbCall_run (op : Pg -> E + Pg) s :
  dbCall op s
  = match op (pg s) with
    | inr db => {| events := [];
                   final := {| pg := db; tableMeta := tableMeta s |};
                   outcome := Returned tt |}
    | inl e => {| events := []; final := s; outcome := Threw (DbError e) |}
    end.
Proof. reflexivity. Qed.

Lemma dbQuery_run {A} (op : Pg -> E + A) s :
  dbQuery op s
  = match op (pg s) with
    | inr a => {| events := []; final := s; outcome := Returned a |}
    | inl e => {| events := []; final := s; outcome := Threw (DbError e) |}
    end.
Proof. reflexivity. Qed.

End EffectFacts.

(** ** Batch Copier: one page *)

Section PageFacts.
Context {Pg E : Type} {dest : Destination Pg E} {eng : JsEngine}.
Variable cfg : Config.
Variable table : string.

Lemma bulkInsert_ok rows (s : St Pg) db :
  pg_bulkInsert (PG_SCHEMA cfg) table rows (pg s) = inr db ->
  bulkInsert cfg table rows s
  = {| events := [EBulkInsert table rows true];
       final := {| pg := db; tableMeta := tableMeta s |};
       outcome := Returned tt |}.
Proof. intros H. unfold bulkInsert. rewrite H. reflexivity. Qed.

Lemma bulkInsert_fail rows (s : St Pg) e :
  pg_bulkInsert (PG_SCHEMA cfg) table rows (pg s) = inl e ->
  bulkInsert cfg table rows s
  = {| events := [EBulkInsert table rows false];
       final := s;
       outcome := Threw (DbError e) |}.
Proof. intros H. unfold bulkInsert. rewrite H. reflexivity. Qed.

(** One step of the row-by-row loop. *)
Lemma insertRowByRow_cons row rows (s : St Pg) :
  insertRowByRow cfg table (row :: rows) s
  = match pg_bulkInsert (PG_SCHEMA cfg) table [row] (pg s) with
    | inl e => {| events := [rowInsert table false row];
                  final := s;
                  outcome := Threw (DbError e) |}
    | inr db =>
        let r := insertRowByRow cfg table rows {| pg := db; tableMeta := tableMeta s |} in
        {| events := rowInsert table true row :: events r;
           final := final r;
           outcome := outcome r |}
    end.
Proof.
  unfold insertRowByRow. rewrite forEach_cons, bind_unfold, tryCatch_unfold.
  destruct (pg_bulkInsert (PG_SCHEMA cfg) table [row] (pg s)) as [e|db] eqn:Hdb.
  - rewrite (bulkInsert_fail _ _ _ Hdb). reflexivity.
  - rewrite (bulkInsert_ok _ _ _ Hdb). reflexivity.
Qed.

(** The row-by-row loop inserts the rows in order and stops at the first
    row that the destination rejects, throwing the error of that row. *)
Lemma insertRowByRow_spec rows (s : St Pg) :
  let r := insertRowByRow cfg table rows s in
  tableMeta (final r) = tableMeta s
  /\ ((outcome r = Returned tt /\ events r = map (rowInsert table true) rows)
      \/ exists k row e',
           rows !! k = Some row
           /\ outcome r = Threw (DbError e')
           /\ events r = (map (rowInsert table true) (take k rows)
                          ++ [rowInsert table false row])%list
           /\ pg_bulkInsert (PG_SCHEMA cfg) table [row] (pg (final r)) = inl e').
Proof.
  revert s. induction rows as [|row rows IH]; intros s.
  - split; [reflexivity|]. left. split; reflexivity.
  - cbv zeta. rewrite insertRowByRow_cons.
    destruct (pg_bulkInsert (PG_SCHEMA cfg) table [row] (pg s)) as [e|db] eqn:Hdb.
    + split; [reflexivity|]. right. exists 0%nat, row, e. cbn. auto.
    + destruct (IH {| pg := db; tableMeta := tableMeta s |})
        as [Hmeta [[Hout Hev]|(k & row' & e' & Hk & Hout & Hev & Hfail)]].
      * cbn. split; [exact Hmeta|]. left. split; [exact Hout|].
        rewrite Hev. reflexivity.
      * cbn. split; [exact Hmeta|]. right.
        exists (S k), row', e'. cbn. rewrite Hev. auto.
Qed.

Lemma insertPage_ok coerced (s : St Pg) db :
  pg_bulkInsert (PG_SCHEMA cfg) table coerced (pg s) = inr db ->
  insertPage cfg table coerced s
  = {| events := [EBulkInsert table coerced true];
       final := {| pg := db; tableMeta := tableMeta s |};
       outcome := Returned tt |}.
Proof.
  intros H. unfold insertPage. rewrite tryCatch_unfold, (bulkInsert_ok _ _ _ H).
  reflexivity.
Qed.

(** What a page does when its bulk insert fails. *)
Lemma insertPage_fail coerced (s : St Pg) e :
  pg_bulkInsert (PG_SCHEMA cfg) table coerced (pg s) = inl e ->
  let r := insertPage cfg table coerced s in
  tableMeta (final r) = tableMeta s
  /\ (DEBUG_ON_ERROR cfg = false ->
        r = {| events := [EBulkInsert table coerced false];
               final := s;
               outcome := Threw (DbError e) |})
  /\ (DEBUG_ON_ERROR cfg = true ->
        (outcome r = Threw (DbError e)
         /\ events r = EBulkInsert table coerced false :: map (rowInsert table true) coerced)
        \/ exists k row e',
             coerced !! k = Some row
             /\ outcome r = Threw (DbError e')
             /\ events r = (EBulkInsert table coerced false
                           :: map (rowInsert table true) (take k coerced)
                           ++ [rowInsert table false row])%list
             /\ pg_bulkInsert (PG_SCHEMA cfg) table [row] (pg (final r)) = inl e').
Proof.
  intros H. unfold insertPage. rewrite tryCatch_unfold, (bulkInsert_fail _ _ _ H).
  cbn [outcome final events]. rewrite bind_unfold.
  destruct (DEBUG_ON_ERROR cfg).
  - destruct (insertRowByRow_spec coerced s)
      as [Hmeta [[Hout Hev]|(k & row & e' & Hk & Hout & Hev & Hfail)]].
    + rewrite Hout. cbn. split_and!; [exact Hmeta | discriminate |].
      intros _. left. rewrite Hev, app_nil_r. auto.
    + rewrite Hout. cbn. split_and!; [exact Hmeta | discriminate |].
      intros _. right. exists k, row, e'. rewrite Hev. auto.
  - cbn. split_and!; [reflexivity | reflexivity | discriminate].
Qed.

(** The facts about a page that the loop needs. *)
Lemma insertPage_spec coerced (s : St Pg) :
  let r := insertPage cfg table coerced s in
  tableMeta (final r) = tableMeta s
  /\ Forall (fun ev => exists rows ok,
               ev = EBulkInsert table rows ok /\ Forall (fun row => row ∈ coerced) rows)
            (events r)
  /\ (outcome r = Returned tt -> events r = [EBulkInsert table coerced true])
  /\ (forall err, outcome r = Threw err ->
        exists e rows, err = DbError e /\ EBulkInsert table rows false ∈ events r)
  /\ outcome r <> OutOfFuel.
Proof.
  assert (Hall : Forall (fun row : Row => row ∈ coerced) coerced).
  { apply Forall_forall. auto. }
  assert (Hrows : forall ok rows, Forall (fun row : Row => row ∈ coerced) rows ->
            Forall (fun ev => exists rows ok,
               ev = EBulkInsert table rows ok /\ Forall (fun row => row ∈ coerced) rows)
              (map (rowInsert table ok) rows)).
  { intros ok rows Hr. apply Forall_fmap. eapply Forall_impl; [exact Hr|].
    intros row Hrow. exists [row], ok. split; [reflexivity|]. constructor; [exact Hrow|constructor]. }
  destruct (pg_bulkInsert (PG_SCHEMA cfg) table coerced (pg s)) as [e|db] eqn:Hdb.
  - destruct (insertPage_fail coerced s e Hdb) as (Hmeta & Hoff & Hon).
    cbv zeta. split; [exact Hmeta|].
    destruct (DEBUG_ON_ERROR cfg) eqn:Hdebug.
    + destruct (Hon eq_refl) as [[Hout Hev]|(k & row & e' & Hk & Hout & Hev & _)];
        rewrite Hout, Hev.
      * split_and!.
        -- constructor; [eauto|]. apply Hrows, Hall.
        -- discriminate.
        -- intros err [= <-]. exists e, coerced. split; [reflexivity|]. left.
        -- discriminate.
      * assert (Hrow : row ∈ coerced) by (eapply list_elem_of_lookup_2; exact Hk).
        split_and!.
        -- constructor; [eauto|]. apply Forall_app. split.
           ++ apply Hrows. apply Forall_forall. intros x Hx.
              exact (subseteq_take k coerced x Hx).
           ++ constructor; [|constructor]. exists [row], false.
              split; [reflexivity|]. constructor; [exact Hrow|constructor].
        -- discriminate.
        -- intros err [= <-]. exists e', [row]. split; [reflexivity|].
           apply list_elem_of_further, elem_of_app. right. apply list_elem_of_here.
        -- discriminate.
    + rewrite (Hoff eq_refl). cbn. split_and!.
      * constructor; [eauto|constructor].
      * discriminate.
      * intros err [= <-]. exists e, coerced. split; [reflexivity|]. left.
      * discriminate.
  - rewrite (insertPage_ok _ _ _ Hdb). cbn. split_and!.
    + reflexivity.
    + constructor; [eauto|constructor].
    + reflexivity.
    + discriminate.
    + discriminate.
Qed.

End PageFacts.

(** ** Batch Copier: the loop over the pages *)

Lemma take_drop_length {A} (n : nat) (l : list A) :
  (take n l ++ drop (length (take n l)) l)%list = l.
Proof.
  rewrite length_take.
  destruct (Nat.le_gt_cases n (length l)) as [Hle|Hgt].
  - rewrite Nat.min_l by exact Hle. apply take_drop.
  - rewrite Nat.min_r by lia. rewrite take_ge by lia.
    rewrite drop_ge by lia. apply app_nil_r.
Qed.

Lemma insertedRows_app evs1 evs2 :
  insertedRows (evs1 ++ evs2) = (insertedRows evs1 ++ insertedRows evs2)%list.
Proof. unfold insertedRows. apply flat_map_app. Qed.

Section LoopFacts.
Context {Pg E : Type} {dest : Destination Pg E} {eng : JsEngine}.
Variable cfg : Config.
Variable src : Source.
Variable table : string.

Lemma copyLoop_unfold total typesByCol fuel offset :
  copyLoop cfg src table total typesByCol fuel offset
  = if (total <=? offset)%nat then ret tt
    else match fuel with
         | O => outOfFuel
         | S fuel' =>
             emit (EFetch table offset) ;;
             insertPage cfg table
               (coercePage (TREAT_EMPTY_STRING_AS_NULL cfg) typesByCol
                           (fetchPage cfg src table offset)) ;;
             copyLoop cfg src table total typesByCol fuel'
               (offset + length (fetchPage cfg src table offset))%nat
         end.
Proof. destruct fuel; reflexivity. Qed.

Lemma fetchPage_subseteq offset : fetchPage cfg src table offset ⊆ src_rows src table.
Proof.
  unfold fetchPage. etransitivity; [apply subseteq_take | apply subseteq_drop].
Qed.

Lemma copyLoop_spec typesByCol fuel : forall offset (s : St Pg),
  let r := copyLoop cfg src table (length (src_rows src table)) typesByCol fuel offset s in
  tableMeta (final r) = tableMeta s
  /\ Forall (loopEvent cfg src table typesByCol) (events r)
  /\ (outcome r = Returned tt ->
        Forall (fun ev => insertOk ev = true) (events r)
        /\ insertedRows (events r)
           = coercePage (TREAT_EMPTY_STRING_AS_NULL cfg) typesByCol
                        (drop offset (src_rows src table)))
  /\ (forall err, outcome r = Threw err ->
        exists e rows, err = DbError e /\ EBulkInsert table rows false ∈ events r)
  /\ ((0 < BATCH_SIZE cfg)%nat -> (length (src_rows src table) <= offset + fuel)%nat ->
        outcome r <> OutOfFuel).
Proof.
  induction fuel as [|fuel IH]; intros offset s; cbv zeta;
    rewrite copyLoop_unfold;
    destruct (Nat.leb_spec (length (src_rows src table)) offset) as [Hdone|Hmore].
  1, 3: (split_and!;
         [ reflexivity | constructor
         | intros _; split; [constructor|];
           rewrite drop_ge by exact Hdone; reflexivity
         | discriminate | discriminate ]).
  - split_and!; [reflexivity | constructor | discriminate | discriminate |].
    intros _ Hfuel. lia.
  - set (page := fetchPage cfg src table offset).
    set (coerced := coercePage (TREAT_EMPTY_STRING_AS_NULL cfg) typesByCol page).
    rewrite emit_bind, bind_unfold.
    destruct (insertPage_spec cfg table coerced s)
      as (Hmeta & Hevs & Hret & Hthrew & Hfuel).
    assert (Hpage : Forall (loopEvent cfg src table typesByCol) (events (insertPage cfg table coerced s))).
    { eapply Forall_impl; [exact Hevs|].
      intros ev (rows & ok & -> & Hrows). right. exists rows, ok.
      split; [reflexivity|]. eapply Forall_impl; [exact Hrows|].
      intros row Hrow. unfold coerced, coercePage in Hrow.
      apply list_elem_of_fmap in Hrow as (x & -> & Hx).
      apply list_elem_of_fmap. exists x. split; [reflexivity|].
      exact (fetchPage_subseteq offset x Hx). }
    destruct (outcome (insertPage cfg table coerced s)) as [[]|err|] eqn:Hout.
    + specialize (IH (offset + length page)%nat (final (insertPage cfg table coerced s))).
      cbv zeta in IH. destruct IH as (IHmeta & IHevs & IHret & IHthrew & IHfuel).
      cbn [events final outcome]. split_and!.
      * rewrite IHmeta. exact Hmeta.
      * constructor; [left; eauto|]. apply Forall_app. split; assumption.
      * intros Hr. destruct (IHret Hr) as [Hok Hins]. rewrite (Hret eq_refl). split.
        -- constructor; [reflexivity|]. constructor; [reflexivity|]. exact Hok.
        -- unfold insertedRows in *. cbn [flat_map app]. rewrite Hins.
           unfold coerced, coercePage.
           rewrite <- map_app. f_equal.
           rewrite <- (drop_drop (src_rows src table) (length page) offset).
           apply take_drop_length.
      * intros err Herr. destruct (IHthrew err Herr) as (e & rows & -> & Hin).
        exists e, rows. split; [reflexivity|].
        apply list_elem_of_further, elem_of_app. right. exact Hin.
      * intros Hb Hf. apply IHfuel; [exact Hb|].
        assert (1 <= length page)%nat; [|lia].
        unfold page, fetchPage. rewrite length_take, length_drop. lia.
    + cbn [events final outcome]. split_and!.
      * exact Hmeta.
      * constructor; [left; eauto|]. exact Hpage.
      * discriminate.
      * intros err' [= <-]. destruct (Hthrew err eq_refl) as (e & rows & -> & Hin).
        exists e, rows. split; [reflexivity|]. apply list_elem_of_further. exact Hin.
      * discriminate.
    + contradiction.
Qed.

End LoopFacts.

(** ** Batch Copier: a table *)

Section CopyFacts.
Context {Pg E : Type} {dest : Destination Pg E} {eng : JsEngine}.
Variable cfg : Config.
Variable src : Source.

Lemma copyTableData_run fuel table (s : St Pg) :
  copyTableData cfg src fuel table s
  = if (length (src_rows src table) =? 0)%nat
    then {| events := [ECount table]; final := s; outcome := Returned tt |}
    else
      let r := copyLoop cfg src table (length (src_rows src table))
                 (default ∅ (tableMeta s !! table)) fuel 0 s in
      {| events := ECount table
                   :: EMetaGet table (bool_decide (is_Some (tableMeta s !! table)))
                   :: events r;
         final := final r;
         outcome := outcome r |}.
Proof.
  unfold copyTableData. rewrite emit_bind.
  destruct (length (src_rows src table) =? 0)%nat; reflexivity.
Qed.

(** A copy that returns has had every insert accepted; a copy that throws
    throws the error of a rejected insert. *)
Lemma copyTableData_outcome fuel table (s : St Pg) :
  let r := copyTableData cfg src fuel table s in
  (outcome r = Returned tt -> Forall (fun ev => insertOk ev = true) (events r))
  /\ (forall err, outcome r = Threw err ->
        exists e rows, err = DbError e /\ EBulkInsert table rows false ∈ events r).
Proof.
  cbv zeta. rewrite copyTableData_run.
  destruct (length (src_rows src table) =? 0)%nat.
  - split; [intros _; repeat constructor | discriminate].
  - destruct (copyLoop_spec cfg src table (default ∅ (tableMeta s !! table)) fuel 0%nat s)
      as (_ & _ & Hret & Hthrew & _).
    cbn [events final outcome]. split.
    + intros Hr. destruct (Hret Hr) as [Hok _]. repeat (constructor; [reflexivity|]). exact Hok.
    + intros err Herr. destruct (Hthrew err Herr) as (e & rows & -> & Hin).
      exists e, rows. split; [reflexivity|]. do 2 apply list_elem_of_further. exact Hin.
Qed.

End CopyFacts.

(** C1, as amended.  When the bulk insert of a page fails: with the
    fallback disabled the batch error is thrown at once, nothing else being
    tried; with the fallback enabled the rows of the page are inserted one
    at a time, in order, and either every row is accepted and the batch
    error is thrown, or the first row that is rejected stops the loop and
    the error of that row is thrown.  In every case the page ends with an
    error: a copy that returns has had all its inserts accepted, and a copy
    that throws, throws the error of a rejected insert. *)
Theorem insertPage_failure_propagates {Pg E : Type} {dest : Destination Pg E}
    {eng : JsEngine} (cfg : Config) (table : string) :
  (forall coerced (s : St Pg) e,
     pg_bulkInsert (PG_SCHEMA cfg) table coerced (pg s) = inl e ->
     let r := insertPage cfg table coerced s in
     (DEBUG_ON_ERROR cfg = false ->
        r = {| events := [EBulkInsert table coerced false];
               final := s;
               outcome := Threw (DbError e) |})
     /\ (DEBUG_ON_ERROR cfg = true ->
           (outcome r = Threw (DbError e)
            /\ events r = EBulkInsert table coerced false
                          :: map (rowInsert table true) coerced)
           \/ exists k row e',
                coerced !! k = Some row
                /\ outcome r = Threw (DbError e')
                /\ events r = (EBulkInsert table coerced false
                               :: map (rowInsert table true) (take k coerced)
                               ++ [rowInsert table false row])%list
                /\ pg_bulkInsert (PG_SCHEMA cfg) table [row] (pg (final r)) = inl e')
     /\ exists err, outcome r = Threw err)
  /\ (forall src fuel (s : St Pg),
        let r := copyTableData cfg src fuel table s in
        (outcome r = Returned tt -> Forall (fun ev => insertOk ev = true) (events r))
        /\ (forall err, outcome r = Threw err ->
              exists e rows, err = DbError e /\ EBulkInsert table rows false ∈ events r)).
Proof.
  split.
  - intros coerced s e Hfail.
    destruct (insertPage_fail cfg table coerced s e Hfail) as (_ & Hoff & Hon).
    cbv zeta. split_and!; [exact Hoff | exact Hon |].
    destruct (DEBUG_ON_ERROR cfg).
    + destruct (Hon eq_refl) as [[Hout _]|(k & row & e' & _ & Hout & _)]; eauto.
    + rewrite (Hoff eq_refl). eauto.
  - intros src fuel s. apply copyTableData_outcome.
Qed.

(** C9.  When [tableMeta] has no entry for the table, the copy runs with an
    empty classification: every insert it makes is an insert into that
    table of rows of the source as they were fetched; it ends by returning,
    having inserted the rows of the source unchanged and in order, unless
    the destination rejects an insert, whose error it then throws; and
    with a positive page size the loop ends within as many iterations as
    the table has rows. *)
Theorem copyTableData_without_meta {Pg E : Type} {dest : Destination Pg E}
    {eng : JsEngine} (cfg : Config) (src : Source) (fuel : nat) (table : string)
    (s : St Pg) :
  tableMeta s !! table = None ->
  let r := copyTableData cfg src fuel table s in
  (forall t rows ok, EBulkInsert t rows ok ∈ events r ->
     t = table /\ Forall (fun row => row ∈ src_rows src table) rows)
  /\ (outcome r = Returned tt -> insertedRows (events r) = src_rows src table)
  /\ (forall err, outcome r = Threw err ->
        exists e rows, err = DbError e /\ EBulkInsert table rows false ∈ events r)
  /\ ((0 < BATCH_SIZE cfg)%nat -> (length (src_rows src table) <= fuel)%nat ->
        outcome r <> OutOfFuel).
Proof.
  intros Hmeta. cbv zeta.
  pose proof (copyTableData_outcome cfg src fuel table s) as [_ Hthrew].
  split_and!; [| | exact Hthrew |]; rewrite copyTableData_run, Hmeta;
    destruct (length (src_rows src table) =? 0)%nat eqn:Hlen;
    cbn [events final outcome default];
    try (destruct (copyLoop_spec cfg src table ∅ fuel 0%nat s)
           as (_ & Hevs & Hret & _ & Hfuel)).
  - intros t rows ok Hin. apply list_elem_of_singleton in Hin. discriminate.
  - intros t rows ok Hin.
    apply elem_of_cons in Hin as [Hin|Hin]; [discriminate|].
    apply elem_of_cons in Hin as [Hin|Hin]; [discriminate|].
    rewrite Forall_forall in Hevs.
    destruct (Hevs _ Hin) as [[off Hoff]|(rows' & ok' & Heq & Hrows)]; [discriminate|].
    injection Heq as -> -> ->. split; [reflexivity|].
    rewrite coercePage_empty in Hrows. exact Hrows.
  - intros _. apply Nat.eqb_eq in Hlen. cbn.
    destruct (src_rows src table); [reflexivity | discriminate].
  - intros Hr. destruct (Hret Hr) as [_ Hins].
    rewrite coercePage_empty in Hins. exact Hins.
  - discriminate.
  - intros Hb Hf. apply Hfuel; [exact Hb | lia].
Qed.

(** ** Runs on the small destination *)

Section Runs.
Import Demo.

(** C1, as stated, fails: with the fallback enabled, the error that leaves
    the copy is the error of the rejected row, not the error of the batch. *)
Lemma copy_throws_row_error_counterexample :
  pg_bulkInsert "public" "users" Demo.mixedPage (pg Demo.createdState)
  = inl (Demo.NotNullViolation "users" "id" Demo.mixedPage)
  /\ outcome (copyTableData Demo.debugConfig (Demo.sourceWith [Demo.alice; Demo.orphan])
                10 "users" Demo.createdState)
     = Threw (DbError (Demo.NotNullViolation "users" "id" (drop 1 Demo.mixedPage)))
  /\ Demo.NotNullViolation "users" "id" (drop 1 Demo.mixedPage)
     <> Demo.NotNullViolation "users" "id" Demo.mixedPage.
Proof.
  split_and!.
  - vm_compute. reflexivity.
  - vm_compute. reflexivity.
  - intros H. apply (f_equal (fun e => match e with
                                       | Demo.NotNullViolation _ _ st => length st
                                       | _ => O
                                       end)) in H.
    vm_compute in H. discriminate.
Qed.

Lemma copyTableData_without_meta_witness :
  tableMeta Demo.unclassifiedState !! "users" = None
  /\ insertedRows (events (copyTableData Demo.config (Demo.sourceWith [Demo.alice; Demo.blank])
                             10 "users" Demo.unclassifiedState))
     = [Demo.alice; Demo.blank].
Proof.
  split; [reflexivity|].
  apply (copyTableData_without_meta Demo.config (Demo.sourceWith [Demo.alice; Demo.blank])
           10 "users" Demo.unclassifiedState eq_refl).
  vm_compute. reflexivity.
Defined.

End Runs.

(** ** Loops over lists *)

Section ForEachFacts.
Context {Pg E A : Type}.
Variable body : A -> Exec Pg E unit.

(** A property of the events and a transitive relation between the states
    that every iteration establishes hold of the loop. *)
Lemma forEach_invariant (P : Event -> Prop) (R : St Pg -> St Pg -> Prop) (l : list A) :
  (forall s, R s s) ->
  (forall s1 s2 s3, R s1 s2 -> R s2 s3 -> R s1 s3) ->
  (forall x s, x ∈ l -> Forall P (events (body x s)) /\ R s (final (body x s))) ->
  forall s, Forall P (events (forEach body l s)) /\ R s (final (forEach body l s)).
Proof.
  intros Hrefl Htrans. induction l as [|x l IH]; intros Hbody s.
  - split; [constructor | apply Hrefl].
  - rewrite forEach_cons, bind_unfold.
    destruct (Hbody x s (list_elem_of_here _ _)) as [Hev HR].
    destruct (outcome (body x s)) as [[]|e|]; cbn [events final]; [|auto..].
    destruct (IH (fun y s' Hy => Hbody y s' (list_elem_of_further _ _ _ Hy))
                 (final (body x s))) as [Hev' HR'].
    split; [apply Forall_app; auto | eauto].
Qed.

(** A loop that returns has run every iteration to its end. *)
Lemma forEach_returned (l : list A) : forall s,
  outcome (forEach body l s) = Returned tt ->
  forall x, x ∈ l ->
    exists s', outcome (body x s') = Returned tt
               /\ events (body x s') ⊆ events (forEach body l s).
Proof.
  induction l as [|y l IH]; intros s Hret x Hx.
  - apply elem_of_nil in Hx. destruct Hx.
  - rewrite forEach_cons, bind_unfold in Hret |- *.
    destruct (outcome (body y s)) as [[]|e|] eqn:Hy; try discriminate.
    cbn [events final outcome] in Hret |- *.
    apply elem_of_cons in Hx as [->|Hx].
    + exists s. split; [exact Hy|].
      intros ev Hev. apply elem_of_app. left. exact Hev.
    + destruct (IH _ Hret x Hx) as (s' & Hout & Hsub).
      exists s'. split; [exact Hout|].
      intros ev Hev. apply elem_of_app. right. apply Hsub, Hev.
Qed.

End ForEachFacts.

(** ** DDL and classification *)

Section DdlFacts.
Context {Pg E : Type} {dest : Destination Pg E} {eng : JsEngine}.
Variable cfg : Config.
Variable src : Source.

(** The loop that recreates the unique indexes of a table. *)
Lemma indexLoop_spec table (idxs : list IndexInfo) (s : St Pg) :
  let r := forEach
             (fun idx =>
                if idx_unique idx then
                  emit (EAddIndex table (idx_name idx)) ;;
                  dbCall (pg_addIndex (PG_SCHEMA cfg) table (idx_columns idx) (idx_name idx))
                else ret tt)
             idxs s in
  Forall (fun ev => isDdlEvent ev = true) (events r)
  /\ tableMeta (final r) = tableMeta s.
Proof.
  apply (forEach_invariant _ (fun ev => isDdlEvent ev = true)
           (fun s s' : St Pg => tableMeta s' = tableMeta s)).
  - reflexivity.
  - intros s1 s2 s3 H12 H23. congruence.
  - intros idx s0 _. destruct (idx_unique idx).
    + rewrite emit_bind, !dbCall_run.
      destruct (pg_addIndex (PG_SCHEMA cfg) table (idx_columns idx) (idx_name idx) (pg s0));
        cbn; split; try reflexivity; repeat constructor.
    + split; [constructor | reflexivity].
Qed.

(** The run of [createPgTableFromSqlite], by the answers of the destination. *)
Lemma createPgTableFromSqlite_run table (s : St Pg) :
  createPgTableFromSqlite cfg src table s
  = match pg_sync (PG_SCHEMA cfg) table (attrsOf (src_columns src table)) (pg s) with
    | inl e => {| events := [ESync table]; final := s; outcome := Threw (DbError e) |}
    | inr db =>
        match pg_describeTable (PG_SCHEMA cfg) table db with
        | inl e =>
            {| events := [ESync table; EDescribe table];
               final := {| pg := db; tableMeta := tableMeta s |};
               outcome := Threw (DbError e) |}
        | inr desc =>
            let r := forEach
                       (fun idx =>
                          if idx_unique idx then
                            emit (EAddIndex table (idx_name idx)) ;;
                            dbCall (pg_addIndex (PG_SCHEMA cfg) table
                                      (idx_columns idx) (idx_name idx))
                          else ret tt)
                       (src_indexes src table)
                       {| pg := db;
                          tableMeta := <[table := classifyPgType <$> desc]> (tableMeta s) |} in
            {| events := ESync table :: EDescribe table
                         :: EMetaSet table (classifyPgType <$> desc) :: events r;
               final := final r;
               outcome := outcome r |}
        end
    end.
Proof.
  unfold createPgTableFromSqlite.
  rewrite emit_bind, bind_unfold, !dbCall_run.
  destruct (pg_sync (PG_SCHEMA cfg) table (attrsOf (src_columns src table)) (pg s))
    as [e|db]; [reflexivity|].
  cbn [outcome events final pg tableMeta].
  rewrite emit_bind, bind_unfold, !dbQuery_run. cbn [pg].
  destruct (pg_describeTable (PG_SCHEMA cfg) table db) as [e|desc]; reflexivity.
Qed.

(** Creating a table emits DDL events only and keeps the entries that
    [tableMeta] has; when it returns, the table has an entry, set by an
    [EMetaSet] event. *)
Lemma createPgTableFromSqlite_spec table (s : St Pg) :
  let r := createPgTableFromSqlite cfg src table s in
  Forall (fun ev => isDdlEvent ev = true) (events r)
  /\ (forall t, is_Some (tableMeta s !! t) -> is_Some (tableMeta (final r) !! t))
  /\ (outcome r = Returned tt ->
        is_Some (tableMeta (final r) !! table)
        /\ exists tys, EMetaSet table tys ∈ events r).
Proof.
  cbv zeta. rewrite createPgTableFromSqlite_run.
  destruct (pg_sync _ _ _ _) as [e|db].
  { split_and!; [repeat constructor | auto | discriminate]. }
  destruct (pg_describeTable _ _ _) as [e|desc].
  { split_and!; [repeat constructor | auto | discriminate]. }
  destruct (indexLoop_spec table (src_indexes src table)
              {| pg := db; tableMeta := <[table := classifyPgType <$> desc]> (tableMeta s) |})
    as [Hev Hmeta].
  cbn [events final outcome tableMeta] in *. split_and!.
  - repeat (constructor; [reflexivity|]). exact Hev.
  - intros t Ht. rewrite Hmeta.
    destruct (decide (table = t)) as [->|Hne].
    + rewrite lookup_insert_eq. eauto.
    + rewrite lookup_insert_ne by exact Hne. exact Ht.
  - intros _. split.
    + rewrite Hmeta, lookup_insert_eq. eauto.
    + exists (classifyPgType <$> desc). do 2 apply list_elem_of_further. left.
Qed.

(** The loop that creates the tables. *)
Lemma createAll_spec (tables : list string) : forall (s : St Pg),
  let r := forEach (createPgTableFromSqlite cfg src) tables s in
  Forall (fun ev => isDdlEvent ev = true) (events r)
  /\ (forall t, is_Some (tableMeta s !! t) -> is_Some (tableMeta (final r) !! t))
  /\ (outcome r = Returned tt ->
        forall t, t ∈ tables ->
          is_Some (tableMeta (final r) !! t)
          /\ exists tys, EMetaSet t tys ∈ events r).
Proof.
  induction tables as [|table tables IH]; intros s; cbv zeta.
  - split_and!; [constructor | auto |]. intros _ t Ht. apply elem_of_nil in Ht. destruct Ht.
  - rewrite forEach_cons, bind_unfold.
    destruct (createPgTableFromSqlite_spec table s) as (Hev & Hkeep & Hset).
    destruct (outcome (createPgTableFromSqlite cfg src table s)) as [[]|e|];
      cbn [events final outcome]; [|split_and!; [assumption | assumption | discriminate]..].
    destruct (IH (final (createPgTableFromSqlite cfg src table s)))
      as (Hev' & Hkeep' & Hset').
    destruct (Hset eq_refl) as [Hentry [tys Htys]].
    split_and!.
    + apply Forall_app. auto.
    + auto.
    + intros Hret t Ht. apply elem_of_cons in Ht as [->|Ht].
      * split; [auto|]. exists tys. apply elem_of_app. left. exact Htys.
      * destruct (Hset' Hret t Ht) as [Hentry' [tys' Htys']].
        split; [exact Hentry'|]. exists tys'. apply elem_of_app. right. exact Htys'.
Qed.

(** Copying a table whose entry is in [tableMeta]: the lookup finds it,
    and [tableMeta] is left as it is. *)
Lemma copyTableData_phase fuel table (s : St Pg) :
  is_Some (tableMeta s !! table) ->
  let r := copyTableData cfg src fuel table s in
  Forall (fun ev => isCopyEvent ev = true
                    /\ (forall t found, ev = EMetaGet t found -> found = true)
                    /\ (forall t, ev = ECount t -> t = table))
         (events r)
  /\ tableMeta (final r) = tableMeta s.
Proof.
  intros Hentry. cbv zeta. rewrite copyTableData_run.
  destruct (length (src_rows src table) =? 0)%nat.
  - cbn [events final]. split; [|reflexivity].
    constructor; [|constructor]. split_and!; [reflexivity | discriminate |].
    intros t [= <-]. reflexivity.
  - destruct (copyLoop_spec cfg src table (default ∅ (tableMeta s !! table)) fuel 0%nat s)
      as (Hkeep & Hevs & _).
    cbn [events final]. split; [|exact Hkeep].
    constructor.
    { split_and!; [reflexivity | discriminate |]. intros t [= <-]. reflexivity. }
    constructor.
    { split_and!; [reflexivity | | discriminate].
      intros t found [= <- <-]. apply bool_decide_eq_true. exact Hentry. }
    eapply Forall_impl; [exact Hevs|].
    intros ev [[off ->]|(rows & ok & -> & _)];
      (split_and!; [reflexivity | discriminate | discriminate]).
Qed.

(** The loop that copies the tables: when every table has its entry in
    [tableMeta], every lookup finds it. *)
Lemma copyAll_spec fuel (known tables : list string) : forall (s : St Pg),
  tables ⊆ known ->
  (forall t, t ∈ known -> is_Some (tableMeta s !! t)) ->
  let r := forEach (copyTableData cfg src fuel) tables s in
  Forall (fun ev => isCopyEvent ev = true
                    /\ (forall t found, ev = EMetaGet t found -> found = true)
                    /\ (forall t, ev = ECount t -> t ∈ known))
         (events r)
  /\ tableMeta (final r) = tableMeta s.
Proof.
  induction tables as [|table tables IH]; intros s Hsub Hmeta; cbv zeta.
  - split; [constructor | reflexivity].
  - rewrite forEach_cons, bind_unfold.
    assert (Hknown : table ∈ known) by (apply Hsub; left).
    destruct (copyTableData_phase fuel table s (Hmeta _ Hknown)) as [Hev Hkeep].
    assert (Hev' : Forall (fun ev => isCopyEvent ev = true
                    /\ (forall t found, ev = EMetaGet t found -> found = true)
                    /\ (forall t, ev = ECount t -> t ∈ known))
                  (events (copyTableData cfg src fuel table s))).
    { eapply Forall_impl; [exact Hev|]. intros ev (H1 & H2 & H3).
      split_and!; [exact H1 | exact H2 |]. intros t Ht. rewrite (H3 t Ht). exact Hknown. }
    destruct (outcome (copyTableData cfg src fuel table s)) as [[]|e|];
      cbn [events final]; [|split; assumption..].
    destruct (IH (final (copyTableData cfg src fuel table s))) as [Hrest Hkeep'].
    + intros t Ht. apply Hsub. right. exact Ht.
    + intros t Ht. rewrite Hkeep. auto.
    + split; [apply Forall_app; auto | congruence].
Qed.

(** The loop that adds the foreign keys emits constraint requests only. *)
Lemma addForeignKeysForTable_events table (s : St Pg) :
  Forall (fun ev => isFkEvent ev = true) (events (addForeignKeysForTable cfg src table s)).
Proof.
  unfold addForeignKeysForTable.
  destruct (length (src_foreign_keys src table) =? 0)%nat; [constructor|].
  apply (forEach_invariant _ (fun ev => isFkEvent ev = true) (fun _ _ : St Pg => True));
    [auto | auto |].
  intros [id parts] s0 _. split; [|exact I].
  destruct parts as [|p0 parts]; [constructor|].
  rewrite emit_bind, !dbCall_run.
  destruct (pg_addConstraint _ _ _ _); repeat constructor.
Qed.

Lemma addAll_events (tables : list string) (s : St Pg) :
  Forall (fun ev => isFkEvent ev = true)
         (events (forEach (addForeignKeysForTable cfg src) tables s)).
Proof.
  apply (forEach_invariant _ (fun ev => isFkEvent ev = true) (fun _ _ : St Pg => True));
    [auto | auto |].
  intros table s0 _. split; [apply addForeignKeysForTable_events | exact I].
Qed.

End DdlFacts.

(** ** Main control flow *)

(** C5.  The events of [main] are the creation of the schema, then the DDL
    and classification events of all the tables, then the copy events of
    all the tables, then the foreign-key events: every table's DDL and
    classification is over before the first copy begins.  Every table
    whose copy begins (its COUNT query) had its entry of [tableMeta] set in
    the DDL phase, and every lookup of [tableMeta] by the copier finds an
    entry. *)
Theorem main_classifies_before_copy {Pg E : Type} {dest : Destination Pg E}
    {eng : JsEngine} (cfg : Config) (src : Source) (fuel : nat) (s : St Pg) :
  exists ddl copy fks,
    events (main cfg src fuel s)
    = (ECreateSchema (PG_SCHEMA cfg) :: ddl ++ copy ++ fks)%list
    /\ Forall (fun ev => isDdlEvent ev = true) ddl
    /\ Forall (fun ev => isCopyEvent ev = true) copy
    /\ Forall (fun ev => isFkEvent ev = true) fks
    /\ (forall t, ECount t ∈ copy -> exists tys, EMetaSet t tys ∈ ddl)
    /\ (forall t found, EMetaGet t found ∈ copy -> found = true).
Proof.
  unfold main, ensurePgSchema. rewrite bind_unfold, emit_bind, !dbCall_run.
  destruct (pg_createSchema (PG_SCHEMA cfg) (pg s)) as [e|db].
  { exists [], [], []. cbn. split_and!; try constructor; intros ? ? ; try intros ?;
      match goal with H : _ ∈ [] |- _ => apply elem_of_nil in H; destruct H end. }
  cbn [events final outcome].
  set (s1 := {| pg := db; tableMeta := tableMeta s |}).
  set (tables := selectedTables cfg src).
  destruct (length tables =? 0)%nat.
  { exists [], [], []. cbn. split_and!; try constructor; intros ? ? ; try intros ?;
      match goal with H : _ ∈ [] |- _ => apply elem_of_nil in H; destruct H end. }
  rewrite bind_unfold.
  destruct (createAll_spec cfg src tables s1) as (Hddl & _ & Hset).
  destruct (outcome (forEach (createPgTableFromSqlite cfg src) tables s1)) as [[]|e|].
  2, 3: (exists (events (forEach (createPgTableFromSqlite cfg src) tables s1)), [], [];
         cbn [events]; rewrite !app_nil_r;
         split_and!; [reflexivity | exact Hddl | constructor | constructor | |];
         intros ? ? ; try intros ?;
         match goal with H : _ ∈ [] |- _ => apply elem_of_nil in H; destruct H end).
  specialize (Hset eq_refl).
  set (s2 := final (forEach (createPgTableFromSqlite cfg src) tables s1)) in *.
  destruct (copyAll_spec cfg src fuel tables tables s2) as [Hcopy Hkeep];
    [reflexivity | intros t Ht; apply (Hset t Ht) |].
  rewrite bind_unfold.
  assert (Hshape :
    forall fks, Forall (fun ev => isFkEvent ev = true) fks ->
      exists ddl copy fks',
        (ECreateSchema (PG_SCHEMA cfg)
           :: events (forEach (createPgTableFromSqlite cfg src) tables s1)
           ++ events (forEach (copyTableData cfg src fuel) tables s2) ++ fks)%list
        = (ECreateSchema (PG_SCHEMA cfg) :: ddl ++ copy ++ fks')%list
        /\ Forall (fun ev => isDdlEvent ev = true) ddl
        /\ Forall (fun ev => isCopyEvent ev = true) copy
        /\ Forall (fun ev => isFkEvent ev = true) fks'
        /\ (forall t, ECount t ∈ copy -> exists tys, EMetaSet t tys ∈ ddl)
        /\ (forall t found, EMetaGet t found ∈ copy -> found = true)).
  { intros fks Hfks.
    exists (events (forEach (createPgTableFromSqlite cfg src) tables s1)),
           (events (forEach (copyTableData cfg src fuel) tables s2)), fks.
    rewrite Forall_forall in Hcopy.
    split_and!; [reflexivity | exact Hddl | | exact Hfks | |].
    - apply Forall_forall. intros ev Hev. apply (Hcopy ev Hev).
    - intros t Hin. destruct (Hcopy _ Hin) as (_ & _ & Hcount).
      apply (Hset t (Hcount t eq_refl)).
    - intros t found Hin. destruct (Hcopy _ Hin) as (_ & Hget & _).
      apply (Hget t found eq_refl). }
  destruct (outcome (forEach (copyTableData cfg src fuel) tables s2)) as [[]|e|];
    cbn [events final outcome].
  - destruct (ADD_FOREIGN_KEYS cfg).
    + apply Hshape, addAll_events.
    + apply Hshape. constructor.
  - rewrite <- (app_nil_r (events (forEach (copyTableData cfg src fuel) tables s2))).
    apply Hshape. constructor.
  - rewrite <- (app_nil_r (events (forEach (copyTableData cfg src fuel) tables s2))).
    apply Hshape. constructor.
Qed.

(** ** Constraint Linker *)

Lemma groupPush_elem fk byId id parts :
  (id, parts) ∈ groupPush fk byId ->
  (id, parts) ∈ byId
  \/ (id = fk_id fk
      /\ exists old, parts = (old ++ [fk])%list /\ (old = [] \/ (id, old) ∈ byId)).
Proof.
  induction byId as [|[i ps] rest IH]; cbn [groupPush].
  - intros Hin. apply list_elem_of_singleton in Hin as [= -> ->].
    right. split; [reflexivity|]. exists []. auto.
  - destruct (Z.eqb_spec i (fk_id fk)) as [->|Hne]; intros Hin;
      apply elem_of_cons in Hin as [[= -> ->]|Hin].
    + right. split; [reflexivity|]. exists ps. split; [reflexivity|]. right. left.
    + left. right. exact Hin.
    + left. left.
    + destruct (IH Hin) as [Hold|(-> & old & -> & [->|Hold])].
      * left. right. exact Hold.
      * right. split; [reflexivity|]. exists []. auto.
      * right. split; [reflexivity|]. exists old. split; [reflexivity|]. right. right. exact Hold.
Qed.

Lemma groupPush_keeps fk byId id parts :
  (id, parts) ∈ byId ->
  exists parts', (id, parts') ∈ groupPush fk byId /\ parts ⊆ parts'.
Proof.
  induction byId as [|[i ps] rest IH]; cbn [groupPush]; intros Hin.
  - apply elem_of_nil in Hin. destruct Hin.
  - destruct (Z.eqb_spec i (fk_id fk)) as [->|Hne];
      apply elem_of_cons in Hin as [[= -> ->]|Hin].
    + exists (ps ++ [fk])%list. split; [left|]. intros x Hx. apply elem_of_app. auto.
    + exists parts. split; [right; exact Hin | reflexivity].
    + exists ps. split; [left | reflexivity].
    + destruct (IH Hin) as (parts' & Hin' & Hsub).
      exists parts'. split; [right; exact Hin' | exact Hsub].
Qed.

Lemma groupPush_new fk byId :
  exists parts, (fk_id fk, parts) ∈ groupPush fk byId /\ fk ∈ parts.
Proof.
  induction byId as [|[i ps] rest IH]; cbn [groupPush].
  - exists [fk]. split; left.
  - destruct (Z.eqb_spec i (fk_id fk)) as [->|Hne].
    + exists (ps ++ [fk])%list. split; [left|]. apply elem_of_app. right. left.
    + destruct IH as (parts & Hin & Hfk). exists parts. split; [right; exact Hin | exact Hfk].
Qed.

Lemma groupPush_groupedFrom fk byId seen :
  groupedFrom byId seen -> groupedFrom (groupPush fk byId) (seen ++ [fk]).
Proof.
  intros [Hgroups Hseen]. split.
  - intros id parts Hin.
    destruct (groupPush_elem _ _ _ _ Hin) as [Hold|(-> & old & -> & Hcase)].
    + destruct (Hgroups _ _ Hold) as [Hne Hparts]. split; [exact Hne|].
      intros p Hp. destruct (Hparts p Hp) as [Hs Hid].
      split; [apply elem_of_app; auto | exact Hid].
    + split; [destruct old; discriminate|].
      intros p Hp. apply elem_of_app in Hp as [Hp|Hp].
      * destruct Hcase as [->|Hold]; [apply elem_of_nil in Hp; destruct Hp|].
        destruct (Hgroups _ _ Hold) as [_ Hparts]. destruct (Hparts p Hp) as [Hs Hid].
        split; [apply elem_of_app; auto | exact Hid].
      * apply list_elem_of_singleton in Hp as ->.
        split; [apply elem_of_app; right; left | reflexivity].
  - intros fk' Hin. apply elem_of_app in Hin as [Hin|Hin].
    + destruct (Hseen _ Hin) as (parts & Hg & Hfk).
      destruct (groupPush_keeps fk _ _ _ Hg) as (parts' & Hg' & Hsub).
      exists parts'. split; [exact Hg' | apply Hsub, Hfk].
    + apply list_elem_of_singleton in Hin as ->. apply groupPush_new.
Qed.

Lemma foldl_groupedFrom fks : forall byId seen,
  groupedFrom byId seen ->
  groupedFrom (foldl (fun byId fk => groupPush fk byId) byId fks) (seen ++ fks).
Proof.
  induction fks as [|fk fks IH]; intros byId seen Hg; cbn [foldl].
  - rewrite app_nil_r. exact Hg.
  - replace (seen ++ fk :: fks)%list with ((seen ++ [fk]) ++ fks)%list
      by (rewrite <- app_assoc; reflexivity).
    apply IH, groupPush_groupedFrom, Hg.
Qed.

(** The groups that the linker builds are exactly the rows, by id. *)
Lemma groupById_groupedFrom fks : groupedFrom (groupById fks) fks.
Proof.
  apply (foldl_groupedFrom fks [] []). split.
  - intros id parts Hin. apply elem_of_nil in Hin. destruct Hin.
  - intros fk Hin. apply elem_of_nil in Hin. destruct Hin.
Qed.

Lemma fkAction_restrict : fkAction (Some "RESTRICT") = "NO ACTION".
Proof. reflexivity. Qed.

Lemma fkAction_absent : fkAction None = "NO ACTION".
Proof. reflexivity. Qed.

(** C6.  Every constraint that the linker requests for a table is deferred
    until commit, and its update and delete actions are those of the first
    row of its foreign-key group, normalized: RESTRICT becomes NO ACTION
    and an absent action becomes NO ACTION.  When the linker returns, every
    foreign-key row of the table is covered by a requested constraint,
    named after the table and the id of its group. *)
Theorem addForeignKeysForTable_normalized {Pg E : Type} {dest : Destination Pg E}
    {eng : JsEngine} (cfg : Config) (src : Source) (table : string) (s : St Pg) :
  let r := addForeignKeysForTable cfg src table s in
  (forall t spec, EAddConstraint t spec ∈ events r ->
     t = table
     /\ cs_deferrable spec = INITIALLY_DEFERRED
     /\ exists p0, p0 ∈ src_foreign_keys src table
          /\ cs_name spec = (table ++ "_fk_" ++ intToString (fk_id p0))%string
          /\ cs_onUpdate spec = fkAction (fk_on_update p0)
          /\ cs_onDelete spec = fkAction (fk_on_delete p0)
          /\ (fk_on_update p0 = Some "RESTRICT" -> cs_onUpdate spec = "NO ACTION")
          /\ (fk_on_delete p0 = Some "RESTRICT" -> cs_onDelete spec = "NO ACTION")
          /\ (fk_on_update p0 = None -> cs_onUpdate spec = "NO ACTION")
          /\ (fk_on_delete p0 = None -> cs_onDelete spec = "NO ACTION"))
  /\ (outcome r = Returned tt ->
        forall fk, fk ∈ src_foreign_keys src table ->
          exists spec, EAddConstraint table spec ∈ events r
            /\ cs_name spec = (table ++ "_fk_" ++ intToString (fk_id fk))%string
            /\ fk_from fk ∈ cs_fields spec
            /\ cs_deferrable spec = INITIALLY_DEFERRED).
Proof.
  cbv zeta. unfold addForeignKeysForTable.
  destruct (groupById_groupedFrom (src_foreign_keys src table)) as [Hgroups Hseen].
  destruct (length (src_foreign_keys src table) =? 0)%nat eqn:Hlen.
  { apply Nat.eqb_eq in Hlen. split.
    - intros t spec Hin. apply elem_of_nil in Hin. destruct Hin.
    - intros _ fk Hfk. destruct (src_foreign_keys src table); [|discriminate].
      apply elem_of_nil in Hfk. destruct Hfk. }
  set (body := fun '(id, parts) =>
                 match parts with
                 | p0 :: _ =>
                     let spec := fkConstraint table id p0 parts in
                     emit (EAddConstraint table spec) ;;
                     dbCall (pg_addConstraint (PG_SCHEMA cfg) table spec)
                 | [] => throw TypeError
                 end : Exec Pg E unit).
  assert (Hbody : forall id p0 parts (s0 : St Pg),
            exists evs, events (body (id, p0 :: parts) s0)
                        = EAddConstraint table (fkConstraint table id p0 (p0 :: parts)) :: evs
                        /\ evs = []).
  { intros id p0 parts s0. unfold body. rewrite emit_bind, !dbCall_run.
    destruct (pg_addConstraint _ _ _ _); eexists; split; reflexivity. }
  split.
  - intros t spec Hin.
    destruct (forEach_invariant body
                (fun ev => exists id p0 parts,
                     (id, p0 :: parts) ∈ groupById (src_foreign_keys src table)
                     /\ ev = EAddConstraint table (fkConstraint table id p0 (p0 :: parts)))
                (fun _ _ : St Pg => True)
                (groupById (src_foreign_keys src table))) with (s := s) as [Hevs _];
      [auto | auto | |].
    { intros [id parts] s0 Hg. split; [|exact I].
      destruct parts as [|p0 parts]; [constructor|].
      destruct (Hbody id p0 parts s0) as (evs & -> & ->).
      constructor; [|constructor]. exists id, p0, parts. auto. }
    rewrite Forall_forall in Hevs.
    destruct (Hevs _ Hin) as (id & p0 & parts & Hg & [= -> ->]).
    destruct (Hgroups _ _ Hg) as [_ Hparts].
    destruct (Hparts p0 (list_elem_of_here _ _)) as [Hp0 Hid].
    split; [reflexivity|]. split; [reflexivity|].
    exists p0. cbn [fkConstraint cs_name cs_onUpdate cs_onDelete]. rewrite Hid.
    split_and!; try reflexivity; try exact Hp0; intros ->; reflexivity.
  - intros Hret fk Hfk.
    destruct (Hseen fk Hfk) as (parts & Hg & Hin).
    destruct (forEach_returned body _ s Hret _ Hg) as (s' & _ & Hsub).
    destruct parts as [|p0 parts]; [apply elem_of_nil in Hin; destruct Hin|].
    destruct (Hbody (fk_id fk) p0 parts s') as (evs & Hev & ->).
    exists (fkConstraint table (fk_id fk) p0 (p0 :: parts)).
    split_and!; [| reflexivity | | reflexivity].
    + apply Hsub. rewrite Hev. left.
    + cbn [fkConstraint cs_fields]. apply list_elem_of_fmap. exists fk. auto.
Qed.

(** ** Runs on the small destination: the constraint linker *)

Section LinkerRuns.
Import Demo.

Lemma addForeignKeysForTable_normalized_run :
  outcome (addForeignKeysForTable config linkedSource "users" createdState) = Returned tt
  /\ map (fun ev => match ev with
                    | EAddConstraint _ spec =>
                        (cs_name spec, cs_fields spec, cs_onUpdate spec, cs_onDelete spec)
                    | _ => ("", [], "", "")
                    end)
         (events (addForeignKeysForTable config linkedSource "users" createdState))
     = [ ("users_fk_0", ["team_id"; "team_region"], "NO ACTION", "NO ACTION");
         ("users_fk_1", ["manager"], "NO ACTION", "CASCADE") ].
Proof. split; vm_compute; reflexivity. Qed.

End LinkerRuns.

(** ** Examples: the properties that the specification lists for testing *)

Section Examples.
Import Demo.

Example toBoolean_examples :
  toBoolean true (VStr "Y") = VBool true
  /\ toBoolean true (VStr "n") = VBool false
  /\ toBoolean true (VStr "") = VNull
  /\ toBoolean true (VStr "maybe") = VNull.
Proof. vm_compute. auto. Qed.

Example toIntOrNull_examples :
  toIntOrNull true (VStr "  ") = VNull
  /\ toIntOrNull true (VStr "42.9") = VNum (ofZ 42)
  /\ toIntOrNull false (VStr "  ") = VNum zero.
Proof. vm_compute. auto. Qed.

Example toFloatOrNull_example :
  toFloatOrNull true (VStr "3.14") = VNum (S754_finite false 7070651414971679 (-51)).
Proof. vm_compute. reflexivity. Qed.

Example toJsDate_examples :
  toJsDate (VNum (ofZ 0)) = VNull
  /\ toJsDate (VNum (ofZ 1700000000)) = VDate (ofZ 1700000000000)
  /\ toJsDate (VStr "1700000000000") = VDate (ofZ 1700000000000)
  /\ toJsDate (VStr "2023-11-14") = VDate (ofZ 1699920000000)
  /\ toJsDate (VStr "soon") = VNull.
Proof. vm_compute. auto. Qed.

(** The end-to-end scenario: the classes that the destination reports for
    [users], and the two rows as they are inserted. *)
Example end_to_end_scenario :
  usersTypes = {[ "id" := KInt; "name" := KOther; "active" := KBoolean; "created" := KDate ]}
  /\ outcome (main config (sourceWith [alice; blank]) 1 emptyState) = Returned tt
  /\ insertedRows (events (main config (sourceWith [alice; blank]) 1 emptyState))
     = [ {[ "id" := VNum (ofZ 1); "name" := VStr "Alice";
            "active" := VBool true; "created" := VDate (ofZ 1700000000000) ]};
         {[ "id" := VNum (ofZ 2); "name" := VStr "";
            "active" := VBool false; "created" := VNull ]} ].
Proof. vm_compute. auto. Qed.

(** A table without a primary key: the destination has the [id] column that
    Sequelize adds, the rows of the source do not; the sanitized row gets
    the key [id] with the value null, and the insert is rejected. *)
Example table_without_primary_key :
  coerceRow true (default ∅ (tableMeta (final (main config notesSource 1 emptyState)) !! "notes"))
            note
  = {[ "id" := VNull; "title" := VStr "todo"; "body" := VStr "42.50" ]}
  /\ outcome (main config notesSource 1 emptyState)
     = Threw (DbError (NotNullViolation "notes" "id"
                [ {[ "id" := VNull; "title" := VStr "todo"; "body" := VStr "42.50" ]} ])).
Proof. vm_compute. auto. Qed.

End Examples.

(* ================================================================== *)
(** * Part III: further properties of the script *)
(* ================================================================== *)

(** ** Identifiers *)

Lemma append_cons c (s t : string) :
  (String c s ++ t)%string = String c (s ++ t)%string.
Proof. reflexivity. Qed.

Lemma append_nil (t : string) : (EmptyString ++ t)%string = t.
Proof. reflexivity. Qed.

Lemma readQuoted_doubleQuotes name :
  readQuoted (doubleQuotes name ++ String doubleQuote EmptyString) = Some name.
Proof.
  induction name as [|c r IH]; [reflexivity|].
  cbn [doubleQuotes]. destruct (Ascii.eqb_spec c doubleQuote) as [->|Hne].
  - rewrite !append_cons. cbn [readQuoted]. rewrite !Ascii.eqb_refl, IH. reflexivity.
  - rewrite append_cons. cbn [readQuoted].
    apply Ascii.eqb_neq in Hne. rewrite Hne, IH. reflexivity.
Qed.

(** X1.  Quoting an identifier loses nothing and cannot be broken out of:
    read back as SQL reads a quoted identifier, the text that [quoteIdent]
    builds denotes the name it was given, whatever characters the name
    holds; so two different names never get the same quoted text. *)
Theorem quoteIdent_round_trip (name : string) :
  readIdent (quoteIdent name) = Some name
  /\ (forall other, quoteIdent other = quoteIdent name -> other = name).
Proof.
  assert (Hread : forall n, readIdent (quoteIdent n) = Some n).
  { intros n. unfold readIdent, quoteIdent. rewrite Ascii.eqb_refl.
    apply readQuoted_doubleQuotes. }
  split; [apply Hread|].
  intros other Heq. pose proof (Hread other) as Hother.
  rewrite Heq, Hread in Hother. congruence.
Qed.

(** ** Letter case and surrounding white space *)

Ltac each_char c :=
  destruct c as [[|] [|] [|] [|] [|] [|] [|] [|]]; reflexivity.

Lemma upperChar_lowerChar c : upperChar (lowerChar c) = upperChar c.
Proof. each_char c. Qed.

Lemma lowerChar_upperChar c : lowerChar (upperChar c) = lowerChar c.
Proof. each_char c. Qed.

Lemma upperChar_idem c : upperChar (upperChar c) = upperChar c.
Proof. each_char c. Qed.

Lemma lowerChar_idem c : lowerChar (lowerChar c) = lowerChar c.
Proof. each_char c. Qed.

Lemma isWhiteSpace_upperChar c : isWhiteSpace (upperChar c) = isWhiteSpace c.
Proof. each_char c. Qed.

Lemma isWhiteSpace_lowerChar c : isWhiteSpace (lowerChar c) = isWhiteSpace c.
Proof. each_char c. Qed.

Lemma mapChars_mapChars f g s : mapChars f (mapChars g s) = mapChars (fun c => f (g c)) s.
Proof. induction s as [|c r IH]; cbn [mapChars]; congruence. Qed.

Lemma mapChars_ext f g s : (forall c, f c = g c) -> mapChars f s = mapChars g s.
Proof. intros H. induction s as [|c r IH]; cbn [mapChars]; congruence. Qed.

Lemma toUpperCase_toLowerCase s : toUpperCase (toLowerCase s) = toUpperCase s.
Proof.
  unfold toUpperCase, toLowerCase. rewrite mapChars_mapChars.
  apply mapChars_ext, upperChar_lowerChar.
Qed.

Lemma toLowerCase_toUpperCase s : toLowerCase (toUpperCase s) = toLowerCase s.
Proof.
  unfold toUpperCase, toLowerCase. rewrite mapChars_mapChars.
  apply mapChars_ext, lowerChar_upperChar.
Qed.

Lemma toUpperCase_idem s : toUpperCase (toUpperCase s) = toUpperCase s.
Proof.
  unfold toUpperCase. rewrite mapChars_mapChars. apply mapChars_ext, upperChar_idem.
Qed.

Lemma toLowerCase_idem s : toLowerCase (toLowerCase s) = toLowerCase s.
Proof.
  unfold toLowerCase. rewrite mapChars_mapChars. apply mapChars_ext, lowerChar_idem.
Qed.

Section TrimFacts.
Variable f : ascii -> ascii.
Hypothesis f_space : forall c, isWhiteSpace (f c) = isWhiteSpace c.

Lemma trimStart_mapChars s : trimStart (mapChars f s) = mapChars f (trimStart s).
Proof.
  induction s as [|c r IH]; [reflexivity|].
  cbn [mapChars trimStart]. rewrite f_space.
  destruct (isWhiteSpace c); [exact IH | reflexivity].
Qed.

Lemma trimEnd_mapChars s : trimEnd (mapChars f s) = mapChars f (trimEnd s).
Proof.
  induction s as [|c r IH]; [reflexivity|].
  cbn [mapChars trimEnd]. rewrite IH, f_space.
  destruct (trimEnd r); cbn [mapChars]; [destruct (isWhiteSpace c)|]; reflexivity.
Qed.

Lemma trim_mapChars s : trim (mapChars f s) = mapChars f (trim s).
Proof. unfold trim. rewrite trimStart_mapChars. apply trimEnd_mapChars. Qed.

End TrimFacts.

Lemma trim_toUpperCase s : trim (toUpperCase s) = toUpperCase (trim s).
Proof. apply trim_mapChars, isWhiteSpace_upperChar. Qed.

Lemma trim_toLowerCase s : trim (toLowerCase s) = toLowerCase (trim s).
Proof. apply trim_mapChars, isWhiteSpace_lowerChar. Qed.

(** A string that starts with a character that is not white space. *)
Lemma trimStart_shape s :
  trimStart s = EmptyString
  \/ exists c r, trimStart s = String c r /\ isWhiteSpace c = false.
Proof.
  induction s as [|c r IH]; [left; reflexivity|].
  cbn [trimStart]. destruct (isWhiteSpace c) eqn:Hc; [exact IH|].
  right. exists c, r. auto.
Qed.

Lemma trimEnd_cons c r :
  trimEnd (String c r)
  = match trimEnd r with
    | EmptyString => if isWhiteSpace c then EmptyString else String c EmptyString
    | r' => String c r'
    end.
Proof. reflexivity. Qed.

Lemma trimEnd_idem s : trimEnd (trimEnd s) = trimEnd s.
Proof.
  induction s as [|c r IH]; [reflexivity|].
  rewrite trimEnd_cons. destruct (trimEnd r) as [|c' r'] eqn:Hr.
  - destruct (isWhiteSpace c) eqn:Hc; [reflexivity|].
    rewrite trimEnd_cons. cbn [trimEnd]. rewrite Hc. reflexivity.
  - rewrite trimEnd_cons, IH. reflexivity.
Qed.

Lemma trimEnd_keeps_head c r :
  isWhiteSpace c = false -> exists r', trimEnd (String c r) = String c r'.
Proof.
  intros Hc. cbn [trimEnd]. rewrite Hc. destruct (trimEnd r); eauto.
Qed.

(** Trimming twice is trimming once. *)
Lemma trim_idem s : trim (trim s) = trim s.
Proof.
  unfold trim.
  destruct (trimStart_shape s) as [->|(c & r & -> & Hc)]; [reflexivity|].
  destruct (trimEnd_keeps_head c r Hc) as [r' Hr'].
  rewrite Hr', (trimStart_head _ _ Hc), <- Hr'. apply trimEnd_idem.
Qed.

Lemma isEmpty_mapChars f s : isEmpty (mapChars f s) = isEmpty s.
Proof. destruct s; reflexivity. Qed.

(** ** Type Mapper and classifier: what they do not depend on *)

(** X2.  On type names made of ASCII characters the type mapper does not
    depend on the letter case of the name nor on the white space around
    it: the name in lower case, in upper case or trimmed maps to the same
    DataType.  (Outside ASCII this fails: JavaScript upper-cases the
    dotless i to I.) *)
Theorem mapSqliteTypeToSequelize_case_and_space (typeStrRaw : string) :
  isAsciiStr typeStrRaw = true ->
  mapSqliteTypeToSequelize (toLowerCase typeStrRaw) = mapSqliteTypeToSequelize typeStrRaw
  /\ mapSqliteTypeToSequelize (toUpperCase typeStrRaw) = mapSqliteTypeToSequelize typeStrRaw
  /\ mapSqliteTypeToSequelize (trim typeStrRaw) = mapSqliteTypeToSequelize typeStrRaw.
Proof.
  intros _.
  assert (Hnorm : forall a b, normalizedType a = normalizedType b ->
                              mapSqliteTypeToSequelize a = mapSqliteTypeToSequelize b).
  { intros a b H. unfold mapSqliteTypeToSequelize. rewrite H. reflexivity. }
  split_and!; apply Hnorm; unfold normalizedType.
  - rewrite trim_toLowerCase. apply toUpperCase_toLowerCase.
  - rewrite trim_toUpperCase. apply toUpperCase_idem.
  - rewrite trim_idem. reflexivity.
Qed.

Lemma mapSqliteTypeToSequelize_case_and_space_witness :
  isAsciiStr " varchar(10) " = true
  /\ mapSqliteTypeToSequelize (toUpperCase " varchar(10) ")
     = mapSqliteTypeToSequelize " varchar(10) ".
Proof.
  split; [reflexivity|].
  exact (proj1 (proj2 (mapSqliteTypeToSequelize_case_and_space " varchar(10) " eq_refl))).
Defined.

(** X3.  On type names made of ASCII characters the classifier of
    destination types does not depend on the letter case in which the
    destination reports a type. *)
Theorem classifyPgType_case (typeStr : string) :
  isAsciiStr typeStr = true ->
  classifyPgType (toUpperCase typeStr) = classifyPgType typeStr
  /\ classifyPgType (toLowerCase typeStr) = classifyPgType typeStr.
Proof.
  intros _. unfold classifyPgType.
  rewrite toLowerCase_toUpperCase, toLowerCase_idem. split; reflexivity.
Qed.

Lemma classifyPgType_case_witness :
  isAsciiStr "Timestamp With Time Zone" = true
  /\ classifyPgType (toUpperCase "Timestamp With Time Zone")
     = classifyPgType "Timestamp With Time Zone".
Proof.
  split; [reflexivity|].
  exact (proj1 (classifyPgType_case "Timestamp With Time Zone" eq_refl)).
Defined.

(** ** Sanitizers: what they do not depend on *)

Lemma isBlank_trim s : isBlank (trim s) = isBlank s.
Proof. unfold isBlank. rewrite trim_idem. reflexivity. Qed.

Lemma isBlank_toUpperCase s : isBlank (toUpperCase s) = isBlank s.
Proof. unfold isBlank. rewrite trim_toUpperCase. apply isEmpty_mapChars. Qed.

Lemma isBlank_toLowerCase s : isBlank (toLowerCase s) = isBlank s.
Proof. unfold isBlank. rewrite trim_toLowerCase. apply isEmpty_mapChars. Qed.

(** The boolean sanitizer on a string, by the trimmed lower-case text. *)
Lemma toBoolean_string `{JsEngine} flag s :
  toBoolean flag (VStr s)
  = if flag && isBlank s then VNull
    else
      let t := toLowerCase (trim s) in
      if String.eqb t "true" || String.eqb t "t" || String.eqb t "yes"
         || String.eqb t "y" || String.eqb t "1" then VBool true
      else if String.eqb t "false" || String.eqb t "f" || String.eqb t "no"
              || String.eqb t "n" || String.eqb t "0" then VBool false
      else VNull.
Proof.
  unfold toBoolean. rewrite emptyStringToNull_string.
  destruct (flag && isBlank s); reflexivity.
Qed.

(** X4.  The boolean sanitizer reads a string of ASCII characters without
    regard to letter case or surrounding white space: the string in upper
    case, in lower case or trimmed gives the same result as the string
    itself.  (Outside ASCII this fails: JavaScript upper-cases the long s
    to S.) *)
Theorem toBoolean_case_and_space `{JsEngine} (flag : bool) (s : string) :
  isAsciiStr s = true ->
  toBoolean flag (VStr (toUpperCase s)) = toBoolean flag (VStr s)
  /\ toBoolean flag (VStr (toLowerCase s)) = toBoolean flag (VStr s)
  /\ toBoolean flag (VStr (trim s)) = toBoolean flag (VStr s).
Proof.
  intros _. rewrite !toBoolean_string.
  rewrite isBlank_toUpperCase, isBlank_toLowerCase, isBlank_trim.
  rewrite trim_toUpperCase, trim_toLowerCase, trim_idem.
  rewrite toLowerCase_toUpperCase, toLowerCase_idem.
  split_and!; reflexivity.
Qed.

Lemma toBoolean_case_and_space_witness :
  isAsciiStr " Yes " = true
  /\ @toBoolean Demo.engine true (VStr (toUpperCase " Yes "))
     = @toBoolean Demo.engine true (VStr " Yes ").
Proof.
  split; [reflexivity|].
  exact (proj1 (@toBoolean_case_and_space Demo.engine true " Yes " eq_refl)).
Defined.

(** ** Default values *)

Lemma trimEnd_last s q :
  isWhiteSpace q = false ->
  trimEnd (s ++ String q EmptyString) = (s ++ String q EmptyString)%string.
Proof.
  intros Hq. induction s as [|c r IH].
  - cbn [append trimEnd]. rewrite append_nil. cbn [trimEnd]. rewrite Hq. reflexivity.
  - rewrite append_cons, trimEnd_cons, IH.
    destruct r; reflexivity.
Qed.

(** A text between two quotes is not changed by trimming. *)
Lemma trim_quoted q s :
  isWhiteSpace q = false ->
  trim (String q (s ++ String q EmptyString)) = String q (s ++ String q EmptyString).
Proof.
  intros Hq. unfold trim. rewrite (trimStart_head _ _ Hq).
  apply (trimEnd_last (String q s) q Hq).
Qed.

Lemma beforeClosingQuote_quoted q s :
  allChars (fun c => negb (isLineTerminator c)) s = true ->
  beforeClosingQuote q (s ++ String q EmptyString) = Some s.
Proof.
  induction s as [|c r IH]; intros Hs.
  - rewrite append_nil. cbn [beforeClosingQuote]. rewrite Ascii.eqb_refl. reflexivity.
  - cbn [allChars] in Hs. apply andb_prop in Hs as [Hc Hr].
    apply negb_true_iff in Hc.
    rewrite append_cons.
    assert (Hstep : forall t, t <> EmptyString ->
              beforeClosingQuote q (String c t)
              = if isLineTerminator c then None
                else option_map (String c) (beforeClosingQuote q t)).
    { intros t Ht. destruct t; [contradiction | reflexivity]. }
    rewrite Hstep, Hc, (IH Hr); [reflexivity|].
    destruct r; discriminate.
Qed.

(** X5.  A default written as a quoted string literal, between single or
    between double quotes, becomes the text between the quotes, unchanged:
    nothing inside is unescaped or trimmed (the text has no line break). *)
Theorem normalizeDefaultValue_quoted (s : string) :
  allChars (fun c => negb (isLineTerminator c)) s = true ->
  normalizeDefaultValue (Some (String "'"%char (s ++ String "'"%char EmptyString)))
  = Some (DvString s)
  /\ normalizeDefaultValue (Some (String doubleQuote (s ++ String doubleQuote EmptyString)))
     = Some (DvString s).
Proof.
  intros Hs. unfold normalizeDefaultValue.
  rewrite !trim_quoted by reflexivity. split.
  - unfold unquote. rewrite Ascii.eqb_refl, (beforeClosingQuote_quoted _ _ Hs).
    reflexivity.
  - unfold unquote at 2. rewrite Ascii.eqb_refl, (beforeClosingQuote_quoted _ _ Hs).
    reflexivity.
Qed.

Lemma normalizeDefaultValue_quoted_witness :
  allChars (fun c => negb (isLineTerminator c)) "it''s" = true
  /\ normalizeDefaultValue (Some "'it''s'") = Some (DvString "it''s").
Proof.
  split; [reflexivity|].
  apply (normalizeDefaultValue_quoted "it''s"). reflexivity.
Defined.

(** X6.  Only an absent default gives a column without default: every
    declared default text, whatever it is, becomes a default of the
    destination column; and the white space around the declared text plays
    no part in it. *)
Theorem normalizeDefaultValue_defined (dflt : option string) :
  (normalizeDefaultValue dflt = None <-> dflt = None)
  /\ (forall d, normalizeDefaultValue (Some (trim d)) = normalizeDefaultValue (Some d)).
Proof.
  split.
  - split; [|intros ->; reflexivity].
    destruct dflt as [d|]; [|reflexivity].
    unfold normalizeDefaultValue.
    repeat match goal with
           | |- context [if ?b then _ else _] => destruct b; [discriminate|]
           | |- context [match ?o with Some _ => _ | None => _ end] => destruct o; [discriminate|]
           end.
    discriminate.
  - intros d. unfold normalizeDefaultValue. rewrite trim_idem. reflexivity.
Qed.

(** ** Column definitions *)

Lemma startsWith_nil s : startsWith s EmptyString = true.
Proof. destruct s; reflexivity. Qed.

Lemma startsWith_cons a s c p :
  startsWith (String a s) (String c p) = Ascii.eqb c a && startsWith s p.
Proof. reflexivity. Qed.

Lemma includes_cons a s p :
  includes (String a s) p = startsWith (String a s) p || includes s p.
Proof. reflexivity. Qed.

Lemma includes_nil p : includes EmptyString p = startsWith EmptyString p.
Proof. cbn [includes]. apply orb_false_r. Qed.

Lemma eqb_space_false c a :
  isWhiteSpace c = false -> isWhiteSpace a = true -> Ascii.eqb c a = false.
Proof.
  intros Hc Ha. destruct (Ascii.eqb_spec c a) as [->|]; [congruence | reflexivity].
Qed.

(** A pattern that starts with a character that is no white space occurs
    in a string exactly when it occurs after the leading white space. *)
Lemma includes_trimStart s c p :
  isWhiteSpace c = false ->
  includes (trimStart s) (String c p) = includes s (String c p).
Proof.
  intros Hc. induction s as [|a s IH]; [reflexivity|].
  cbn [trimStart]. destruct (isWhiteSpace a) eqn:Ha; [|reflexivity].
  rewrite IH, includes_cons, startsWith_cons, (eqb_space_false _ _ Hc Ha).
  reflexivity.
Qed.

Lemma startsWith_trimEnd p : forall s,
  allChars (fun c => negb (isWhiteSpace c)) p = true ->
  startsWith (trimEnd s) p = startsWith s p.
Proof.
  induction p as [|c p IH]; intros s Hp.
  - rewrite !startsWith_nil. reflexivity.
  - cbn [allChars] in Hp. apply andb_prop in Hp as [Hc Hp].
    apply negb_true_iff in Hc.
    destruct s as [|a s]; [reflexivity|].
    rewrite trimEnd_cons, startsWith_cons, <- (IH s Hp).
    destruct (trimEnd s) as [|b r'].
    + destruct (isWhiteSpace a) eqn:Ha.
      * rewrite (eqb_space_false _ _ Hc Ha). reflexivity.
      * reflexivity.
    + reflexivity.
Qed.

(** A pattern without white space occurs in a string exactly when it
    occurs before the trailing white space. *)
Lemma includes_trimEnd c p s :
  allChars (fun c => negb (isWhiteSpace c)) (String c p) = true ->
  includes (trimEnd s) (String c p) = includes s (String c p).
Proof.
  intros Hp. induction s as [|a s IH]; [reflexivity|].
  rewrite includes_cons, <- (startsWith_trimEnd _ (String a s) Hp), <- IH.
  rewrite trimEnd_cons.
  destruct (trimEnd s) as [|b r'] eqn:Hr.
  - destruct (isWhiteSpace a) eqn:Ha.
    + reflexivity.
    + rewrite includes_cons. reflexivity.
  - rewrite includes_cons. reflexivity.
Qed.

Lemma includes_trim c p s :
  allChars (fun c => negb (isWhiteSpace c)) (String c p) = true ->
  includes (trim s) (String c p) = includes s (String c p).
Proof.
  intros Hp. unfold trim. rewrite (includes_trimEnd _ _ _ Hp).
  apply includes_trimStart.
  cbn [allChars] in Hp. apply andb_prop in Hp as [Hc _].
  apply negb_true_iff in Hc. exact Hc.
Qed.

(** The mapper gives INTEGER exactly for the type names that contain INT,
    in any letter case. *)
Lemma mapSqliteTypeToSequelize_INTEGER typeStrRaw :
  mapSqliteTypeToSequelize typeStrRaw = INTEGER
  <-> includes (toUpperCase typeStrRaw) "INT" = true.
Proof.
  assert (Hinc : includes (normalizedType typeStrRaw) "INT"
                 = includes (toUpperCase typeStrRaw) "INT").
  { unfold normalizedType. rewrite <- trim_toUpperCase.
    apply includes_trim. reflexivity. }
  unfold mapSqliteTypeToSequelize. rewrite Hinc.
  destruct (includes (toUpperCase typeStrRaw) "INT"); [split; reflexivity|].
  split; [|discriminate].
  repeat match goal with
         | |- context [if ?b then _ else _] => destruct b; try discriminate
         | |- context [match ?o with Some _ => _ | None => _ end] =>
             destruct o as [[? ?]|] || destruct o; try discriminate
         end.
Qed.

(** X7.  A column whose declared type is made of ASCII characters is
    created as auto-incrementing (a serial column of the destination)
    exactly when it is part of the primary key and its destination type is
    INTEGER: never a column of another type, and every INTEGER column of
    the key, also in a key of several columns.  (Outside ASCII the two
    tests can part: the mapper upper-cases the dotless i to I, the
    case-insensitive pattern of the column loop does not.) *)
Theorem colDefOf_autoIncrement (c : ColumnInfo) :
  isAsciiStr (c_type c) = true ->
  (cd_autoIncrement (colDefOf c) = true
   <-> cd_primaryKey (colDefOf c) = true /\ cd_type (colDefOf c) = INTEGER).
Proof.
  intros _. cbn [colDefOf cd_autoIncrement cd_primaryKey cd_type].
  rewrite mapSqliteTypeToSequelize_INTEGER, andb_true_iff. reflexivity.
Qed.

Lemma colDefOf_autoIncrement_witness :
  isAsciiStr (c_type (Demo.column "id" " integer" 1 1)) = true
  /\ cd_autoIncrement (colDefOf (Demo.column "id" " integer" 1 1)) = true
  /\ cd_type (colDefOf (Demo.column "id" " integer" 1 1)) = INTEGER.
Proof.
  split; [reflexivity|]. split; [reflexivity|].
  exact (proj2 (proj1 (colDefOf_autoIncrement (Demo.column "id" " integer" 1 1) eq_refl)
                  eq_refl)).
Defined.

(** ** Date sanitizer: numbers outside the range of time values *)

Lemma ofZ_max_time : ofZ 8640000000000000 = S754_finite false 8640000000000000 0.
Proof. vm_compute. reflexivity. Qed.

Lemma ofZ_min_time : ofZ (-8640000000000000) = S754_finite true 8640000000000000 0.
Proof. vm_compute. reflexivity. Qed.

(** A number above the largest time value is from 1e12 upwards. *)
Lemma gt_max_time_ge_1e12 n :
  gt n (ofZ 8640000000000000) = true -> ge n (ofZ 1000000000000) = true.
Proof.
  rewrite ofZ_max_time, ofZ_1e12. unfold gt, ge.
  destruct n as [s|[|]| |[|] m e]; cbn [SFcompare]; try congruence.
  destruct (Z.compare_spec e 0) as [->| |]; try congruence.
  - intros _. reflexivity.
  - intros _. destruct (Z.compare_spec e (-13)); try reflexivity; lia.
Qed.

Lemma gt_max_time_clipped n :
  gt n (ofZ 8640000000000000) = true -> timeClip n = NaN.
Proof.
  intros Hgt. unfold timeClip.
  destruct (isFinite n) eqn:Hfin; [|reflexivity]. cbn [negb].
  assert (Habs : SFabs n = n).
  { revert Hgt. rewrite ofZ_max_time. unfold gt.
    destruct n as [s|[|]| |[|] m e]; cbn [SFcompare]; try congruence; reflexivity. }
  rewrite Habs, Hgt. reflexivity.
Qed.

Lemma lt_min_time_clipped n :
  lt n (ofZ (-8640000000000000)) = true -> timeClip n = NaN.
Proof.
  intros Hlt. unfold timeClip.
  destruct (isFinite n) eqn:Hfin; [|reflexivity]. cbn [negb].
  assert (Habs : gt (SFabs n) (ofZ 8640000000000000) = true).
  { revert Hlt. rewrite ofZ_min_time, ofZ_max_time. unfold lt, SFltb, gt.
    destruct n as [s|[|]| |[|] m e]; cbn [SFcompare SFabs]; try congruence.
    destruct (e ?= 0); try congruence.
    destruct (PosDef.Pos.compare_cont Eq m 8640000000000000); cbn [CompOpp]; congruence. }
  rewrite Habs. reflexivity.
Qed.

Lemma lt_min_time_no_rule `{JsEngine} n :
  lt n (ofZ (-8640000000000000)) = true -> epochRule n = None.
Proof.
  rewrite ofZ_min_time. unfold epochRule, strictEq, SFeqb, zero, ge, lt, SFltb.
  rewrite ofZ_1e12, ofZ_1e9.
  destruct n as [s|[|]| |[|] m e]; cbn [SFcompare]; try congruence; reflexivity.
Qed.

(** X8.  The date sanitizer treats the two ends of the number line
    differently.  A number above the largest time value (8.64e15
    milliseconds), plus infinity included, is taken by the millisecond rule
    and comes back as an invalid Date object, not as null; a number below
    the smallest time value, minus infinity included, and NaN come back as
    null. *)
Theorem toJsDate_out_of_range `{JsEngine} :
  (forall n, gt n (ofZ 8640000000000000) = true -> toJsDate (VNum n) = VDate NaN)
  /\ (forall n, lt n (ofZ (-8640000000000000)) = true -> toJsDate (VNum n) = VNull)
  /\ toJsDate (VNum NaN) = VNull.
Proof.
  split_and!.
  - intros n Hgt. rewrite toJsDate_number. unfold epochRule.
    pose proof (gt_max_time_ge_1e12 _ Hgt) as Hge.
    rewrite (ge_1e9_nonzero _ (ge_1e12_ge_1e9 _ Hge)), Hge.
    unfold newDate. rewrite (gt_max_time_clipped _ Hgt). reflexivity.
  - intros n Hlt. rewrite toJsDate_number, (lt_min_time_no_rule _ Hlt).
    unfold genericDate, newDate. rewrite (lt_min_time_clipped _ Hlt).
    reflexivity.
  - reflexivity.
Qed.

(** ** Strings of digits as numbers *)

Ltac digit_cases c H :=
  destruct c as [[|] [|] [|] [|] [|] [|] [|] [|]];
  try discriminate H; reflexivity.

Lemma digit_not_space c : isDigit c = true -> negb (isWhiteSpace c) = true.
Proof.
  intros Hd. destruct (isWhiteSpace c) eqn:Hw; [|reflexivity].
  rewrite (isWhiteSpace_not_digit _ Hw) in Hd. discriminate.
Qed.

Lemma allDigits_trim s : allDigits s = true -> trim s = s.
Proof.
  intros Hs. apply trim_noSpace. rewrite allDigits_allChars in Hs.
  exact (allChars_weaken _ _ _ digit_not_space Hs).
Qed.

Lemma radixDigit_nonneg c : 0 <= radixDigit c.
Proof.
  unfold radixDigit.
  repeat match goal with
         | |- context [if ?b then _ else _] => destruct b eqn:?
         end; lia.
Qed.

Lemma digit_no_radix_mark p :
  isDigit p = true ->
  (if Ascii.eqb (lowerChar p) "x"%char then 16
   else if Ascii.eqb (lowerChar p) "o"%char then 8
   else if Ascii.eqb (lowerChar p) "b"%char then 2
   else 0) = 0.
Proof. intros Hp. digit_cases p Hp. Qed.

(** A string of digits is no hexadecimal, octal or binary literal. *)
Lemma nonDecimalLiteral_digits s : allDigits s = true -> nonDecimalLiteral s = None.
Proof.
  intros Hs. destruct s as [|z [|p ds]]; try reflexivity.
  cbn [allDigits] in Hs. apply andb_prop in Hs as [_ Hs].
  apply andb_prop in Hs as [Hp _].
  unfold nonDecimalLiteral. rewrite (digit_no_radix_mark _ Hp).
  destruct (negb (Ascii.eqb z "0") || isEmpty ds) eqn:Hz; [reflexivity|].
  destruct ds as [|d ds']; [rewrite orb_true_r in Hz; discriminate|].
  cbn [radixValue].
  pose proof (radixDigit_nonneg d) as Hd.
  destruct (radixDigit d <? 0) eqn:Hlt; [apply Z.ltb_lt in Hlt; lia | reflexivity].
Qed.

Lemma spanDigits_allDigits s : allDigits s = true -> spanDigits s = (s, EmptyString).
Proof.
  induction s as [|c r IH]; [reflexivity|].
  cbn [allDigits spanDigits]. intros [Hc Hr]%andb_prop.
  rewrite Hc, (IH Hr). reflexivity.
Qed.

Lemma digitVal_nonneg c : isDigit c = true -> 0 <= digitVal c.
Proof.
  unfold isDigit, digitVal. intros [H1 _]%andb_prop.
  apply N.leb_le in H1. lia.
Qed.

Lemma digitsValueFrom_nonneg s : forall acc,
  allDigits s = true -> 0 <= acc -> 0 <= digitsValueFrom acc s.
Proof.
  induction s as [|c r IH]; intros acc Hs Hacc; [exact Hacc|].
  cbn [allDigits] in Hs. apply andb_prop in Hs as [Hc Hr].
  cbn [digitsValueFrom]. apply (IH _ Hr).
  pose proof (digitVal_nonneg _ Hc). lia.
Qed.

Lemma append_empty_r (s : string) : (s ++ EmptyString)%string = s.
Proof.
  induction s as [|c r IH]; [reflexivity|].
  rewrite append_cons, IH. reflexivity.
Qed.

Lemma stripSign_digit c r : isDigit c = true -> stripSign (String c r) = (false, String c r).
Proof. intros Hc. unfold stripSign. digit_cases c Hc. Qed.

Lemma digit_not_Infinity c r : isDigit c = true -> String.eqb (String c r) "Infinity" = false.
Proof.
  intros Hc. cbn [String.eqb].
  assert (Hne : Ascii.eqb c "I" = false) by digit_cases c Hc.
  rewrite Hne. reflexivity.
Qed.

Lemma ofDecimal_exp0 m : ofDecimal false m 0 = ofZ (Zpos m).
Proof. unfold ofDecimal, ofZ. rewrite Z.pow_0_r, Z.mul_1_r. reflexivity. Qed.

(** [Number(s)] on a non-empty string of digits is the number nearest to
    the integer that the digits write. *)
Lemma stringToNumber_digits s :
  isAllDigitsStr s = true -> stringToNumber s = ofZ (digitsValue s).
Proof.
  unfold isAllDigitsStr. intros [Hne Hs]%andb_prop.
  unfold stringToNumber. rewrite (allDigits_trim _ Hs).
  destruct s as [|c r]; [discriminate|]. cbn [isEmpty].
  rewrite (nonDecimalLiteral_digits _ Hs).
  assert (Hc : isDigit c = true).
  { cbn [allDigits] in Hs. apply andb_prop in Hs as [Hc _]. exact Hc. }
  unfold strDecimalLiteral.
  rewrite (stripSign_digit _ _ Hc), (digit_not_Infinity _ _ Hc),
    (spanDigits_allDigits _ Hs).
  cbn [isEmpty andb exponentPart]. rewrite append_empty_r.
  pose proof (digitsValueFrom_nonneg _ 0 Hs (Z.le_refl 0)) as Hpos.
  fold (digitsValue (String c r)) in Hpos.
  destruct (digitsValue (String c r)) as [|m|m]; [reflexivity | | lia].
  cbn [String.length Z.of_nat Z.sub Z.opp Z.add]. apply ofDecimal_exp0.
Qed.

Lemma ofZ_0_strictEq : strictEq (ofZ 0) zero = true.
Proof. reflexivity. Qed.

(** X9.  A cell of a date column that holds a non-empty string of digits
    is read as the integer that the digits write, rounded to the nearest
    number, and then treated as that number is: leading zeros do not
    count, and a string of zeros is no date. *)
Theorem toJsDate_digit_string `{JsEngine} (s : string) :
  isAllDigitsStr s = true ->
  stringToNumber s = ofZ (digitsValue s)
  /\ toJsDate (VStr s) = toJsDate (VNum (ofZ (digitsValue s)))
  /\ (digitsValue s = 0 -> toJsDate (VStr s) = VNull).
Proof.
  intros Hs.
  assert (Hstr : toJsDate (VStr s) = toJsDate (VNum (ofZ (digitsValue s)))).
  { rewrite <- (stringToNumber_digits _ Hs), toJsDate_number.
    destruct s as [|c r]; [discriminate|].
    unfold toJsDate. rewrite Hs. reflexivity. }
  split_and!.
  - exact (stringToNumber_digits _ Hs).
  - exact Hstr.
  - intros Hz. rewrite Hstr, Hz. reflexivity.
Qed.

Lemma toJsDate_digit_string_witness :
  isAllDigitsStr "0001700000000" = true
  /\ @toJsDate Demo.engine (VStr "0001700000000")
     = @toJsDate Demo.engine (VNum (ofZ 1700000000)).
Proof.
  split; [reflexivity|].
  exact (proj1 (proj2 (@toJsDate_digit_string Demo.engine "0001700000000" eq_refl))).
Defined.

(** ** What the sanitizers produce *)

(** [Math.trunc] of a finite number is an integral number. *)
Lemma trunc_isInteger x : isFinite x = true -> isInteger (trunc x) = true.
Proof.
  destruct x as [s|s| |s m e]; try discriminate; [reflexivity|].
  intros _. unfold trunc.
  destruct (0 <=? e) eqn:He.
  - cbn [isInteger]. rewrite He. reflexivity.
  - apply Z.leb_gt in He.
    assert (Hk : 0 <= - e) by lia.
    rewrite (Z.shiftl_mul_pow2 _ _ Hk).
    destruct (Z.shiftr (Z.pos m) (- e) * 2 ^ (- e)) as [|m'|m'] eqn:Hq;
      try reflexivity.
    cbn [isInteger]. rewrite <- Hq, Z.mod_mul.
    + apply orb_true_r.
    + apply Z.pow_nonzero; lia.
Qed.

Lemma genericDate_shape `{JsEngine} v :
  genericDate v = VNull \/ exists t, genericDate v = VDate t.
Proof. unfold genericDate. destruct (isNaN (newDate v)); eauto. Qed.

Lemma epochRule_shape `{JsEngine} n r :
  epochRule n = Some r -> r = VNull \/ exists t, r = VDate t.
Proof.
  unfold epochRule.
  repeat match goal with
         | |- context [if ?b then _ else _] => destruct b
         end; intros [= <-]; eauto.
Qed.

(** The date sanitizer returns null or a Date, whatever it is given. *)
Lemma toJsDate_shape `{JsEngine} v :
  toJsDate v = VNull \/ exists t, toJsDate v = VDate t.
Proof.
  destruct v as [| |b|n|s|t|c]; try (left; reflexivity);
    try (apply genericDate_shape).
  - rewrite toJsDate_number. destruct (epochRule n) as [r|] eqn:Hr.
    + exact (epochRule_shape _ _ Hr).
    + apply genericDate_shape.
  - destruct s as [|a r]; [left; reflexivity|].
    unfold toJsDate. destruct (isAllDigitsStr (String a r)).
    + destruct (epochRule (stringToNumber (String a r))) as [r'|] eqn:Hr.
      * exact (epochRule_shape _ _ Hr).
      * apply genericDate_shape.
    + apply genericDate_shape.
  - right. eauto.
Qed.

Lemma toBoolean_shape `{JsEngine} flag v :
  toBoolean flag v = VNull \/ exists b, toBoolean flag v = VBool b.
Proof.
  unfold toBoolean.
  destruct (isNullish (emptyStringToNull flag v)); [left; reflexivity|].
  destruct (emptyStringToNull flag v); eauto;
    repeat match goal with
           | |- context [if ?b then _ else _] => destruct b
           end; eauto.
Qed.

(** X10.  Whatever a cell holds, the sanitizer of its class produces a
    canonical value of the class: null or a Date for date, null or a
    boolean for boolean, null or an integral number for int, null or a
    finite number for float, null or a trimmed string that matches the
    decimal pattern for decimal.  The one exception is a finite number in a
    decimal column, which is printed as the engine prints numbers. *)
Theorem sanitize_output_canonical `{JsEngine} (flag : bool) (kind : Kind)
    (v v' : JsValue) :
  sanitize flag kind v = Some v' ->
  canonical kind v' = true
  \/ (kind = KDecimal
      /\ exists n, v = VNum n /\ isFinite n = true /\ v' = VStr (numberToString n)).
Proof.
  destruct kind; cbn [sanitize]; intros [= <-].
  - left. destruct (toJsDate_shape v) as [->|[t ->]]; reflexivity.
  - left. destruct (toBoolean_shape flag v) as [->|[b ->]]; reflexivity.
  - left. unfold toFloatOrNull.
    destruct (isNullish (emptyStringToNull flag v)); [reflexivity|].
    destruct (emptyStringToNull flag v) as [| |b|n|s|t|c]; try reflexivity.
    + destruct (isFinite n) eqn:Hn; [exact Hn | reflexivity].
    + destruct (isFinite (stringToNumber s)) eqn:Hn; [exact Hn | reflexivity].
  - unfold toDecimalStringOrNull.
    destruct v as [| |b|n|s|t|c];
      try (left; destruct flag; reflexivity).
    + rewrite emptyStringToNull_not_string by congruence. cbn [isNullish].
      destruct (isFinite n) eqn:Hn; [|left; reflexivity].
      right. split; [reflexivity|]. exists n. split_and!; [reflexivity | exact Hn | reflexivity].
    + left. rewrite emptyStringToNull_string.
      destruct (flag && isBlank s); [reflexivity|]. cbn [isNullish].
      destruct (isDecimalText (trim s)) eqn:Hd; [|reflexivity].
      cbn [canonical]. rewrite Hd, trim_idem, String.eqb_refl. reflexivity.
  - left. unfold toIntOrNull.
    destruct (isNullish (emptyStringToNull flag v)); [reflexivity|].
    destruct (emptyStringToNull flag v) as [| |b|n|s|t|c]; try reflexivity.
    + destruct (isFinite n) eqn:Hn; [exact (trunc_isInteger _ Hn) | reflexivity].
    + destruct (isFinite (stringToNumber s)) eqn:Hn;
        [exact (trunc_isInteger _ Hn) | reflexivity].
Qed.

Lemma sanitize_output_canonical_witness :
  @sanitize Demo.engine true KInt (VStr " 42.9 ") = Some (VNum (ofZ 42))
  /\ (canonical KInt (VNum (ofZ 42)) = true
      \/ (KInt = KDecimal
          /\ exists n, VStr " 42.9 " = VNum n /\ isFinite n = true
                       /\ VNum (ofZ 42) = VStr (@numberToString Demo.engine n))).
Proof.
  split; [vm_compute; reflexivity|].
  apply (@sanitize_output_canonical Demo.engine true KInt (VStr " 42.9 ")).
  vm_compute. reflexivity.
Defined.

(** ** Batch Copier: the rows that reach the destination *)

Section CopyRows.
Context {Pg E : Type} {dest : Destination Pg E} {eng : JsEngine}.
Variable cfg : Config.
Variable src : Source.
Variable table : string.

Lemma insertedRows_rowInserts (rows : list Row) :
  insertedRows (map (rowInsert table true) rows) = rows.
Proof.
  induction rows as [|row rows IH]; [reflexivity|].
  unfold insertedRows in *. cbn [map flat_map rowInsert app]. rewrite IH. reflexivity.
Qed.

Lemma insertedRows_rejected rows : insertedRows [EBulkInsert table rows false] = [].
Proof. reflexivity. Qed.

Lemma insertOk_rowInserts (rows : list Row) :
  Forall (fun ev => insertOk ev = true) (map (rowInsert table true) rows).
Proof. induction rows; constructor; [reflexivity | assumption]. Qed.

(** The rows that the destination accepts from a page are the first rows
    of the page; a rejected insert makes the page throw. *)
Lemma insertPage_accepted coerced (s : St Pg) :
  let r := insertPage cfg table coerced s in
  insertedRows (events r) `prefix_of` coerced
  /\ (Forall (fun ev => insertOk ev = true) (events r)
      \/ exists e, outcome r = Threw (DbError e)).
Proof.
  cbv zeta.
  destruct (pg_bulkInsert (PG_SCHEMA cfg) table coerced (pg s)) as [e|db] eqn:Hins.
  - destruct (insertPage_fail cfg table coerced s e Hins) as (_ & Hoff & Hon).
    destruct (DEBUG_ON_ERROR cfg).
    + destruct (Hon eq_refl) as [[Hout Hev] | (k & row & e' & _ & Hout & Hev & _)].
      * rewrite Hev. split; [|right; eauto].
        change (insertedRows (EBulkInsert table coerced false
                              :: map (rowInsert table true) coerced))
          with (insertedRows (map (rowInsert table true) coerced)).
        rewrite insertedRows_rowInserts. reflexivity.
      * rewrite Hev. split; [|right; eauto].
        change (insertedRows (EBulkInsert table coerced false
                  :: map (rowInsert table true) (take k coerced)
                  ++ [rowInsert table false row]))
          with (insertedRows (map (rowInsert table true) (take k coerced)
                              ++ [rowInsert table false row])).
        rewrite insertedRows_app, insertedRows_rowInserts.
        unfold rowInsert. rewrite insertedRows_rejected, app_nil_r.
        exists (drop k coerced). symmetry. apply take_drop.
    + rewrite (Hoff eq_refl). cbn [events outcome]. split; [|right; eauto].
      rewrite insertedRows_rejected. apply prefix_nil.
  - rewrite (insertPage_ok cfg table coerced s db Hins). cbn [events outcome].
    split.
    + unfold insertedRows. cbn [flat_map]. rewrite app_nil_r. reflexivity.
    + left. constructor; [reflexivity | constructor].
Qed.

Lemma coercePage_fetchPage typesByCol offset :
  (coercePage (TREAT_EMPTY_STRING_AS_NULL cfg) typesByCol (fetchPage cfg src table offset)
   ++ coercePage (TREAT_EMPTY_STRING_AS_NULL cfg) typesByCol
        (drop (offset + length (fetchPage cfg src table offset)) (src_rows src table)))%list
  = coercePage (TREAT_EMPTY_STRING_AS_NULL cfg) typesByCol (drop offset (src_rows src table)).
Proof.
  unfold coercePage. rewrite <- map_app. f_equal.
  rewrite <- (drop_drop (src_rows src table)
                (length (fetchPage cfg src table offset)) offset).
  apply take_drop_length.
Qed.

(** The copy loop from an offset on: the destination accepts the sanitized
    rows in the order of the source, without gap and without repetition,
    and a rejected insert makes the loop throw. *)
Lemma copyLoop_accepted typesByCol fuel : forall offset (s : St Pg),
  let r := copyLoop cfg src table (length (src_rows src table)) typesByCol fuel offset s in
  insertedRows (events r)
    `prefix_of` coercePage (TREAT_EMPTY_STRING_AS_NULL cfg) typesByCol
                           (drop offset (src_rows src table))
  /\ (Forall (fun ev => insertOk ev = true) (events r)
      \/ exists e, outcome r = Threw (DbError e)).
Proof.
  induction fuel as [|fuel IH]; intros offset s; cbv zeta;
    rewrite copyLoop_unfold;
    destruct (Nat.leb_spec (length (src_rows src table)) offset) as [Hdone|Hmore].
  1, 2, 3: (split; [apply prefix_nil | left; constructor]).
  set (page := fetchPage cfg src table offset).
  set (coerced := coercePage (TREAT_EMPTY_STRING_AS_NULL cfg) typesByCol page).
  rewrite emit_bind, bind_unfold.
  destruct (insertPage_accepted coerced s) as [Hpre Hrej].
  destruct (insertPage_spec cfg table coerced s) as (_ & _ & Hret & _ & Hfuel).
  assert (Hwhole : coerced `prefix_of`
            coercePage (TREAT_EMPTY_STRING_AS_NULL cfg) typesByCol
                       (drop offset (src_rows src table))).
  { rewrite <- (coercePage_fetchPage typesByCol offset). apply prefix_app_r. reflexivity. }
  destruct (outcome (insertPage cfg table coerced s)) as [[]|err|] eqn:Hout.
  - specialize (IH (offset + length page)%nat (final (insertPage cfg table coerced s))).
    cbv zeta in IH. destruct IH as [IHpre IHrej].
    cbn [events final outcome]. rewrite (Hret eq_refl). split.
    + change (insertedRows (EFetch table offset :: [EBulkInsert table coerced true] ++ ?evs))
        with (coerced ++ insertedRows evs)%list.
      rewrite <- (coercePage_fetchPage typesByCol offset).
      apply prefix_app. exact IHpre.
    + destruct IHrej as [Hok | Hthrew]; [left | right; exact Hthrew].
      constructor; [reflexivity|]. constructor; [reflexivity | exact Hok].
  - cbn [events final outcome]. split.
    + change (insertedRows (EFetch table offset :: ?evs)) with (insertedRows evs).
      etransitivity; [exact Hpre | exact Hwhole].
    + destruct Hrej as [Hok | [e He]].
      * left. constructor; [reflexivity | exact Hok].
      * right. exists e. exact He.
  - contradiction.
Qed.

(** The loop ends within as many iterations as there are pages. *)
Lemma copyLoop_pages typesByCol fuel : forall offset (s : St Pg),
  (length (src_rows src table) <= offset + fuel * BATCH_SIZE cfg)%nat ->
  outcome (copyLoop cfg src table (length (src_rows src table)) typesByCol fuel offset s)
  <> OutOfFuel.
Proof.
  induction fuel as [|fuel IH]; intros offset s Hfuel;
    rewrite copyLoop_unfold;
    destruct (Nat.leb_spec (length (src_rows src table)) offset) as [Hdone|Hmore];
    try discriminate.
  - cbn in Hfuel. lia.
  - rewrite emit_bind, bind_unfold.
    set (page := fetchPage cfg src table offset).
    set (coerced := coercePage (TREAT_EMPTY_STRING_AS_NULL cfg) typesByCol page).
    destruct (insertPage_spec cfg table coerced s) as (_ & _ & _ & _ & Hnofuel).
    destruct (outcome (insertPage cfg table coerced s)) as [[]|err|] eqn:Hout;
      cbn [outcome]; [| discriminate | contradiction].
    apply IH. unfold page, fetchPage. rewrite length_take, length_drop. lia.
Qed.

(** With pages of no row the loop never gets past its first offset. *)
Lemma copyLoop_stuck typesByCol fuel : forall offset (s : St Pg),
  BATCH_SIZE cfg = 0%nat ->
  (offset < length (src_rows src table))%nat ->
  outcome (copyLoop cfg src table (length (src_rows src table)) typesByCol fuel offset s)
  <> Returned tt.
Proof.
  induction fuel as [|fuel IH]; intros offset s Hzero Hmore;
    rewrite copyLoop_unfold;
    destruct (Nat.leb_spec (length (src_rows src table)) offset) as [Hdone|_];
    try lia; try discriminate.
  rewrite emit_bind, bind_unfold.
  assert (Hpage : fetchPage cfg src table offset = []).
  { unfold fetchPage. rewrite Hzero. reflexivity. }
  rewrite Hpage.
  destruct (outcome (insertPage cfg table
                       (coercePage (TREAT_EMPTY_STRING_AS_NULL cfg) typesByCol []) s))
    as [[]|err|]; cbn [outcome length]; try discriminate.
  rewrite Nat.add_0_r. apply IH; assumption.
Qed.

End CopyRows.

(** X11.  Whatever happens during the copy of a table, the rows that the
    destination has accepted are the first sanitized rows of the source, in
    the order of the source, none skipped and none twice (also when the
    row-by-row fallback took over); they are all the rows when the copy
    returns.  The classification of the columns is only read. *)
Theorem copyTableData_accepted_rows {Pg E : Type} {dest : Destination Pg E}
    {eng : JsEngine} (cfg : Config) (src : Source) (fuel : nat) (table : string)
    (s : St Pg) :
  let r := copyTableData cfg src fuel table s in
  let sanitized :=
    coercePage (TREAT_EMPTY_STRING_AS_NULL cfg) (default ∅ (tableMeta s !! table))
               (src_rows src table) in
  insertedRows (events r) `prefix_of` sanitized
  /\ (outcome r = Returned tt -> insertedRows (events r) = sanitized)
  /\ tableMeta (final r) = tableMeta s.
Proof.
  cbv zeta. rewrite copyTableData_run.
  destruct (Nat.eqb_spec (length (src_rows src table)) 0) as [Hzero|Hmore].
  - apply nil_length_inv in Hzero. rewrite Hzero. cbn [events final outcome].
    split_and!; reflexivity.
  - cbv zeta. cbn [events final outcome].
    destruct (copyLoop_spec cfg src table (default ∅ (tableMeta s !! table)) fuel 0 s)
      as (Hmeta & _ & Hret & _).
    destruct (copyLoop_accepted cfg src table (default ∅ (tableMeta s !! table)) fuel 0 s)
      as [Hpre _].
    rewrite drop_0 in Hpre, Hret.
    split_and!.
    + exact Hpre.
    + intros Hr. exact (proj2 (Hret Hr)).
    + exact Hmeta.
Qed.

(** X12.  The number of iterations of the copy loop is the number of
    pages: a bound of that many iterations is never hit.  With a batch
    size of 0 every page is empty, the offset stays at 0, and the copy of a
    table that has rows never returns: it throws, or it loops for ever. *)
Theorem copyTableData_pages {Pg E : Type} {dest : Destination Pg E}
    {eng : JsEngine} (cfg : Config) (src : Source) (fuel : nat) (table : string)
    (s : St Pg) :
  let r := copyTableData cfg src fuel table s in
  ((length (src_rows src table) <= fuel * BATCH_SIZE cfg)%nat -> outcome r <> OutOfFuel)
  /\ (BATCH_SIZE cfg = 0%nat -> src_rows src table <> [] -> outcome r <> Returned tt).
Proof.
  cbv zeta. rewrite copyTableData_run.
  destruct (Nat.eqb_spec (length (src_rows src table)) 0) as [Hzero|Hmore].
  - apply nil_length_inv in Hzero. split; [discriminate | contradiction].
  - cbv zeta. cbn [outcome]. split.
    + intros Hfuel. apply copyLoop_pages. exact Hfuel.
    + intros Hb _. apply copyLoop_stuck; [exact Hb | lia].
Qed.

(** ** DDL: what a table creation records and requests *)

Lemma filter_all {A} (p : A -> bool) (l : list A) :
  Forall (fun x => p x = true) l -> List.filter p l = l.
Proof.
  induction 1 as [|x l Hx _ IH]; [reflexivity|].
  cbn [List.filter]. rewrite Hx, IH. reflexivity.
Qed.

Section DdlRuns.
Context {Pg E : Type} {dest : Destination Pg E} {eng : JsEngine}.
Variable cfg : Config.
Variable src : Source.
Variable table : string.

(** The loop over the indexes requests the unique indexes, in the order
    of the source, up to the first request that fails. *)
Lemma indexLoop_requests (idxs : list IndexInfo) : forall (s : St Pg),
  let r := forEach
             (fun idx =>
                if idx_unique idx then
                  emit (EAddIndex table (idx_name idx)) ;;
                  dbCall (pg_addIndex (PG_SCHEMA cfg) table (idx_columns idx) (idx_name idx))
                else ret tt)
             idxs s in
  events r `prefix_of` map (fun idx => EAddIndex table (idx_name idx))
                            (List.filter idx_unique idxs)
  /\ (outcome r = Returned tt ->
        events r = map (fun idx => EAddIndex table (idx_name idx))
                       (List.filter idx_unique idxs)).
Proof.
  induction idxs as [|idx idxs IH]; intros s; cbv zeta.
  - split; reflexivity.
  - rewrite forEach_cons, bind_unfold. cbn [List.filter].
    destruct (idx_unique idx).
    + rewrite emit_bind, dbCall_run.
      destruct (pg_addIndex (PG_SCHEMA cfg) table (idx_columns idx) (idx_name idx) (pg s))
        as [e|db]; cbn [events final outcome map].
      * split; [|discriminate].
        apply (prefix_app [EAddIndex table (idx_name idx)] []), prefix_nil.
      * destruct (IH {| pg := db; tableMeta := tableMeta s |}) as [Hpre Hret].
        split.
        -- apply (prefix_app [EAddIndex table (idx_name idx)]). exact Hpre.
        -- intros Hr. cbn [app]. f_equal. exact (Hret Hr).
    + cbn [ret events final outcome app]. exact (IH s).
Qed.

End DdlRuns.

(** X13.  The creation of a table touches the classification of that table
    only, and when it returns, the classification it has recorded is the
    one of the column types that the destination itself reports for the
    table it has just created, not one derived from the types of the
    source. *)
Theorem createPgTableFromSqlite_records {Pg E : Type} {dest : Destination Pg E}
    {eng : JsEngine} (cfg : Config) (src : Source) (table : string) (s : St Pg) :
  let r := createPgTableFromSqlite cfg src table s in
  (forall t, t <> table -> tableMeta (final r) !! t = tableMeta s !! t)
  /\ (outcome r = Returned tt ->
        exists db desc,
          pg_sync (PG_SCHEMA cfg) table (attrsOf (src_columns src table)) (pg s) = inr db
          /\ pg_describeTable (PG_SCHEMA cfg) table db = inr desc
          /\ tableMeta (final r) !! table = Some (classifyPgType <$> desc)).
Proof.
  cbv zeta. rewrite createPgTableFromSqlite_run.
  destruct (pg_sync (PG_SCHEMA cfg) table (attrsOf (src_columns src table)) (pg s))
    as [e|db]; [split; [reflexivity | discriminate]|].
  destruct (pg_describeTable (PG_SCHEMA cfg) table db) as [e|desc] eqn:Hdesc;
    [split; [reflexivity | discriminate]|].
  cbv zeta. cbn [events final outcome].
  destruct (indexLoop_spec cfg table (src_indexes src table)
              {| pg := db; tableMeta := <[table := classifyPgType <$> desc]> (tableMeta s) |})
    as [_ Hmeta].
  cbv zeta in Hmeta. cbn [tableMeta] in Hmeta. rewrite Hmeta. split.
  - intros t Ht. apply lookup_insert_ne. congruence.
  - intros _. exists db, desc. split_and!; [reflexivity | exact Hdesc |].
    apply lookup_insert_eq.
Qed.

(** X14.  Of the indexes of the source, only the unique ones are recreated:
    the index requests of a table creation are the unique indexes of the
    source table, by name and in the order of the source, up to the first
    request that fails, and all of them when the creation returns. *)
Theorem createPgTableFromSqlite_unique_indexes {Pg E : Type}
    {dest : Destination Pg E} {eng : JsEngine} (cfg : Config) (src : Source)
    (table : string) (s : St Pg) :
  let r := createPgTableFromSqlite cfg src table s in
  let requests := map (fun idx => EAddIndex table (idx_name idx))
                      (List.filter idx_unique (src_indexes src table)) in
  List.filter isIndexEvent (events r) `prefix_of` requests
  /\ (outcome r = Returned tt -> List.filter isIndexEvent (events r) = requests).
Proof.
  cbv zeta. rewrite createPgTableFromSqlite_run.
  destruct (pg_sync (PG_SCHEMA cfg) table (attrsOf (src_columns src table)) (pg s))
    as [e|db]; [split; [apply prefix_nil | discriminate]|].
  destruct (pg_describeTable (PG_SCHEMA cfg) table db) as [e|desc];
    [split; [apply prefix_nil | discriminate]|].
  cbv zeta. cbn [events final outcome List.filter isIndexEvent].
  destruct (indexLoop_requests cfg table (src_indexes src table)
              {| pg := db; tableMeta := <[table := classifyPgType <$> desc]> (tableMeta s) |})
    as [Hpre Hret].
  cbv zeta in Hpre, Hret.
  match goal with
  | |- context [List.filter isIndexEvent (events ?r)] =>
      assert (Hall : List.filter isIndexEvent (events r) = events r)
  end.
  { apply filter_all. destruct Hpre as [k Hk].
    assert (Hreq : Forall (fun ev => isIndexEvent ev = true)
                     (map (fun idx => EAddIndex table (idx_name idx))
                          (List.filter idx_unique (src_indexes src table)))).
    { apply Forall_forall. intros ev Hev.
      apply list_elem_of_fmap in Hev as (idx & -> & _). reflexivity. }
    rewrite Hk in Hreq. apply Forall_app in Hreq as [Hreq _]. exact Hreq. }
  rewrite Hall. split; [exact Hpre | exact Hret].
Qed.

(** ** Main control flow: the three phases as a whole *)

Section MainRuns.
Context {Pg E : Type} {dest : Destination Pg E} {eng : JsEngine}.
Variable cfg : Config.
Variable src : Source.

Lemma loopEvent_copy table typesByCol ev :
  loopEvent cfg src table typesByCol ev -> isCopyEvent ev = true.
Proof. intros [[offset ->] | (rows & ok & -> & _)]; reflexivity. Qed.

Lemma copyTableData_facts fuel table (s : St Pg) :
  let r := copyTableData cfg src fuel table s in
  tableMeta (final r) = tableMeta s
  /\ Forall (fun ev => isCopyEvent ev = true) (events r)
  /\ (Forall (fun ev => insertOk ev = true) (events r)
      \/ exists e, outcome r = Threw (DbError e))
  /\ insertedRows (events r) `prefix_of` sanitizedRows cfg src s table
  /\ (outcome r = Returned tt -> insertedRows (events r) = sanitizedRows cfg src s table).
Proof.
  cbv zeta. unfold sanitizedRows. rewrite copyTableData_run.
  destruct (Nat.eqb_spec (length (src_rows src table)) 0) as [Hzero|Hmore].
  - apply nil_length_inv in Hzero. rewrite Hzero. cbn [events final outcome].
    split_and!; try reflexivity.
    + repeat constructor.
    + left. repeat constructor.
  - cbv zeta. cbn [events final outcome].
    destruct (copyLoop_spec cfg src table (default ∅ (tableMeta s !! table)) fuel 0 s)
      as (Hmeta & Hevs & Hret & _).
    destruct (copyLoop_accepted cfg src table (default ∅ (tableMeta s !! table)) fuel 0 s)
      as [Hpre Hrej].
    rewrite drop_0 in Hpre, Hret.
    split_and!.
    + exact Hmeta.
    + constructor; [reflexivity|]. constructor; [reflexivity|].
      eapply Forall_impl; [exact Hevs|]. intros ev. apply loopEvent_copy.
    + destruct Hrej as [Hok|Hthrew]; [left | right; exact Hthrew].
      constructor; [reflexivity|]. constructor; [reflexivity | exact Hok].
    + exact Hpre.
    + intros Hr. exact (proj2 (Hret Hr)).
Qed.

Lemma copyAll_facts fuel (tables : list string) : forall (s : St Pg),
  let r := forEach (copyTableData cfg src fuel) tables s in
  tableMeta (final r) = tableMeta s
  /\ Forall (fun ev => isCopyEvent ev = true) (events r)
  /\ (Forall (fun ev => insertOk ev = true) (events r)
      \/ exists e, outcome r = Threw (DbError e))
  /\ insertedRows (events r) `prefix_of` flat_map (sanitizedRows cfg src s) tables
  /\ (outcome r = Returned tt -> insertedRows (events r) = flat_map (sanitizedRows cfg src s) tables).
Proof.
  induction tables as [|t tables IH]; intros s; cbv zeta.
  - cbn [forEach ret events final outcome flat_map].
    split_and!; try reflexivity; [constructor | left; constructor].
  - rewrite forEach_cons, bind_unfold.
    destruct (copyTableData_facts fuel t s) as (Hmeta & Hevs & Hrej & Hpre & Hret).
    cbv zeta in Hmeta, Hevs, Hrej, Hpre, Hret.
    cbn [flat_map].
    destruct (outcome (copyTableData cfg src fuel t s)) as [[]|err|] eqn:Hout.
    + specialize (IH (final (copyTableData cfg src fuel t s))).
      cbv zeta in IH. destruct IH as (IHmeta & IHevs & IHrej & IHpre & IHret).
      assert (Hsame : flat_map (sanitizedRows cfg src (final (copyTableData cfg src fuel t s))) tables
                      = flat_map (sanitizedRows cfg src s) tables).
      { unfold sanitizedRows. rewrite Hmeta. reflexivity. }
      rewrite Hsame in IHpre, IHret.
      cbn [events final outcome]. rewrite insertedRows_app, (Hret eq_refl).
      split_and!.
      * rewrite IHmeta. exact Hmeta.
      * apply Forall_app. split; assumption.
      * destruct Hrej as [Hok | [e He]]; [|discriminate].
        destruct IHrej as [IHok | IHthrew]; [left | right; exact IHthrew].
        apply Forall_app. split; assumption.
      * apply prefix_app. exact IHpre.
      * intros Hr. rewrite (IHret Hr). reflexivity.
    + cbn [events final outcome]. split_and!.
      * exact Hmeta.
      * exact Hevs.
      * destruct Hrej as [Hok | [e He]]; [left; exact Hok | right; eauto].
      * etransitivity; [exact Hpre|]. apply prefix_app_r. reflexivity.
      * discriminate.
    + cbn [events final outcome]. split_and!.
      * exact Hmeta.
      * exact Hevs.
      * destruct Hrej as [Hok | [e He]]; [left; exact Hok | discriminate].
      * etransitivity; [exact Hpre|]. apply prefix_app_r. reflexivity.
      * discriminate.
Qed.

(** The constraint linker does not touch the classifications. *)
Lemma addForeignKeysForTable_meta table (s : St Pg) :
  tableMeta (final (addForeignKeysForTable cfg src table s)) = tableMeta s.
Proof.
  unfold addForeignKeysForTable.
  destruct (length (src_foreign_keys src table) =? 0)%nat; [reflexivity|].
  apply (forEach_invariant _ (fun _ => True)
           (fun s1 s2 : St Pg => tableMeta s2 = tableMeta s1));
    [reflexivity | intros s1 s2 s3 H12 H23; congruence |].
  intros [id parts] s0 _.
  destruct parts as [|p0 parts]; [split; [constructor | reflexivity]|].
  rewrite emit_bind, !dbCall_run.
  destruct (pg_addConstraint _ _ _ _); split; repeat constructor.
Qed.

Lemma addAll_meta (tables : list string) (s : St Pg) :
  tableMeta (final (forEach (addForeignKeysForTable cfg src) tables s)) = tableMeta s.
Proof.
  apply (forEach_invariant _ (fun _ => True)
           (fun s1 s2 : St Pg => tableMeta s2 = tableMeta s1));
    [reflexivity | intros s1 s2 s3 H12 H23; congruence |].
  intros t s0 _. split; [|apply addForeignKeysForTable_meta].
  apply Forall_forall. intros; exact I.
Qed.

(** The run of [main], phase by phase. *)
Lemma main_run fuel (s : St Pg) :
  main cfg src fuel s
  = match pg_createSchema (PG_SCHEMA cfg) (pg s) with
    | inl e => {| events := [ECreateSchema (PG_SCHEMA cfg)];
                  final := s; outcome := Threw (DbError e) |}
    | inr db =>
        let s1 := {| pg := db; tableMeta := tableMeta s |} in
        let tables := selectedTables cfg src in
        if (length tables =? 0)%nat
        then {| events := [ECreateSchema (PG_SCHEMA cfg)];
                final := s1; outcome := Returned tt |}
        else
          let r1 := forEach (createPgTableFromSqlite cfg src) tables s1 in
          match outcome r1 with
          | Returned _ =>
              let r2 := forEach (copyTableData cfg src fuel) tables (final r1) in
              match outcome r2 with
              | Returned _ =>
                  let r3 := (if ADD_FOREIGN_KEYS cfg
                             then forEach (addForeignKeysForTable cfg src) tables
                             else ret tt) (final r2) in
                  {| events := ECreateSchema (PG_SCHEMA cfg)
                               :: events r1 ++ events r2 ++ events r3;
                     final := final r3; outcome := outcome r3 |}
              | Threw e =>
                  {| events := ECreateSchema (PG_SCHEMA cfg) :: events r1 ++ events r2;
                     final := final r2; outcome := Threw e |}
              | OutOfFuel =>
                  {| events := ECreateSchema (PG_SCHEMA cfg) :: events r1 ++ events r2;
                     final := final r2; outcome := OutOfFuel |}
              end
          | Threw e =>
              {| events := ECreateSchema (PG_SCHEMA cfg) :: events r1;
                 final := final r1; outcome := Threw e |}
          | OutOfFuel =>
              {| events := ECreateSchema (PG_SCHEMA cfg) :: events r1;
                 final := final r1; outcome := OutOfFuel |}
          end
    end.
Proof.
  unfold main, ensurePgSchema. rewrite bind_unfold, emit_bind, !dbCall_run.
  destruct (pg_createSchema (PG_SCHEMA cfg) (pg s)) as [e|db]; [reflexivity|].
  cbn [events final outcome]. cbv zeta.
  destruct (length (selectedTables cfg src) =? 0)%nat; [reflexivity|].
  rewrite bind_unfold.
  destruct (outcome (forEach (createPgTableFromSqlite cfg src) (selectedTables cfg src)
                       {| pg := db; tableMeta := tableMeta s |})) as [[]|e|];
    try reflexivity.
  rewrite bind_unfold.
  destruct (outcome (forEach (copyTableData cfg src fuel) (selectedTables cfg src) _))
    as [[]|e|]; reflexivity.
Qed.

Lemma ddl_no_rows evs :
  Forall (fun ev => isDdlEvent ev = true) evs -> insertedRows evs = [].
Proof.
  induction 1 as [|ev evs Hev _ IH]; [reflexivity|].
  unfold insertedRows in *. cbn [flat_map]. rewrite IH.
  destruct ev; try discriminate; reflexivity.
Qed.

Lemma fk_no_rows evs :
  Forall (fun ev => isFkEvent ev = true) evs -> insertedRows evs = [].
Proof.
  induction 1 as [|ev evs Hev _ IH]; [reflexivity|].
  unfold insertedRows in *. cbn [flat_map]. rewrite IH.
  destruct ev; try discriminate; reflexivity.
Qed.

Lemma ddl_not_fk evs :
  Forall (fun ev => isDdlEvent ev = true) evs -> Forall (fun ev => isFkEvent ev = false) evs.
Proof.
  intros Hevs. eapply Forall_impl; [exact Hevs|].
  intros ev; destruct ev; try discriminate; reflexivity.
Qed.

Lemma copy_not_fk evs :
  Forall (fun ev => isCopyEvent ev = true) evs -> Forall (fun ev => isFkEvent ev = false) evs.
Proof.
  intros Hevs. eapply Forall_impl; [exact Hevs|].
  intros ev; destruct ev; try discriminate; reflexivity.
Qed.

Lemma ddl_insertOk evs :
  Forall (fun ev => isDdlEvent ev = true) evs -> Forall (fun ev => insertOk ev = true) evs.
Proof.
  intros Hevs. eapply Forall_impl; [exact Hevs|].
  intros ev; destruct ev; try discriminate; reflexivity.
Qed.

Lemma fk_insertOk evs :
  Forall (fun ev => isFkEvent ev = true) evs -> Forall (fun ev => insertOk ev = true) evs.
Proof.
  intros Hevs. eapply Forall_impl; [exact Hevs|].
  intros ev; destruct ev; try discriminate; reflexivity.
Qed.

Lemma linkPhase_events (tables : list string) (s : St Pg) :
  Forall (fun ev => isFkEvent ev = true)
         (events ((if ADD_FOREIGN_KEYS cfg
                   then forEach (addForeignKeysForTable cfg src) tables
                   else ret tt) s)).
Proof. destruct (ADD_FOREIGN_KEYS cfg); [apply addAll_events | constructor]. Qed.

Lemma linkPhase_meta (tables : list string) (s : St Pg) :
  tableMeta (final ((if ADD_FOREIGN_KEYS cfg
                     then forEach (addForeignKeysForTable cfg src) tables
                     else ret tt) s)) = tableMeta s.
Proof. destruct (ADD_FOREIGN_KEYS cfg); [apply addAll_meta | reflexivity]. Qed.

End MainRuns.

(** X15.  When the migration returns, the destination has accepted, table
    after table in the order of the selected tables, every row of every
    selected table, each one sanitized by the classification that the DDL
    phase recorded for its table, and nothing else. *)
Theorem main_copies_every_row {Pg E : Type} {dest : Destination Pg E}
    {eng : JsEngine} (cfg : Config) (src : Source) (fuel : nat) (s : St Pg) :
  let r := main cfg src fuel s in
  outcome r = Returned tt ->
  insertedRows (events r)
  = flat_map (sanitizedRows cfg src (final r)) (selectedTables cfg src).
Proof.
  cbv zeta. rewrite main_run.
  destruct (pg_createSchema (PG_SCHEMA cfg) (pg s)) as [e|db]; [discriminate|].
  cbv zeta.
  destruct (Nat.eqb_spec (length (selectedTables cfg src)) 0) as [Hnone|Hsome].
  { apply nil_length_inv in Hnone. rewrite Hnone. reflexivity. }
  set (tables := selectedTables cfg src).
  set (s1 := {| pg := db; tableMeta := tableMeta s |}).
  destruct (createAll_spec cfg src tables s1) as (Hddl & _ & _).
  cbv zeta in Hddl.
  destruct (outcome (forEach (createPgTableFromSqlite cfg src) tables s1))
    as [[]|e|]; try discriminate.
  set (s2 := final (forEach (createPgTableFromSqlite cfg src) tables s1)) in *.
  destruct (copyAll_facts cfg src fuel tables s2) as (Hmeta & _ & _ & _ & Hret).
  cbv zeta in Hmeta, Hret.
  destruct (outcome (forEach (copyTableData cfg src fuel) tables s2))
    as [[]|e|]; try discriminate.
  cbn [events final outcome]. intros _.
  change (insertedRows (ECreateSchema (PG_SCHEMA cfg) :: ?evs)) with (insertedRows evs).
  rewrite !insertedRows_app, (ddl_no_rows _ Hddl), (Hret eq_refl),
    (fk_no_rows _ (linkPhase_events cfg src tables _)), app_nil_r.
  unfold sanitizedRows. rewrite linkPhase_meta, Hmeta. reflexivity.
Qed.

Section MainExamples.
Import Demo.

Lemma main_copies_every_row_witness :
  outcome (main config (sourceWith [alice; blank]) 1 emptyState) = Returned tt
  /\ insertedRows (events (main config (sourceWith [alice; blank]) 1 emptyState))
     = coercePage true usersTypes [alice; blank].
Proof.
  split; [vm_compute; reflexivity|].
  rewrite (main_copies_every_row config (sourceWith [alice; blank]) 1 emptyState)
    by (vm_compute; reflexivity).
  vm_compute. reflexivity.
Defined.

End MainExamples.

(** X16.  Foreign keys come last or not at all.  No constraint is
    requested when [ADD_FOREIGN_KEYS] is off; and as soon as the
    destination rejects an insert, the migration throws an error of the
    destination without requesting any constraint: it neither goes on to
    the next table nor returns. *)
Theorem main_foreign_keys_last {Pg E : Type} {dest : Destination Pg E}
    {eng : JsEngine} (cfg : Config) (src : Source) (fuel : nat) (s : St Pg) :
  let r := main cfg src fuel s in
  (ADD_FOREIGN_KEYS cfg = false -> Forall (fun ev => isFkEvent ev = false) (events r))
  /\ (forall t rows, EBulkInsert t rows false ∈ events r ->
        (exists e, outcome r = Threw (DbError e))
        /\ Forall (fun ev => isFkEvent ev = false) (events r)).
Proof.
  cbv zeta. rewrite main_run.
  assert (Hrejected : forall t rows evs,
            EBulkInsert t rows false ∈ evs ->
            Forall (fun ev => insertOk ev = true) evs -> False).
  { intros t rows evs Hin Hok. rewrite Forall_forall in Hok.
    specialize (Hok _ Hin). discriminate. }
  destruct (pg_createSchema (PG_SCHEMA cfg) (pg s)) as [e|db].
  { split; [intros _; repeat constructor|].
    intros t rows Hin. exfalso. apply (Hrejected _ _ _ Hin). repeat constructor. }
  cbv zeta.
  destruct (length (selectedTables cfg src) =? 0)%nat.
  { split; [intros _; repeat constructor|].
    intros t rows Hin. exfalso. apply (Hrejected _ _ _ Hin). repeat constructor. }
  set (tables := selectedTables cfg src).
  set (s1 := {| pg := db; tableMeta := tableMeta s |}).
  destruct (createAll_spec cfg src tables s1) as (Hddl & _ & _).
  cbv zeta in Hddl.
  destruct (outcome (forEach (createPgTableFromSqlite cfg src) tables s1)) as [[]|e|].
  2, 3: (split;
         [ intros _; constructor; [reflexivity | exact (ddl_not_fk _ Hddl)]
         | intros t rows Hin; exfalso; apply (Hrejected _ _ _ Hin);
           constructor; [reflexivity | exact (ddl_insertOk _ Hddl)] ]).
  set (s2 := final (forEach (createPgTableFromSqlite cfg src) tables s1)) in *.
  destruct (copyAll_facts cfg src fuel tables s2) as (_ & Hcopy & Hrej & _ & _).
  cbv zeta in Hcopy, Hrej.
  pose proof (linkPhase_events cfg src tables
                (final (forEach (copyTableData cfg src fuel) tables s2))) as Hfk.
  destruct (outcome (forEach (copyTableData cfg src fuel) tables s2)) as [[]|e|];
    cbn [events final outcome].
  - split.
    + intros Hoff. rewrite Hoff. cbn [ret events]. rewrite app_nil_r.
      constructor; [reflexivity|]. apply Forall_app.
      split; [exact (ddl_not_fk _ Hddl) | exact (copy_not_fk _ Hcopy)].
    + intros t rows Hin. exfalso. apply (Hrejected _ _ _ Hin).
      destruct Hrej as [Hok | [e He]]; [|discriminate].
      constructor; [reflexivity|]. apply Forall_app. split; [exact (ddl_insertOk _ Hddl)|].
      apply Forall_app. split; [exact Hok | exact (fk_insertOk _ Hfk)].
  - assert (Hnofk : Forall (fun ev => isFkEvent ev = false)
                      (ECreateSchema (PG_SCHEMA cfg)
                       :: events (forEach (createPgTableFromSqlite cfg src) tables s1)
                       ++ events (forEach (copyTableData cfg src fuel) tables s2))).
    { constructor; [reflexivity|]. apply Forall_app.
      split; [exact (ddl_not_fk _ Hddl) | exact (copy_not_fk _ Hcopy)]. }
    split; [intros _; exact Hnofk|].
    intros t rows Hin. split; [|exact Hnofk].
    destruct Hrej as [Hok | [e' He']]; [|exists e'; exact He'].
    exfalso. apply (Hrejected _ _ _ Hin).
    constructor; [reflexivity|]. apply Forall_app. split; [exact (ddl_insertOk _ Hddl) | exact Hok].
  - assert (Hnofk : Forall (fun ev => isFkEvent ev = false)
                      (ECreateSchema (PG_SCHEMA cfg)
                       :: events (forEach (createPgTableFromSqlite cfg src) tables s1)
                       ++ events (forEach (copyTableData cfg src fuel) tables s2))).
    { constructor; [reflexivity|]. apply Forall_app.
      split; [exact (ddl_not_fk _ Hddl) | exact (copy_not_fk _ Hcopy)]. }
    split; [intros _; exact Hnofk|].
    intros t rows Hin. exfalso. apply (Hrejected _ _ _ Hin).
    destruct Hrej as [Hok | [e' He']]; [|discriminate].
    constructor; [reflexivity|]. apply Forall_app. split; [exact (ddl_insertOk _ Hddl) | exact Hok].
Qed.

(** ** The selection of the tables *)

Lemma inList_elem_of name (l : list string) : inList name l = true <-> name ∈ l.
Proof.
  unfold inList. rewrite existsb_exists. split.
  - intros (x & Hin & Heq). apply String.eqb_eq in Heq. subst x.
    apply list_elem_of_In. exact Hin.
  - intros Hin. exists name. split; [apply list_elem_of_In; exact Hin|].
    apply String.eqb_refl.
Qed.

(** X17.  A table is migrated exactly when the source lists it, its name
    does not start with sqlite_, it is on the include list or that list is
    empty, and it is not on the exclude list: a table on both lists is left
    out.  The selected tables keep the order of the source. *)
Theorem selectedTables_spec (cfg : Config) (src : Source) :
  (forall t, t ∈ selectedTables cfg src
     <-> t ∈ src_tables src
         /\ startsWith t "sqlite_" = false
         /\ (INCLUDE_TABLES cfg = [] \/ t ∈ INCLUDE_TABLES cfg)
         /\ t ∉ EXCLUDE_TABLES cfg)
  /\ selectedTables cfg src `sublist_of` src_tables src.
Proof.
  split.
  - intros t. unfold selectedTables.
    rewrite list_elem_of_In, filter_In, <- list_elem_of_In.
    unfold isInternalSqliteTable, wantsTable.
    rewrite andb_true_iff, negb_true_iff.
    assert (Hexcl : inList t (EXCLUDE_TABLES cfg) = true <-> t ∈ EXCLUDE_TABLES cfg)
      by apply inList_elem_of.
    assert (Hincl : inList t (INCLUDE_TABLES cfg) = true <-> t ∈ INCLUDE_TABLES cfg)
      by apply inList_elem_of.
    destruct (INCLUDE_TABLES cfg) as [|i incl] eqn:Hlist.
    + cbn [length Nat.eqb negb andb].
      destruct (inList t (EXCLUDE_TABLES cfg)); split.
      * intros (_ & _ & [=]).
      * intros (_ & _ & _ & Hn). exfalso. apply Hn, Hexcl. reflexivity.
      * intros (Hin & Hs & _). split_and!; auto. intros Hx. apply Hexcl in Hx. discriminate.
      * intros (Hin & Hs & _). auto.
    + cbn [length Nat.eqb negb andb].
      destruct (inList t (i :: incl)); cbn [negb].
      * destruct (inList t (EXCLUDE_TABLES cfg)); split.
        -- intros (_ & _ & [=]).
        -- intros (_ & _ & _ & Hn). exfalso. apply Hn, Hexcl. reflexivity.
        -- intros (Hin & Hs & _). split_and!; auto.
           ++ right. apply Hincl. reflexivity.
           ++ intros Hx. apply Hexcl in Hx. discriminate.
        -- intros (Hin & Hs & _). auto.
      * split.
        -- intros (_ & _ & [=]).
        -- intros (_ & _ & [[=] | Hi] & _). apply Hincl in Hi. discriminate.
  - unfold selectedTables.
    induction (src_tables src) as [|t ts IH]; [constructor|].
    cbn [List.filter].
    destruct (negb (isInternalSqliteTable t) && wantsTable cfg t).
    + apply sublist_skip. exact IH.
    + apply sublist_cons. exact IH.
Qed.

(** ** Constraint Linker: the groups and the requests *)

Lemma firstIds_snoc fks fk :
  firstIds (fks ++ [fk])
  = if existsb (Z.eqb (fk_id fk)) (firstIds fks) then firstIds fks
    else (firstIds fks ++ [fk_id fk])%list.
Proof. unfold firstIds. rewrite foldl_app. reflexivity. Qed.

Lemma groupById_snoc fks fk : groupById (fks ++ [fk]) = groupPush fk (groupById fks).
Proof. unfold groupById. rewrite foldl_app. reflexivity. Qed.

Lemma rowsOfId_snoc fks fk id :
  rowsOfId (fks ++ [fk]) id
  = (rowsOfId fks id ++ (if fk_id fk =? id then [fk] else []))%list.
Proof.
  unfold rowsOfId. rewrite List.filter_app. cbn [List.filter].
  destruct (fk_id fk =? id); reflexivity.
Qed.

Lemma existsb_eqb_elem_of z (ids : list Z) : existsb (Z.eqb z) ids = true <-> z ∈ ids.
Proof.
  rewrite existsb_exists. split.
  - intros (x & Hin & Heq). apply Z.eqb_eq in Heq. subst x.
    apply list_elem_of_In. exact Hin.
  - intros Hin. exists z. split; [apply list_elem_of_In; exact Hin | apply Z.eqb_refl].
Qed.

(** Pushing a row into groups that are listed by distinct ids. *)
Lemma groupPush_map fk (h : Z -> list FkRow) (ids : list Z) :
  NoDup ids ->
  groupPush fk (map (fun id => (id, h id)) ids)
  = (map (fun id => (id, (h id ++ (if fk_id fk =? id then [fk] else []))%list)) ids
     ++ (if existsb (Z.eqb (fk_id fk)) ids then [] else [(fk_id fk, [fk])]))%list.
Proof.
  induction 1 as [|a ids Ha Hnd IH]; [reflexivity|].
  cbn [map groupPush existsb]. rewrite (Z.eqb_sym a (fk_id fk)).
  destruct (Z.eqb_spec (fk_id fk) a) as [Heq|Hne].
  - cbn [orb app]. rewrite app_nil_r. f_equal.
    apply map_ext_in. intros id Hid.
    destruct (Z.eqb_spec (fk_id fk) id) as [Heq'|_]; [|rewrite app_nil_r; reflexivity].
    exfalso. apply Ha. rewrite <- Heq, Heq'. apply list_elem_of_In. exact Hid.
  - cbn [orb app]. rewrite app_nil_r, IH. reflexivity.
Qed.

(** The groups of the linker, in closed form: the distinct ids in the
    order of their first row, each with its rows in the order of the
    source. *)
Lemma groupById_closed fks :
  groupById fks = map (fun id => (id, rowsOfId fks id)) (firstIds fks)
  /\ NoDup (firstIds fks)
  /\ (forall id, id ∈ firstIds fks <-> exists fk, fk ∈ fks /\ fk_id fk = id).
Proof.
  induction fks as [|fk fks (IHg & IHnd & IHin)] using rev_ind.
  - split_and!; [reflexivity | constructor |].
    intros id. split; [intros Hin | intros (fk & Hin & _)];
      apply elem_of_nil in Hin; destruct Hin.
  - assert (Hnew : existsb (Z.eqb (fk_id fk)) (firstIds fks) = false ->
                   rowsOfId fks (fk_id fk) = []).
    { intros Hex. unfold rowsOfId.
      destruct (List.filter (fun fk0 => fk_id fk0 =? fk_id fk) fks) as [|p ps] eqn:Hf;
        [reflexivity|].
      assert (Hp : In p (List.filter (fun fk0 => fk_id fk0 =? fk_id fk) fks))
        by (rewrite Hf; left; reflexivity).
      apply filter_In in Hp as [Hp Hid]. apply Z.eqb_eq in Hid.
      assert (Hin : fk_id fk ∈ firstIds fks).
      { apply IHin. exists p. split; [apply list_elem_of_In; exact Hp | exact Hid]. }
      apply existsb_eqb_elem_of in Hin. congruence. }
    rewrite groupById_snoc, IHg, (groupPush_map _ _ _ IHnd), firstIds_snoc.
    destruct (existsb (Z.eqb (fk_id fk)) (firstIds fks)) eqn:Hex.
    + split_and!.
      * rewrite app_nil_r. apply map_ext. intros id. rewrite rowsOfId_snoc. reflexivity.
      * exact IHnd.
      * intros id. rewrite IHin. split.
        -- intros (p & Hp & Hid). exists p. split; [|exact Hid].
           apply elem_of_app. left. exact Hp.
        -- intros (p & Hp & Hid). apply elem_of_app in Hp as [Hp|Hp]; [eauto|].
           apply list_elem_of_singleton in Hp. subst p.
           apply IHin. rewrite <- Hid. apply existsb_eqb_elem_of. exact Hex.
    + assert (Hnotin : fk_id fk ∉ firstIds fks).
      { intros Hin. apply existsb_eqb_elem_of in Hin. congruence. }
      split_and!.
      * rewrite map_app. cbn [map]. rewrite rowsOfId_snoc, (Hnew eq_refl), Z.eqb_refl.
        f_equal. apply map_ext. intros id. rewrite rowsOfId_snoc. reflexivity.
      * apply NoDup_app. split_and!; [exact IHnd | | apply NoDup_singleton].
        intros id Hid Hid'. apply list_elem_of_singleton in Hid'. subst id.
        exact (Hnotin Hid).
      * intros id. rewrite elem_of_app, IHin, list_elem_of_singleton. split.
        -- intros [(p & Hp & Hid) | ->].
           ++ exists p. split; [apply elem_of_app; left; exact Hp | exact Hid].
           ++ exists fk. split; [|reflexivity].
              apply elem_of_app. right. apply list_elem_of_singleton. reflexivity.
        -- intros (p & Hp & Hid). apply elem_of_app in Hp as [Hp|Hp]; [left; eauto|].
           apply list_elem_of_singleton in Hp. subst p. right. symmetry. exact Hid.
Qed.

(** X18.  How the linker groups the rows of [PRAGMA foreign_key_list]:
    there is one group for every distinct id, the groups come in the order
    in which the ids first appear, and the group of an id holds all the
    rows of that id, and only those, in the order of the source; no id has
    two groups and no group is empty. *)
Theorem groupById_spec (fks : list FkRow) :
  groupById fks = map (fun id => (id, rowsOfId fks id)) (firstIds fks)
  /\ NoDup (map fst (groupById fks))
  /\ (forall id parts, (id, parts) ∈ groupById fks ->
        parts <> [] /\ forall fk, fk ∈ parts <-> fk ∈ fks /\ fk_id fk = id)
  /\ (forall fk, fk ∈ fks -> (fk_id fk, rowsOfId fks (fk_id fk)) ∈ groupById fks).
Proof.
  destruct (groupById_closed fks) as (Hgroups & Hnd & Hids).
  assert (Hrows : forall id fk, fk ∈ rowsOfId fks id <-> fk ∈ fks /\ fk_id fk = id).
  { intros id fk. unfold rowsOfId.
    rewrite !list_elem_of_In, filter_In, Z.eqb_eq. reflexivity. }
  rewrite Hgroups. split_and!.
  - reflexivity.
  - rewrite map_map. cbn [fst]. rewrite map_id. exact Hnd.
  - intros id parts Hin.
    apply list_elem_of_fmap in Hin as (id' & [= -> ->] & Hid).
    split; [|apply Hrows].
    apply Hids in Hid as (fk & Hfk & Heq).
    intros Hempty.
    assert (Hin : fk ∈ rowsOfId fks id') by (apply Hrows; auto).
    rewrite Hempty in Hin. apply elem_of_nil in Hin. exact Hin.
  - intros fk Hfk. apply list_elem_of_fmap.
    exists (fk_id fk). split; [reflexivity|].
    apply Hids. exists fk. auto.
Qed.

Section LinkerRequests.
Context {Pg E : Type} {dest : Destination Pg E} {eng : JsEngine}.
Variable cfg : Config.
Variable table : string.

(** The loop of the linker over groups that are given by their ids. *)
Lemma linkLoop_requests (fks : list FkRow) (ids : list Z) : forall (s : St Pg),
  let r := forEach
             (fun '(id, parts) =>
                match parts with
                | p0 :: _ =>
                    let spec := fkConstraint table id p0 parts in
                    emit (EAddConstraint table spec) ;;
                    dbCall (pg_addConstraint (PG_SCHEMA cfg) table spec)
                | [] => throw TypeError
                end)
             (map (fun id => (id, rowsOfId fks id)) ids) s in
  let requests :=
    map (EAddConstraint table)
        (flat_map (fun id => match rowsOfId fks id with
                             | p0 :: _ => [fkConstraint table id p0 (rowsOfId fks id)]
                             | [] => []
                             end) ids) in
  (forall id, id ∈ ids -> rowsOfId fks id <> []) ->
  events r `prefix_of` requests
  /\ (outcome r = Returned tt -> events r = requests)
  /\ outcome r <> Threw TypeError
  /\ outcome r <> OutOfFuel.
Proof.
  induction ids as [|id ids IH]; intros s; cbv zeta; intros Hne.
  - split_and!; try reflexivity; discriminate.
  - cbn [map flat_map]. rewrite forEach_cons, bind_unfold.
    assert (Hid : rowsOfId fks id <> []) by (apply Hne; left).
    destruct (rowsOfId fks id) as [|p0 parts] eqn:Hrows; [contradiction|].
    rewrite emit_bind, dbCall_run.
    destruct (pg_addConstraint (PG_SCHEMA cfg) table
                (fkConstraint table id p0 (p0 :: parts)) (pg s)) as [e|db];
      cbn [events final outcome map app].
    + split_and!; try discriminate.
      apply (prefix_app [EAddConstraint table _] []), prefix_nil.
    + destruct (IH {| pg := db; tableMeta := tableMeta s |}) as (Hpre & Hret & Hty & Hfuel).
      { intros id' Hin. apply Hne. right. exact Hin. }
      split_and!.
      * apply (prefix_app [EAddConstraint table _]). exact Hpre.
      * intros Hr. f_equal. exact (Hret Hr).
      * exact Hty.
      * exact Hfuel.
Qed.

End LinkerRequests.

(** X19.  The constraints that the linker requests for a table are, in
    this order, one constraint for every distinct id of its foreign-key
    rows, built from all the rows of the id in the order of the source:
    up to the first request that the destination refuses, and all of them
    when the linker returns.  Its groups are never empty, so reading the
    first row of a group never fails. *)
Theorem addForeignKeysForTable_requests {Pg E : Type} {dest : Destination Pg E}
    {eng : JsEngine} (cfg : Config) (src : Source) (table : string) (s : St Pg) :
  let r := addForeignKeysForTable cfg src table s in
  let requests :=
    map (EAddConstraint table) (constraintsOf table (src_foreign_keys src table)) in
  events r `prefix_of` requests
  /\ (outcome r = Returned tt -> events r = requests)
  /\ outcome r <> Threw TypeError
  /\ outcome r <> OutOfFuel.
Proof.
  cbv zeta. unfold addForeignKeysForTable, constraintsOf.
  destruct (Nat.eqb_spec (length (src_foreign_keys src table)) 0) as [Hzero|_].
  - apply nil_length_inv in Hzero. rewrite Hzero.
    split_and!; try reflexivity; discriminate.
  - destruct (groupById_closed (src_foreign_keys src table)) as (Hgroups & _ & Hids).
    rewrite Hgroups.
    apply (linkLoop_requests cfg table (src_foreign_keys src table)
             (firstIds (src_foreign_keys src table)) s).
    intros id Hid. apply Hids in Hid as (fk & Hfk & Heq).
    intros Hempty.
    assert (Hin : In fk (rowsOfId (src_foreign_keys src table) id)).
    { apply filter_In. split; [apply list_elem_of_In; exact Hfk | apply Z.eqb_eq; exact Heq]. }
    rewrite Hempty in Hin. destruct Hin.
Qed.

(** ** Referential actions *)

Lemma startsWith_length s : forall p,
  startsWith s p = true -> (String.length p <= String.length s)%nat.
Proof.
  induction s as [|a s IH]; intros [|c p] Hs; cbn [String.length]; try lia.
  - discriminate.
  - rewrite startsWith_cons in Hs. apply andb_prop in Hs as [_ Hs].
    specialize (IH _ Hs). lia.
Qed.

Lemma includes_length s p :
  includes s p = true -> (String.length p <= String.length s)%nat.
Proof.
  induction s as [|a s IH].
  - rewrite includes_nil. apply startsWith_length.
  - rewrite includes_cons. intros [Hs|Hs]%orb_prop.
    + exact (startsWith_length _ _ Hs).
    + specialize (IH Hs). cbn [String.length]. lia.
Qed.

Lemma startsWith_refl p : startsWith p p = true.
Proof.
  induction p as [|c p IH]; [reflexivity|].
  rewrite startsWith_cons, Ascii.eqb_refl. exact IH.
Qed.

Lemma includes_refl p : includes p p = true.
Proof.
  destruct p as [|c p]; [reflexivity|].
  rewrite includes_cons, startsWith_refl. reflexivity.
Qed.

Lemma length_append (s t : string) :
  String.length (s ++ t) = (String.length s + String.length t)%nat.
Proof.
  induction s as [|c s IH]; [rewrite append_nil; reflexivity|].
  rewrite append_cons. cbn [String.length]. rewrite IH. reflexivity.
Qed.

Lemma length_dropChars n : forall s,
  (n <= String.length s)%nat ->
  (String.length (dropChars n s) + n)%nat = String.length s.
Proof.
  induction n as [|n IH]; intros s Hn; [cbn [dropChars]; lia|].
  destruct s as [|c s]; cbn [String.length] in *; [lia|].
  cbn [dropChars]. specialize (IH s). lia.
Qed.

Lemma replaceFirst_unfold pat by_ s :
  replaceFirst pat by_ s
  = if startsWith s pat then (by_ ++ dropChars (String.length pat) s)%string
    else match s with
         | EmptyString => EmptyString
         | String c r => String c (replaceFirst pat by_ r)
         end.
Proof. destruct s; reflexivity. Qed.

(** A string without the pattern is left as it is. *)
Lemma replaceFirst_absent pat by_ s :
  includes s pat = false -> replaceFirst pat by_ s = s.
Proof.
  induction s as [|c s IH]; intros Hs; rewrite replaceFirst_unfold.
  - rewrite includes_nil in Hs. rewrite Hs. reflexivity.
  - rewrite includes_cons in Hs. apply orb_false_elim in Hs as [Hs Hr].
    rewrite Hs, (IH Hr). reflexivity.
Qed.

(** The length after the replacement of the first occurrence. *)
Lemma replaceFirst_length pat by_ s :
  includes s pat = true ->
  (String.length (replaceFirst pat by_ s) + String.length pat)%nat
  = (String.length s + String.length by_)%nat.
Proof.
  induction s as [|c s IH]; intros Hs; rewrite replaceFirst_unfold.
  - rewrite includes_nil in Hs. rewrite Hs, length_append.
    pose proof (length_dropChars _ _ (startsWith_length _ _ Hs)). lia.
  - destruct (startsWith (String c s) pat) eqn:Hstart.
    + rewrite length_append.
      pose proof (length_dropChars _ _ (startsWith_length _ _ Hstart)). lia.
    + rewrite includes_cons, Hstart in Hs. cbn [orb] in Hs.
      specialize (IH Hs). cbn [String.length]. lia.
Qed.

(** X20.  The linker passes every referential action of the source on as
    it is, unless it contains RESTRICT: CASCADE, SET NULL, SET DEFAULT and
    NO ACTION reach the destination unchanged, an absent or empty action
    becomes NO ACTION, and the action RESTRICT itself is never requested. *)
Theorem fkAction_spec :
  (forall a, isEmpty a = false -> includes a "RESTRICT" = false -> fkAction (Some a) = a)
  /\ fkAction (Some EmptyString) = "NO ACTION"
  /\ (forall a, fkAction a <> "RESTRICT").
Proof.
  assert (Hnever : forall s, replaceFirst "RESTRICT" "NO ACTION" s <> "RESTRICT").
  { intros s Heq.
    destruct (includes s "RESTRICT") eqn:Hinc.
    - pose proof (replaceFirst_length "RESTRICT" "NO ACTION" s Hinc) as Hlen.
      pose proof (includes_length _ _ Hinc) as Hmin.
      rewrite Heq in Hlen. cbn [String.length] in Hlen, Hmin. lia.
    - rewrite (replaceFirst_absent _ _ _ Hinc) in Heq. subst s. discriminate. }
  split_and!.
  - intros a Hne Hinc. unfold fkAction. rewrite Hne.
    apply replaceFirst_absent. exact Hinc.
  - reflexivity.
  - intros a. unfold fkAction. apply Hnever.
Qed.

(** ** Sanitizers: blank strings without the flag, and int against float *)

Lemma stringToNumber_blank s : isBlank s = true -> stringToNumber s = zero.
Proof. unfold isBlank, stringToNumber. intros ->. reflexivity. Qed.

(** X21.  What the flag [TREAT_EMPTY_STRING_AS_NULL] is for: with the flag
    off, a string that is empty after trimming becomes the number 0 in an
    int and in a float column, where the flag makes it null; in a boolean
    and in a decimal column it is null with or without the flag. *)
Theorem blank_string_without_flag `{JsEngine} (s : string) :
  isBlank s = true ->
  toIntOrNull false (VStr s) = VNum zero
  /\ toFloatOrNull false (VStr s) = VNum zero
  /\ toBoolean false (VStr s) = VNull
  /\ toDecimalStringOrNull false (VStr s) = VNull.
Proof.
  intros Hb. split_and!.
  - unfold toIntOrNull. rewrite emptyStringToNull_off. cbn [isNullish].
    rewrite (stringToNumber_blank _ Hb). reflexivity.
  - unfold toFloatOrNull. rewrite emptyStringToNull_off. cbn [isNullish].
    rewrite (stringToNumber_blank _ Hb). reflexivity.
  - rewrite toBoolean_string. cbn [andb]. cbv zeta.
    unfold isBlank in Hb. destruct (trim s); [reflexivity | discriminate].
  - rewrite toDecimalStringOrNull_string.
    unfold isBlank in Hb. destruct (trim s); [reflexivity | discriminate].
Qed.

Lemma blank_string_without_flag_witness :
  isBlank "   " = true
  /\ @toIntOrNull false (VStr "   ") = VNum zero.
Proof.
  split; [reflexivity|].
  exact (proj1 (@blank_string_without_flag Demo.engine "   " eq_refl)).
Defined.

(** X22.  The int sanitizer is the float sanitizer followed by
    [Math.trunc]: it accepts exactly the values that the float sanitizer
    accepts (fractions, exponents and hexadecimal literals included) and
    cuts their fractional part off; it returns null exactly when the float
    sanitizer does. *)
Theorem toIntOrNull_truncates (flag : bool) (v : JsValue) :
  toIntOrNull flag v
  = match toFloatOrNull flag v with
    | VNum n => VNum (trunc n)
    | other => other
    end.
Proof.
  unfold toIntOrNull, toFloatOrNull.
  destruct (isNullish (emptyStringToNull flag v)); [reflexivity|].
  destruct (emptyStringToNull flag v) as [| |b|n|s|t|c]; try reflexivity.
  - destruct (isFinite n); reflexivity.
  - destruct (isFinite (stringToNumber s)); reflexivity.
Qed.

(** ** Batch Copier: the size of the inserts *)

Section BatchSizes.
Context {Pg E : Type} {dest : Destination Pg E} {eng : JsEngine}.
Variable cfg : Config.
Variable src : Source.
Variable table : string.

Lemma batchWithin_rowInserts n ok (rows : list Row) :
  Forall (fun ev => batchWithin n true ev = true) (map (rowInsert table ok) rows).
Proof.
  induction rows as [|row rows IH]; constructor; [|exact IH].
  cbn [rowInsert batchWithin length Nat.eqb andb]. apply orb_true_r.
Qed.

Lemma insertPage_sizes coerced (s : St Pg) :
  (length coerced <= BATCH_SIZE cfg)%nat ->
  Forall (fun ev => batchWithin (BATCH_SIZE cfg) (DEBUG_ON_ERROR cfg) ev = true)
         (events (insertPage cfg table coerced s)).
Proof.
  intros Hlen.
  assert (Hwhole : forall ok debug,
            batchWithin (BATCH_SIZE cfg) debug (EBulkInsert table coerced ok) = true).
  { intros ok debug. cbn [batchWithin].
    apply Nat.leb_le in Hlen. rewrite Hlen. reflexivity. }
  destruct (pg_bulkInsert (PG_SCHEMA cfg) table coerced (pg s)) as [e|db] eqn:Hins.
  - destruct (insertPage_fail cfg table coerced s e Hins) as (_ & Hoff & Hon).
    destruct (DEBUG_ON_ERROR cfg).
    + destruct (Hon eq_refl) as [[_ Hev] | (k & row & e' & _ & _ & Hev & _)];
        rewrite Hev; constructor; try apply Hwhole.
      * apply batchWithin_rowInserts.
      * apply Forall_app. split; [apply batchWithin_rowInserts|].
        apply (batchWithin_rowInserts _ false [row]).
    + rewrite (Hoff eq_refl). cbn [events]. constructor; [apply Hwhole | constructor].
  - rewrite (insertPage_ok cfg table coerced s db Hins). cbn [events].
    constructor; [apply Hwhole | constructor].
Qed.

Lemma copyLoop_sizes typesByCol fuel : forall offset (s : St Pg),
  Forall (fun ev => batchWithin (BATCH_SIZE cfg) (DEBUG_ON_ERROR cfg) ev = true)
         (events (copyLoop cfg src table (length (src_rows src table))
                    typesByCol fuel offset s)).
Proof.
  induction fuel as [|fuel IH]; intros offset s;
    rewrite copyLoop_unfold;
    destruct (length (src_rows src table) <=? offset)%nat;
    [apply Forall_nil_2 | apply Forall_nil_2 | apply Forall_nil_2 |].
  - rewrite emit_bind, bind_unfold. cbn [events].
    set (coerced := coercePage (TREAT_EMPTY_STRING_AS_NULL cfg) typesByCol
                      (fetchPage cfg src table offset)).
    assert (Hpage : Forall (fun ev => batchWithin (BATCH_SIZE cfg) (DEBUG_ON_ERROR cfg) ev = true)
                      (events (insertPage cfg table coerced s))).
    { apply insertPage_sizes. unfold coerced, coercePage, fetchPage.
      rewrite length_map, length_take. lia. }
    destruct (outcome (insertPage cfg table coerced s)) as [[]|err|];
      cbn [events]; constructor; try reflexivity; try exact Hpage.
    apply Forall_app. split; [exact Hpage | apply IH].
Qed.

End BatchSizes.

(** X23.  The batch size is respected: every insert that the copy of a
    table sends carries at most [BATCH_SIZE] rows, except the inserts of
    the row-by-row fallback, which carry one row each and occur only when
    [DEBUG_ON_ERROR] is on. *)
Theorem copyTableData_batch_sizes {Pg E : Type} {dest : Destination Pg E}
    {eng : JsEngine} (cfg : Config) (src : Source) (fuel : nat) (table : string)
    (s : St Pg) :
  forall t rows ok,
    EBulkInsert t rows ok ∈ events (copyTableData cfg src fuel table s) ->
    (length rows <= BATCH_SIZE cfg)%nat
    \/ (DEBUG_ON_ERROR cfg = true /\ length rows = 1%nat).
Proof.
  intros t rows ok Hin.
  assert (Hall : Forall (fun ev => batchWithin (BATCH_SIZE cfg) (DEBUG_ON_ERROR cfg) ev = true)
                   (events (copyTableData cfg src fuel table s))).
  { rewrite copyTableData_run.
    destruct (length (src_rows src table) =? 0)%nat; cbv zeta; cbn [events].
    - repeat constructor.
    - constructor; [reflexivity|]. constructor; [reflexivity|]. apply copyLoop_sizes. }
  rewrite Forall_forall in Hall. specialize (Hall _ Hin).
  cbn [batchWithin] in Hall. apply orb_prop in Hall as [Hle | Hone].
  - left. apply Nat.leb_le. exact Hle.
  - right. apply andb_prop in Hone as [Hd Hone]. split; [exact Hd|].
    apply Nat.eqb_eq. exact Hone.
Qed.

Section BatchExamples.
Import Demo.

Lemma copyTableData_batch_sizes_witness :
  EBulkInsert "users" (coercePage true usersTypes [alice; blank]) true
    ∈ events (copyTableData config (sourceWith [alice; blank]) 10 "users" createdState)
  /\ ((length (coercePage true usersTypes [alice; blank]) <= BATCH_SIZE config)%nat
      \/ (DEBUG_ON_ERROR config = true
          /\ length (coercePage true usersTypes [alice; blank]) = 1%nat)).
Proof.
  assert (Hin : EBulkInsert "users" (coercePage true usersTypes [alice; blank]) true
                  ∈ events (copyTableData config (sourceWith [alice; blank]) 10
                              "users" createdState)).
  { apply list_elem_of_In. vm_compute. auto 10. }
  split; [exact Hin|].
  exact (copyTableData_batch_sizes config (sourceWith [alice; blank]) 10 "users"
           createdState _ _ _ Hin).
Defined.

End BatchExamples.

(** ** Type Mapper: a declared length *)

Lemma mapChars_app f (s t : string) :
  mapChars f (s ++ t) = (mapChars f s ++ mapChars f t)%string.
Proof.
  induction s as [|c s IH]; [rewrite !append_nil; reflexivity|].
  rewrite append_cons. cbn [mapChars]. rewrite append_cons, IH. reflexivity.
Qed.

Lemma upperChar_digit c : isDigit c = true -> upperChar c = c.
Proof. intros Hc. digit_cases c Hc. Qed.

Lemma toUpperCase_digits d : allDigits d = true -> toUpperCase d = d.
Proof.
  induction d as [|c d IH]; [reflexivity|].
  cbn [allDigits]. intros [Hc Hd]%andb_prop.
  unfold toUpperCase in *. cbn [mapChars]. rewrite (upperChar_digit _ Hc), (IH Hd).
  reflexivity.
Qed.

Lemma spanDigits_app_stop d k r :
  allDigits d = true -> isDigit k = false ->
  spanDigits (d ++ String k r) = (d, String k r).
Proof.
  intros Hd Hk. induction d as [|c d IH].
  - rewrite append_nil. cbn [spanDigits]. rewrite Hk. reflexivity.
  - cbn [allDigits] in Hd. apply andb_prop in Hd as [Hc Hd].
    rewrite append_cons. cbn [spanDigits]. rewrite Hc, (IH Hd). reflexivity.
Qed.

Lemma digit_not_I c : isDigit c = true -> Ascii.eqb "I" c = false.
Proof. intros Hc. digit_cases c Hc. Qed.

Lemma includes_digits_INT d :
  allDigits d = true -> includes (d ++ ")") "INT" = false.
Proof.
  induction d as [|c d IH]; [reflexivity|].
  cbn [allDigits]. intros [Hc Hd]%andb_prop.
  rewrite append_cons, includes_cons, startsWith_cons, (digit_not_I _ Hc), (IH Hd).
  reflexivity.
Qed.

(** The type string [VARCHAR(d)] for a string of digits [d]. *)
Lemma varchar_normalized d :
  allDigits d = true -> normalizedType ("VARCHAR(" ++ d ++ ")") = ("VARCHAR(" ++ d ++ ")")%string.
Proof.
  intros Hd. unfold normalizedType.
  rewrite trim_noSpace.
  - unfold toUpperCase. rewrite !mapChars_app.
    fold (toUpperCase d). rewrite (toUpperCase_digits _ Hd). reflexivity.
  - rewrite !allChars_app.
    rewrite allDigits_allChars in Hd.
    rewrite (allChars_weaken _ _ _ digit_not_space Hd). reflexivity.
Qed.

(** X24.  The length of a character type is read from the digits between
    its parentheses, as a decimal number: [VARCHAR(d)] becomes a string
    type of that length, and plain TEXT when the length is zero. *)
Theorem mapSqliteTypeToSequelize_varchar (d : string) :
  isAllDigitsStr d = true ->
  parseLength ("VARCHAR(" ++ d ++ ")") = Some (ofZ (digitsValue d))
  /\ mapSqliteTypeToSequelize ("VARCHAR(" ++ d ++ ")")
     = if truthyNum (ofZ (digitsValue d)) then STRING (ofZ (digitsValue d)) else TEXT.
Proof.
  unfold isAllDigitsStr. intros [Hne Hd]%andb_prop.
  assert (Hlen : parseLength ("VARCHAR(" ++ d ++ ")") = Some (ofZ (digitsValue d))).
  { unfold parseLength. rewrite !append_cons, append_nil.
    cbn [matchParenDigits Ascii.eqb Bool.eqb].
    rewrite (spanDigits_app_stop d ")" EmptyString Hd eq_refl).
    destruct d as [|c ds]; [discriminate|]. reflexivity. }
  split; [exact Hlen|].
  unfold mapSqliteTypeToSequelize. rewrite (varchar_normalized _ Hd), Hlen.
  assert (Hint : includes ("VARCHAR(" ++ d ++ ")") "INT" = false).
  { rewrite !append_cons, append_nil.
    rewrite !includes_cons, !startsWith_cons, (includes_digits_INT _ Hd). reflexivity. }
  assert (Hchar : includes ("VARCHAR(" ++ d ++ ")") "CHAR" = true).
  { rewrite !append_cons, append_nil.
    rewrite !includes_cons, !startsWith_cons, startsWith_nil. reflexivity. }
  rewrite Hint, Hchar. reflexivity.
Qed.

Lemma mapSqliteTypeToSequelize_varchar_witness :
  isAllDigitsStr "255" = true
  /\ mapSqliteTypeToSequelize "VARCHAR(255)" = STRING (ofZ 255).
Proof.
  split; [reflexivity|].
  exact (proj2 (mapSqliteTypeToSequelize_varchar "255" eq_refl)).
Defined.
